(** * Wake2Text: the streaming session controller

    A shallow embedding of the session logic of Wake2Text, the hotword
    activated speech-to-text transcriber.  The repository holds two variants
    of the same class [WhisperStreamingTranscriber]:

    - [src/main.cpp], which calls the Whisper C API in process;
    - [src/whisper_streaming_transcriber.cpp], which spawns [whisper-cli]
      and parses its console output.

    Samples are C++ [short] values, embedded as [Z]; buffers are lists of
    samples, oldest first; [std::string] values are [string] (sequences of
    bytes).  The C++ [int] counters that the program increments are
    embedded as [Z] without wrap-around: signed overflow is undefined in
    C++, and none of the results below relies on such a counter leaving the
    [int] range.  [recorded_samples] is different: it is updated by
    [recorded_samples += samples.size()], a sum in [size_t] that is
    converted back to [int], which is defined and wraps; [to_int] is that
    conversion. *)

From Stdlib Require Import ZArith List Bool Ascii String Lia.
From Stdlib Require Import QArith Qreals Reals Lra.
From Stdlib Require Import DecimalString DecimalPos DecimalN.
From Stdlib Require Import Sorted Permutation.
From Stdlib Require PrimFloat Uint63.
Import ListNotations.

Local Open Scope string_scope.
Local Open Scope Z_scope.

(** ** [std::string] helpers *)

Module Str.

(** [::tolower] in the "C" locale: only the bytes 'A'..'Z' change. *)
Definition tolower (c : ascii) : ascii :=
  let n := nat_of_ascii c in
  if (andb (65 <=? n) (n <=? 90))%nat then ascii_of_nat (n + 32) else c.

(** [std::transform(s.begin(), s.end(), s.begin(), f)]. *)
Fixpoint transform (f : ascii -> ascii) (s : string) : string :=
  match s with
  | EmptyString => EmptyString
  | String c s' => String (f c) (transform f s')
  end.

(** [s.erase(std::remove_if(s.begin(), s.end(), p), s.end())]. *)
Fixpoint remove_if (p : ascii -> bool) (s : string) : string :=
  match s with
  | EmptyString => EmptyString
  | String c s' => if p c then remove_if p s' else String c (remove_if p s')
  end.

(** [s.find(pat, pos)]; [None] stands for [std::string::npos]. *)
Definition find_from (pos : nat) (pat s : string) : option nat :=
  index pos pat s.

Definition find (pat s : string) : option nat := find_from 0 pat s.

(** [s.find(pat) != std::string::npos]. *)
Definition contains (pat s : string) : bool :=
  match find pat s with Some _ => true | None => false end.

Definition empty (s : string) : bool :=
  match s with EmptyString => true | _ => false end.

(** Membership of a byte in a set given as a string, as used by
    [find_first_not_of] and [find_last_not_of]. *)
Fixpoint mem (c : ascii) (set : string) : bool :=
  match set with
  | EmptyString => false
  | String d set' => if Ascii.eqb c d then true else mem c set'
  end.

(** The suffix of [s] that starts at its first byte outside [set]:
    [s.substr(s.find_first_not_of(set))], empty when there is none. *)
Fixpoint drop_leading (set : string) (s : string) : string :=
  match s with
  | EmptyString => EmptyString
  | String c s' => if mem c set then drop_leading set s' else s
  end.

(** The prefix of [s] that ends at its last byte outside [set]:
    [s.substr(0, s.find_last_not_of(set) + 1)], empty when there is none. *)
Fixpoint drop_trailing (set : string) (s : string) : string :=
  match s with
  | EmptyString => EmptyString
  | String c s' =>
      match drop_trailing set s' with
      | EmptyString => if mem c set then EmptyString else String c EmptyString
      | t => String c t
      end
  end.

(** [start = s.find_first_not_of(set); end = s.find_last_not_of(set);
    s.substr(start, end - start + 1)], and the empty string when
    [start == npos]. *)
Definition trim (set : string) (s : string) : string :=
  drop_trailing set (drop_leading set s).

(** [s.rfind(p, 0) == 0]: [p] is a prefix of [s]. *)
Definition starts_with (p s : string) : bool := prefix p s.

(** [std::count(s.begin(), s.end(), c)]. *)
Fixpoint count (c : ascii) (s : string) : Z :=
  match s with
  | EmptyString => 0
  | String d s' => (if Ascii.eqb c d then 1 else 0) + count c s'
  end.

(** [std::to_string] of a non-negative integer. *)
Definition to_string (n : Z) : string :=
  NilZero.string_of_uint (N.to_uint (Z.to_N n)).

Definition of_bytes (l : list nat) : string :=
  string_of_list_ascii (map ascii_of_nat l).

(** A [std::string] built from a buffer of [char], as in
    [std::string line(buffer)] and [carry.append(buf)]: the bytes of the
    buffer that come before its first NUL. *)
Fixpoint c_str (buffer : string) : string :=
  match buffer with
  | EmptyString => EmptyString
  | String c rest =>
      if Ascii.eqb c zero then EmptyString else String c (c_str rest)
  end.

End Str.

(** The four blanks of ["\x20\t\n\r"]. *)
Definition HT : ascii := ascii_of_nat 9.
Definition LF : ascii := ascii_of_nat 10.
Definition CR : ascii := ascii_of_nat 13.
Definition WHITESPACE : string :=
  String " " (String HT (String LF (String CR EmptyString))).

(** ** SpeechGate: [hasSubstantialSpeech]

    The function computes in [double].  Every [double] here is the quotient
    of two integers and is read as that exact rational; the square root is
    monotone, so [rms < 50.0] is decided on the mean square, [sqrt] being
    applied to both sides.  A quotient whose divisor is zero has no value:
    [fdiv] returns [None] there. *)

Module SpeechGate.

(** [(double)a / n]. *)
Definition fdiv (a n : Z) : option Q :=
  match n with
  | Zpos p => Some (a # p)
  | _ => None
  end.

Definition Qltb (x y : Q) : bool := negb (Qle_bool y x).

Definition size (audio_chunk : list Z) : Z := Z.of_nat (List.length audio_chunk).

(** [long long sum_squares = 0; for (short sample : audio_chunk)
    sum_squares += (long long)sample * sample;] *)
Definition sum_squares (audio_chunk : list Z) : Z :=
  fold_left (fun acc sample => acc + sample * sample) audio_chunk 0.

Definition MIN_RMS_THRESHOLD : Q := 50.
Definition SPEECH_THRESHOLD : Z := 200.
(** The literal [0.005]. *)
Definition MIN_SPEECH_RATIO : Q := 5 # 1000.

(** [int speech_samples = 0; for (short sample : audio_chunk)
    if (abs(sample) > SPEECH_THRESHOLD) speech_samples++;] *)
Definition speech_samples (audio_chunk : list Z) : Z :=
  fold_left
    (fun n sample => if Z.abs sample >? SPEECH_THRESHOLD then n + 1 else n)
    audio_chunk 0.

(** The argument of [sqrt] in [rms = sqrt((double)sum_squares / size)]. *)
Definition mean_square (audio_chunk : list Z) : option Q :=
  fdiv (sum_squares audio_chunk) (size audio_chunk).

Definition speech_ratio (audio_chunk : list Z) : option Q :=
  fdiv (speech_samples audio_chunk) (size audio_chunk).

(** [sqrt(x) < t] for a threshold [0 <= t]. *)
Definition sqrt_lt (x t : Q) : bool := Qltb x (t * t).

(** The body of [hasSubstantialSpeech], statement by statement; [None]
    when a quotient without value is evaluated. *)
Definition hasSubstantialSpeech_body (audio_chunk : list Z) : option bool :=
  match audio_chunk with
  | [] => Some false
  | _ :: _ =>
      match mean_square audio_chunk with
      | None => None
      | Some ms =>
          if sqrt_lt ms MIN_RMS_THRESHOLD then Some false
          else
            match speech_ratio audio_chunk with
            | None => None
            | Some ratio =>
                if Qltb ratio MIN_SPEECH_RATIO then Some false else Some true
            end
      end
  end.

(** The same body without the guard [if (audio_chunk.empty()) return
    false;], to show what the guard protects. *)
Definition unguarded_body (audio_chunk : list Z) : option bool :=
  match mean_square audio_chunk with
  | None => None
  | Some ms =>
      if sqrt_lt ms MIN_RMS_THRESHOLD then Some false
      else
        match speech_ratio audio_chunk with
        | None => None
        | Some ratio =>
            if Qltb ratio MIN_SPEECH_RATIO then Some false else Some true
        end
  end.

Definition hasSubstantialSpeech (audio_chunk : list Z) : bool :=
  match hasSubstantialSpeech_body audio_chunk with
  | Some b => b
  | None => false
  end.

(** The quantities of the specification, in its words and over the reals.
    They are defined from the samples by a recursion of their own, not
    through the loops of the function.  The root-mean-square amplitude is
    the square root of the mean of the squares of the samples. *)
Fixpoint sum_of_squares (samples : list Z) : R :=
  match samples with
  | [] => 0%R
  | sample :: rest => (IZR sample * IZR sample + sum_of_squares rest)%R
  end.

Definition rms (audio_chunk : list Z) : R :=
  sqrt (sum_of_squares audio_chunk / INR (List.length audio_chunk)).

(** The activity ratio is the fraction of the samples whose absolute value
    exceeds 200. *)
Definition active (sample : Z) : bool := 200 <? Z.abs sample.

Definition activity_ratio (audio_chunk : list Z) : R :=
  (INR (List.length (filter active audio_chunk))
   / INR (List.length audio_chunk))%R.

End SpeechGate.

(** ** The gate in binary64 *)

Module Binary64.

Import PrimFloat.
Local Open Scope float_scope.
Local Set Warnings "-inexact-float".

(** The same function in binary64, operation by operation: the
    conversions of [sum_squares], [speech_samples] and the size to
    [double], the two divisions, [sqrt] and the two comparisons.  It is
    used to test the reading above at the thresholds. *)
Definition to_double (z : Z) : float := PrimFloat.of_uint63 (Uint63.of_Z z).

Definition hasSubstantialSpeech (audio_chunk : list Z) : bool :=
  match audio_chunk with
  | [] => false
  | _ :: _ =>
      let rms :=
        PrimFloat.sqrt
          (PrimFloat.div (to_double (SpeechGate.sum_squares audio_chunk))
                         (to_double (SpeechGate.size audio_chunk))) in
      if PrimFloat.ltb rms 50 then false
      else
        let speech_ratio :=
          PrimFloat.div (to_double (SpeechGate.speech_samples audio_chunk))
                        (to_double (SpeechGate.size audio_chunk)) in
        if PrimFloat.ltb speech_ratio 0.005 then false else true
  end.

End Binary64.

(** ** The builds of the program *)

(** [MainCpp] is [src/main.cpp]; the other two are the [#ifdef _WIN32]
    branch and the [#else] branch of
    [src/whisper_streaming_transcriber.cpp]. *)
Inductive Build : Type := MainCpp | StreamingWin32 | StreamingPosix.

(** ** HallucinationFilter *)

Module HallucinationFilter.

(** The first entry of the list, byte for byte.  In [main.cpp] it is the
    UTF-8 encoding of a Greek word; the other file holds the same word
    encoded twice. *)
Definition greek_subtitles (b : Build) : string :=
  match b with
  | MainCpp =>
      Str.of_bytes [207; 133; 207; 128; 207; 140; 207; 132; 206; 185;
                    207; 132; 206; 187; 206; 191; 206; 185]%nat
  | _ =>
      Str.of_bytes [195; 143; 226; 128; 166; 195; 143; 226; 130; 172;
                    195; 143; 197; 146; 195; 143; 226; 128; 158; 195;
                    142; 194; 185; 195; 143; 226; 128; 158; 195; 142;
                    194; 187; 195; 142; 194; 191; 195; 142; 194; 185]%nat
  end.

Definition hallucinations (b : Build) : list string :=
  [ greek_subtitles b; "authorwave"; "subtitles"; "subtitle"; "closed captions";
    "captioning"; "transcription"; "transcript"; "audio"; "music";
    "[music]"; "[sound]"; "[noise]"; "[silence]"; "[inaudible]";
    "thank you"; "thanks for watching"; "subscribe"; "like and subscribe";
    "www."; ".com"; "http"; "https";
    "undertekster"; "ai-media"; "ai media"; "undertekst"; "tekster";
    "untertitel"; "sous-titres"; "legendas"; "sottotitoli" ].

Definition standalone_hallucinations : list string :=
  [ "thankyou"; "thankyouforwatching"; "thanks"; "thanksforwatching";
    "subscribe"; "likeandsubscribe"; "pleasesubscribe" ].

(** The lambda given to [std::remove_if]. *)
Definition is_punct_or_space (c : ascii) : bool :=
  Str.mem c (String "." (String "," (String "!" (String "?" WHITESPACE)))).

Definition lower (text : string) : string := Str.transform Str.tolower text.

(** First check: some listed phrase occurs in the lowered text. *)
Definition substring_check (b : Build) (lower_text : string) : bool :=
  existsb (fun halluc => Str.contains halluc lower_text) (hallucinations b).

(** Second check: the lowered text, stripped of punctuation and blanks,
    is one of the standalone tokens. *)
Definition standalone_check (lower_text : string) : bool :=
  let trimmed := Str.remove_if is_punct_or_space lower_text in
  existsb (fun standalone => String.eqb trimmed standalone)
          standalone_hallucinations.

(** [isHallucination] of [main.cpp]; the other file has the same two
    loops inline, with [is_hallucination] as their result. *)
Definition isHallucination (b : Build) (text : string) : bool :=
  let lower_text := lower text in
  if substring_check b lower_text then true
  else standalone_check lower_text.

End HallucinationFilter.

(** ** RecognitionEngine: [transcribeWithWhisper]

    What the outside world answers to one call is an [Outcome]; the rest of
    the function is embedded.  An object of the class only exists with a
    loaded model ([whisper_ctx] is not null: the constructor throws
    otherwise), so the first test of [main.cpp] is never taken. *)

Module Engine.

Import HallucinationFilter.

(** [main.cpp]: the value of [whisper_full] and the texts of the segments
    (the empty string for a null or empty text). *)
Record WhisperFull : Type :=
  { whisper_full_rc : Z; segment_texts : list string }.

(** [_WIN32]: [CreatePipe] fails, [CreateProcessA] fails (with
    [GetLastError()]), or the child runs, writes [output] to the pipe
    (its stdout and stderr, as the blocks read by [ReadFile] are appended
    to [carry]) and exits with [exit_code]. *)
Inductive Spawn : Type :=
| CreatePipeFailed (err : Z)
| CreateProcessFailed (err : Z)
| ProcessRan (output : string) (exit_code : Z).

(** [#else]: [_popen] returns null, or the child writes [output]; the
    value of [_pclose] is not read. *)
Inductive Popen : Type :=
| PopenFailed
| PopenRan (output : string) (exit_status : Z).

Definition Outcome (b : Build) : Type :=
  match b with
  | MainCpp => WhisperFull
  | StreamingWin32 => Spawn
  | StreamingPosix => Popen
  end.

(** [if (!result.empty()) result += ' '; result += text;] *)
Definition add_text (result text : string) : string :=
  if Str.empty result then text else result ++ " " ++ text.

(** *** [main.cpp] *)

(** One turn of the loop over the segments. *)
Definition add_segment (result text : string) : string :=
  if Str.empty text then result
  else
    let segment_text := Str.trim WHITESPACE text in
    if Str.empty segment_text then result
    else if isHallucination MainCpp segment_text then result
    else add_text result segment_text.

Definition transcribe_main (o : WhisperFull) : string :=
  if negb (whisper_full_rc o =? 0) then ""
  else fold_left add_segment (segment_texts o) "".

(** *** [whisper_streaming_transcriber.cpp] *)

Definition noise_prefixes_win32 : list string :=
  [ "system_info:"; "whisper_print_timings:"; "main:"; "ggml:"; "whisper:"; "memcpy("; "AVX";
    "whisper_init_"; "whisper_model_"; "whisper_backend_"; "whisper_full_";
    "load time"; "fallbacks"; "mel time"; "sample time"; "encode time"; "decode time";
    "batchd time"; "prompt time"; "total time"; "auto-detected language:";
    "processing '"; "threads"; "processors"; "beams"; "lang ="; "task ="; "timestamps =";
    "ggml_cuda_init:"; "Device 0:"; "compute capability"; "VMM:"; "GGML_CUDA_FORCE";
    "whisper_init_from_file"; "use gpu"; "flash attn"; "gpu_device"; "dtw"; "devices";
    "backends"; "whisper_model_load:"; "n_vocab"; "n_audio"; "n_text"; "n_mels"; "ftype";
    "qntvr"; "type"; "adding"; "extra tokens"; "n_langs"; "CUDA0 total size";
    "model size"; "whisper_backend_init_gpu:"; "using CUDA"; "whisper_init_state:";
    "kv self size"; "kv cross size"; "kv pad size"; "compute buffer"; "WHISPER :";
    "CPU :"; "SSE3"; "SSSE3"; "AVX"; "FMA"; "AVX512"; "OPENMP"; "REPACK" ].

Definition noise_prefixes_posix : list string :=
  [ "system_info:"; "whisper_print_timings:"; "main:"; "ggml:"; "whisper:"; "memcpy("; "AVX";
    "whisper_init_"; "whisper_model_"; "whisper_backend_"; "whisper_full_";
    "load time"; "fallbacks"; "mel time"; "sample time"; "encode time"; "decode time";
    "batchd time"; "prompt time"; "total time"; "auto-detected language:";
    "processing '"; "threads"; "processors"; "beams"; "lang ="; "task ="; "timestamps =" ].

Definition is_noise (prefixes : list string) (line : string) : bool :=
  existsb (fun p => Str.starts_with p line) prefixes.

(** For a line [line.size() > 1 && line[0] == '['] with
    [rb = line.find(']')], [rb != npos] and [rb + 1 < line.size()]:
    [Some (line.substr(rb + 1))]; otherwise [None]. *)
Definition after_bracket (line : string) : option string :=
  match line with
  | String "[" (String _ _) =>
      match Str.find "]" line with
      | Some rb =>
          if (rb + 1 <? String.length line)%nat
          then Some (substring (rb + 1) (String.length line - (rb + 1)) line)
          else None
      | None => None
      end
  | _ => None
  end.

(** [handle_line] of the [_WIN32] branch, and the body of the [fgets] loop
    of the other branch, which has a shorter list of prefixes and does not
    run the filter.  [result] is the text gathered so far. *)
Definition handle_line (b : Build) (result line : string) : string :=
  let line := Str.trim WHITESPACE line in
  if Str.empty line then result
  else
    match after_bracket line with
    | Some after =>
        let after := Str.trim WHITESPACE after in
        if Str.empty after then result
        else
          match b with
          | StreamingPosix => add_text result after
          | _ => if isHallucination b after then result
                 else add_text result after
          end
    | None =>
        let prefixes :=
          match b with
          | StreamingPosix => noise_prefixes_posix
          | _ => noise_prefixes_win32
          end in
        if is_noise prefixes line then result else add_text result line
    end.

(** The pieces of [s] between line feeds; the last piece is what follows
    the last line feed (the partial line left in [carry]). *)
Fixpoint split_lines (s : string) : list string :=
  match s with
  | EmptyString => [EmptyString]
  | String c s' =>
      let r := split_lines s' in
      if Ascii.eqb c LF then EmptyString :: r
      else match r with
           | l :: r' => String c l :: r'
           | [] => [String c EmptyString]
           end
  end.

(** The bytes that successive [fgets(buffer, 1024, pipe)] put in the
    buffer: up to 1023 bytes, ended early by a line feed, which is kept. *)
Fixpoint fgets_lines (room : nat) (acc : string) (s : string) : list string :=
  match s with
  | EmptyString => if Str.empty acc then [] else [acc]
  | String c s' =>
      let acc' := acc ++ String c EmptyString in
      if Ascii.eqb c LF then acc' :: fgets_lines 1023 EmptyString s'
      else
        match room with
        | S (S r) => fgets_lines (S r) acc' s'
        | _ => acc' :: fgets_lines 1023 EmptyString s'
        end
  end.

(** The final trim, which removes spaces only. *)
Definition final_trim (result : string) : string := Str.trim " " result.

Definition transcribe_win32 (o : Spawn) : string :=
  match o with
  | CreatePipeFailed _ => "[CreatePipe failed]"
  | CreateProcessFailed err =>
      "[CreateProcess failed: " ++ Str.to_string err ++ "]"
  | ProcessRan output _ =>
      let pieces := split_lines output in
      let result := fold_left (handle_line StreamingWin32) (removelast pieces) "" in
      let carry := last pieces "" in
      let result :=
        if Str.empty carry then result
        else handle_line StreamingWin32 result carry in
      final_trim result
  end.

(** Each buffer is read as [std::string line(buffer)], which ends at the
    first NUL of the buffer. *)
Definition transcribe_posix (o : Popen) : string :=
  match o with
  | PopenFailed => ""
  | PopenRan output _ =>
      final_trim
        (fold_left (handle_line StreamingPosix)
                   (map Str.c_str (fgets_lines 1023 "" output)) "")
  end.

(** The text returned by [transcribeWithWhisper] for an outcome. *)
Definition transcribeWithWhisper (b : Build) : Outcome b -> string :=
  match b with
  | MainCpp => transcribe_main
  | StreamingWin32 => transcribe_win32
  | StreamingPosix => transcribe_posix
  end.

End Engine.

(** ** The session: the fields of [WhisperStreamingTranscriber] that the
    loop of [startStreaming] reads and writes *)

Local Open Scope list_scope.

Definition SILENCE_THRESHOLD : Z := 30.
Definition MIN_SPEECH_LENGTH : Z := 8000.
Definition TRANSCRIPTION_CHUNK_SIZE : Z := 48000.
(** [16000 * 60] of the last test of the loop. *)
Definition MAX_LISTENING_SAMPLES : Z := 16000 * 60.

(** What an observer of the program sees, newest first in [log]. *)
Inductive Event : Type :=
| EvHotword
    (** the detector fired: a cycle starts *)
| EvCapture (samples : list Z)
    (** a frame was appended to [audio_buffer] *)
| EvRecognize (audio : list Z)
    (** [transcribeWithWhisper] was called on [audio] *)
| EvChunk (chunk : list Z) (overlap : Z) (sent : bool)
    (** [processAudioChunk] took [chunk] and erased all of it but its last
        [overlap] samples; [sent] tells whether it went to recognition *)
| EvComplete (clean_text : string) (recorded : Z) (words : Z)
    (** the "Complete transcription" report of [finalizeTranscription] *)
| EvIdle.
    (** [is_listening = false]: the cycle is over *)

Record Session : Type := mkSession
  { audio_buffer : list Z;
    is_listening : bool;
    silence_counter : Z;
    speech_counter : Z;
    current_transcription : string;
    transcription_started : bool;
    chunk_count : Z;
    recorded_samples : Z;
    loop_count : Z;
    log : list Event }.

(** One turn of [while (true)]: the frame read from the microphone and the
    answers of the two detectors for it (each is asked in one state only). *)
Record Frame : Type := mkFrame
  { samples : list Z;
    detection_result : Z;
    vad_result : Z }.

Definition set_audio_buffer (v : list Z) (s : Session) : Session :=
  mkSession v (is_listening s) (silence_counter s) (speech_counter s)
    (current_transcription s) (transcription_started s) (chunk_count s)
    (recorded_samples s) (loop_count s) (log s).

Definition set_is_listening (v : bool) (s : Session) : Session :=
  mkSession (audio_buffer s) v (silence_counter s) (speech_counter s)
    (current_transcription s) (transcription_started s) (chunk_count s)
    (recorded_samples s) (loop_count s) (log s).

Definition set_silence_counter (v : Z) (s : Session) : Session :=
  mkSession (audio_buffer s) (is_listening s) v (speech_counter s)
    (current_transcription s) (transcription_started s) (chunk_count s)
    (recorded_samples s) (loop_count s) (log s).

Definition set_speech_counter (v : Z) (s : Session) : Session :=
  mkSession (audio_buffer s) (is_listening s) (silence_counter s) v
    (current_transcription s) (transcription_started s) (chunk_count s)
    (recorded_samples s) (loop_count s) (log s).

Definition set_current_transcription (v : string) (s : Session) : Session :=
  mkSession (audio_buffer s) (is_listening s) (silence_counter s)
    (speech_counter s) v (transcription_started s) (chunk_count s)
    (recorded_samples s) (loop_count s) (log s).

Definition set_transcription_started (v : bool) (s : Session) : Session :=
  mkSession (audio_buffer s) (is_listening s) (silence_counter s)
    (speech_counter s) (current_transcription s) v (chunk_count s)
    (recorded_samples s) (loop_count s) (log s).

Definition set_chunk_count (v : Z) (s : Session) : Session :=
  mkSession (audio_buffer s) (is_listening s) (silence_counter s)
    (speech_counter s) (current_transcription s) (transcription_started s) v
    (recorded_samples s) (loop_count s) (log s).

Definition set_recorded_samples (v : Z) (s : Session) : Session :=
  mkSession (audio_buffer s) (is_listening s) (silence_counter s)
    (speech_counter s) (current_transcription s) (transcription_started s)
    (chunk_count s) v (loop_count s) (log s).

Definition set_loop_count (v : Z) (s : Session) : Session :=
  mkSession (audio_buffer s) (is_listening s) (silence_counter s)
    (speech_counter s) (current_transcription s) (transcription_started s)
    (chunk_count s) (recorded_samples s) v (log s).

Definition emit (e : Event) (s : Session) : Session :=
  mkSession (audio_buffer s) (is_listening s) (silence_counter s)
    (speech_counter s) (current_transcription s) (transcription_started s)
    (chunk_count s) (recorded_samples s) (loop_count s) (e :: log s).

(** The object after its constructor. *)
Definition initial : Session :=
  mkSession [] false 0 0 "" false 0 0 0 [].

Definition size (v : list Z) : Z := Z.of_nat (List.length v).

(** The conversion of an integer to [int]: the value of the range of
    [int] that is congruent to it modulo 2^32. *)
Definition to_int (x : Z) : Z := (x + 2 ^ 31) mod 2 ^ 32 - 2 ^ 31.

(** [v.erase(v.begin(), v.begin() + n)]. *)
Definition erase_front (n : Z) (v : list Z) : list Z := skipn (Z.to_nat n) v.

(** [std::vector<short>(v.begin(), v.begin() + n)]. *)
Definition front (n : Z) (v : list Z) : list Z := firstn (Z.to_nat n) v.

(** The three overlaps of [processAudioChunk]; [÷] is the division of C++. *)
Definition skipped_overlap (b : Build) : Z :=
  match b with
  | MainCpp => TRANSCRIPTION_CHUNK_SIZE ÷ 8
  | _ => TRANSCRIPTION_CHUNK_SIZE ÷ 4
  end.

Definition first_overlap (b : Build) : Z :=
  match b with
  | MainCpp => TRANSCRIPTION_CHUNK_SIZE ÷ 32
  | _ => TRANSCRIPTION_CHUNK_SIZE ÷ 16
  end.

Definition later_overlap (b : Build) : Z :=
  match b with
  | MainCpp => TRANSCRIPTION_CHUNK_SIZE ÷ 64
  | _ => TRANSCRIPTION_CHUNK_SIZE ÷ 32
  end.

(** Whether [processAudioChunk] appends a recognised text.  [main.cpp]
    filters inside [transcribeWithWhisper]; the other file runs the two
    checks of the filter here, on the whole text. *)
Definition keeps_text (b : Build) (transcribed_text : string) : bool :=
  if Str.empty transcribed_text then false
  else
    match b with
    | MainCpp => true
    | _ => negb (HallucinationFilter.isHallucination b transcribed_text)
    end.

(** The loop [pos = 0; while ((pos = s.find("  ", pos)) != npos)
    s.replace(pos, 2, " ");] as a recursion on the string: of two
    neighbouring spaces the first goes, and the search resumes in place. *)
Fixpoint collapse_spaces (s : string) : string :=
  match s with
  | EmptyString => EmptyString
  | String c t =>
      match t with
      | String d _ =>
          if (Ascii.eqb c " " && Ascii.eqb d " ")%bool then collapse_spaces t
          else String c (collapse_spaces t)
      | EmptyString => String c EmptyString
      end
  end.

Definition clean_text (current : string) : string :=
  Str.trim " " (collapse_spaces current).

Definition word_count (clean : string) : Z := Str.count " " clean + 1.

Section Controller.

Variable b : Build.

(** The recognition engine: its answer to a call may depend on all that
    happened before the call, and on the audio it is given. *)
Variable engine : list Event -> list Z -> Engine.Outcome b.

(** [transcribeWithWhisper(audio)], the call being logged. *)
Definition recognize (audio : list Z) (s : Session) : string * Session :=
  (Engine.transcribeWithWhisper b (engine (log s) audio),
   emit (EvRecognize audio) s).

Definition processAudioChunk (s : Session) : Session :=
  if size (audio_buffer s) >=? TRANSCRIPTION_CHUNK_SIZE then
    let chunk := front TRANSCRIPTION_CHUNK_SIZE (audio_buffer s) in
    if negb (SpeechGate.hasSubstantialSpeech chunk) then
      let overlap := skipped_overlap b in
      emit (EvChunk chunk overlap false)
        (set_audio_buffer
           (erase_front (TRANSCRIPTION_CHUNK_SIZE - overlap) (audio_buffer s)) s)
    else
      let (transcribed_text, s) := recognize chunk s in
      let s :=
        if keeps_text b transcribed_text then
          set_current_transcription
            (current_transcription s ++ (transcribed_text ++ " "))
            (set_transcription_started true s)
        else s in
      let s := set_chunk_count (chunk_count s + 1) s in
      let overlap :=
        if chunk_count s =? 1 then first_overlap b else later_overlap b in
      emit (EvChunk chunk overlap true)
        (set_audio_buffer
           (erase_front (TRANSCRIPTION_CHUNK_SIZE - overlap) (audio_buffer s)) s)
  else s.

Definition finalizeTranscription (s : Session) : Session :=
  let s :=
    if (negb (size (audio_buffer s) =? 0) && transcription_started s
        && (size (audio_buffer s) >=? 8000))%bool then
      if size (audio_buffer s) >=? TRANSCRIPTION_CHUNK_SIZE ÷ 2 then
        let (final_text, s) := recognize (audio_buffer s) s in
        if negb (Str.empty final_text) then
          set_current_transcription (current_transcription s ++ final_text) s
        else s
      else s
    else s in
  let s :=
    if transcription_started s then
      let clean := clean_text (current_transcription s) in
      emit (EvComplete clean (recorded_samples s) (word_count clean)) s
    else s in
  set_recorded_samples 0
    (set_transcription_started false
       (set_current_transcription "" (set_audio_buffer [] s))).

(** The branch [if (!is_listening)] of the loop. *)
Definition idle_step (f : Frame) (s : Session) : Session :=
  let s := set_loop_count (loop_count s + 1) s in
  if detection_result f >? 0 then
    emit EvHotword
      (mkSession [] true 0 0 "" false 0 0 0 (log s))
  else s.

(** The branch [else], in its five steps.  First the frame is appended to
    the buffer and counted: [recorded_samples += samples.size()] adds in
    [size_t] and converts the sum to [int]. *)
Definition capture (f : Frame) (s : Session) : Session :=
  emit (EvCapture (samples f))
    (set_recorded_samples (to_int (recorded_samples s + size (samples f)))
       (set_audio_buffer (audio_buffer s ++ samples f) s)).

(** [RunVad] returns -2 for silence; any other value counts as speech. *)
Definition classify (f : Frame) (s : Session) : Session :=
  if vad_result f =? -2 then
    set_silence_counter (silence_counter s + 1) s
  else
    let s := set_speech_counter (speech_counter s + 1)
               (set_silence_counter 0 s) in
    if speech_counter s >? MIN_SPEECH_LENGTH ÷ 2048 then processAudioChunk s
    else s.

(** "Buffer full": a chunk is taken whatever the classifier said. *)
Definition drain (s : Session) : Session :=
  if size (audio_buffer s) >=? TRANSCRIPTION_CHUNK_SIZE then processAudioChunk s
  else s.

(** [finalizeTranscription(); is_listening = false;] *)
Definition stop (s : Session) : Session :=
  emit EvIdle (set_is_listening false (finalizeTranscription s)).

Definition silence_check (s : Session) : Session :=
  if silence_counter s >=? SILENCE_THRESHOLD then stop s else s.

Definition cutoff_check (s : Session) : Session :=
  if size (audio_buffer s) >? MAX_LISTENING_SAMPLES then stop s else s.

(** The state in which the last test of the loop is reached. *)
Definition before_cutoff (f : Frame) (s : Session) : Session :=
  silence_check (drain (classify f (capture f s))).

Definition listening_step (f : Frame) (s : Session) : Session :=
  cutoff_check (before_cutoff f s).

(** The body of [while (true)] in [startStreaming]. *)
Definition loop_body (s : Session) (f : Frame) : Session :=
  if negb (is_listening s) then idle_step f s else listening_step f s.

(** The loop, over the frames read so far. *)
Definition run (frames : list Frame) (s : Session) : Session :=
  fold_left loop_body frames s.

End Controller.

(** ** Reading the log *)

(** The events of the current cycle, newest first: those that follow the
    last [EvHotword]. *)
Fixpoint cycle_rev (l : list Event) : list Event :=
  match l with
  | [] => []
  | EvHotword :: _ => []
  | e :: l' => e :: cycle_rev l'
  end.

(** The same events, oldest first. *)
Definition cycle (s : Session) : list Event := rev (cycle_rev (log s)).

(** A chunk taken by [processAudioChunk], as [EvChunk] reports it. *)
Record Extraction : Type := mkExtraction
  { chunk : list Z; overlap : Z; sent : bool }.

Definition captured (evs : list Event) : list Z :=
  flat_map (fun e => match e with EvCapture v => v | _ => [] end) evs.

Definition extractions (evs : list Event) : list Extraction :=
  flat_map
    (fun e => match e with
              | EvChunk c o a => [mkExtraction c o a]
              | _ => []
              end) evs.

Definition recognitions (evs : list Event) : list (list Z) :=
  flat_map (fun e => match e with EvRecognize a => [a] | _ => [] end) evs.

(** The audio captured since the hotword, and the chunks taken from it. *)
Definition stream (s : Session) : list Z := captured (cycle s).
Definition chunks (s : Session) : list Extraction := extractions (cycle s).

(** The part of a chunk that leaves the buffer, and the part that stays. *)
Definition distinct_portion (x : Extraction) : list Z :=
  front (TRANSCRIPTION_CHUNK_SIZE - overlap x) (chunk x).

Definition retained_overlap (x : Extraction) : list Z :=
  erase_front (TRANSCRIPTION_CHUNK_SIZE - overlap x) (chunk x).

(** The overlap retained from each chunk opens the next one. *)
Fixpoint overlaps_reappear (xs : list Extraction) : Prop :=
  match xs with
  | x :: (y :: _) as rest =>
      (exists more, chunk y = retained_overlap x ++ more)
      /\ overlaps_reappear rest
  | _ => True
  end.

(** The events that [s'] has and [s] has not, newest first. *)
Definition events_since (s s' : Session) : list Event :=
  firstn (List.length (log s') - List.length (log s)) (log s').

(** The test under which [finalizeTranscription] calls the engine, in the
    words of the specification. *)
Definition final_pass_due (s : Session) : bool :=
  (negb (size (audio_buffer s) =? 0) && transcription_started s
   && (TRANSCRIPTION_CHUNK_SIZE ÷ 2 <=? size (audio_buffer s)))%bool.

(** What one call of the program's functions does to the audio of the
    cycle: nothing, a frame appended at the back, a chunk taken at the
    front, the end of the cycle, or the start of a new one. *)
Inductive effect (b : Build) (s s' : Session) : Prop :=
| effect_none :
    stream s' = stream s -> chunks s' = chunks s ->
    audio_buffer s' = audio_buffer s ->
    is_listening s' = is_listening s ->
    chunk_count s' = chunk_count s ->
    effect b s s'
| effect_append (v : list Z) :
    is_listening s = true -> is_listening s' = true ->
    stream s' = stream s ++ v -> chunks s' = chunks s ->
    audio_buffer s' = audio_buffer s ++ v ->
    chunk_count s' = chunk_count s ->
    effect b s s'
| effect_skip :
    is_listening s = true -> is_listening s' = true ->
    TRANSCRIPTION_CHUNK_SIZE <= size (audio_buffer s) ->
    stream s' = stream s ->
    chunks s' =
      chunks s ++ [mkExtraction (front TRANSCRIPTION_CHUNK_SIZE (audio_buffer s))
                                (skipped_overlap b) false] ->
    audio_buffer s' =
      erase_front (TRANSCRIPTION_CHUNK_SIZE - skipped_overlap b) (audio_buffer s) ->
    chunk_count s' = chunk_count s ->
    effect b s s'
| effect_send :
    is_listening s = true -> is_listening s' = true ->
    TRANSCRIPTION_CHUNK_SIZE <= size (audio_buffer s) ->
    stream s' = stream s ->
    let ov := if chunk_count s =? 0 then first_overlap b else later_overlap b in
    chunks s' =
      chunks s ++ [mkExtraction (front TRANSCRIPTION_CHUNK_SIZE (audio_buffer s))
                                ov true] ->
    audio_buffer s' = erase_front (TRANSCRIPTION_CHUNK_SIZE - ov) (audio_buffer s) ->
    chunk_count s' = chunk_count s + 1 ->
    effect b s s'
| effect_stop :
    is_listening s' = false ->
    stream s' = stream s -> chunks s' = chunks s ->
    audio_buffer s' = [] ->
    chunk_count s' = chunk_count s ->
    effect b s s'
| effect_reset :
    is_listening s' = true ->
    stream s' = [] -> chunks s' = [] ->
    audio_buffer s' = [] ->
    chunk_count s' = 0 ->
    effect b s s'.

(** A sequence of effects. *)
Inductive effects (b : Build) : Session -> Session -> Prop :=
| effects_refl s : effects b s s
| effects_step s1 s2 s3 :
    effects b s1 s2 -> effect b s2 s3 -> effects b s1 s3.

(** What [finalizeTranscription] adds to the log, newest first: the call
    of the engine when the final pass is due, then the report when the
    cycle had started a transcription. *)
Definition final_events (b : Build)
    (engine : list Event -> list Z -> Engine.Outcome b) (s : Session)
  : list Event :=
  let called := final_pass_due s in
  let final_text :=
    Engine.transcribeWithWhisper b (engine (log s) (audio_buffer s)) in
  let current :=
    if (called && negb (Str.empty final_text))%bool
    then (current_transcription s ++ final_text)%string
    else current_transcription s in
  (if transcription_started s
   then [EvComplete (clean_text current) (recorded_samples s)
                    (word_count (clean_text current))]
   else [])
  ++ (if called then [EvRecognize (audio_buffer s)] else []).

(** The failures of one call of the engine: a non-zero [whisper_full], a
    pipe or a process that cannot be created, a non-zero exit code. *)
Definition invocation_failed (b : Build) : Engine.Outcome b -> bool :=
  match b with
  | MainCpp => fun o => negb (Engine.whisper_full_rc o =? 0)
  | StreamingWin32 => fun o =>
      match o with
      | Engine.CreatePipeFailed _ | Engine.CreateProcessFailed _ => true
      | Engine.ProcessRan _ exit_code => negb (exit_code =? 0)
      end
  | StreamingPosix => fun o =>
      match o with
      | Engine.PopenFailed => true
      | Engine.PopenRan _ exit_status => negb (exit_status =? 0)
      end
  end.

(** ** The properties kept by the loop *)

(** The chunk has the size of a chunk, and what stays of it in the buffer
    has the size of its overlap. *)
Definition well_sized (x : Extraction) : Prop :=
  size (chunk x) = TRANSCRIPTION_CHUNK_SIZE
  /\ size (retained_overlap x) = overlap x.

(** Every chunk lies in the captured audio right after the distinct
    portions of the chunks taken before it. *)
Definition placed (captured_audio : list Z) (xs : list Extraction) : Prop :=
  forall pre x post, xs = pre ++ x :: post ->
    exists later,
      captured_audio = flat_map distinct_portion pre ++ chunk x ++ later.

Fixpoint last_chunk (xs : list Extraction) : option Extraction :=
  match xs with
  | [] => None
  | x :: rest => match rest with [] => Some x | _ :: _ => last_chunk rest end
  end.

(** The buffer starts with the overlap retained from the last chunk. *)
Definition opens_with_overlap (buffer : list Z) (xs : list Extraction) : Prop :=
  match last_chunk xs with
  | Some x => exists tail, buffer = retained_overlap x ++ tail
  | None => True
  end.

Record temporal_order (s : Session) : Prop := mk_temporal_order
  { order_sized : Forall well_sized (chunks s);
    order_placed : placed (stream s) (chunks s);
    order_chain : overlaps_reappear (chunks s);
    order_rest :
      exists rest,
        flat_map distinct_portion (chunks s) ++ rest = stream s
        /\ (is_listening s = true -> rest = audio_buffer s);
    order_pending :
      is_listening s = true -> opens_with_overlap (audio_buffer s) (chunks s) }.

(** The chunks that went to recognition. *)
Definition sent_chunks (xs : list Extraction) : list Extraction :=
  filter sent xs.

(** The overlaps kept by the code: the first chunk sent keeps
    [first_overlap], the later ones [later_overlap], and a chunk that the
    gate rejects keeps [skipped_overlap]. *)
Record overlap_policy (b : Build) (s : Session) : Prop := mk_overlap_policy
  { policy_count :
      chunk_count s = Z.of_nat (List.length (sent_chunks (chunks s)));
    policy_sent :
      match sent_chunks (chunks s) with
      | [] => True
      | x :: rest =>
          overlap x = first_overlap b
          /\ Forall (fun y => overlap y = later_overlap b) rest
      end;
    policy_skipped :
      Forall (fun x => sent x = false -> overlap x = skipped_overlap b)
             (chunks s) }.

(** ** Test data *)

Definition tone (n : Z) (x : Z) : list Z := repeat x (Z.to_nat n).

Definition hotword_frame : Frame := mkFrame [] 1 0.
Definition speech_frame (v : list Z) : Frame := mkFrame v 0 0.
Definition silence_frame (v : list Z) : Frame := mkFrame v 0 (-2).

(** An engine that hears "hello" in every audio. *)
Definition hello_main : list Event -> list Z -> Engine.Outcome MainCpp :=
  fun _ _ => Engine.Build_WhisperFull 0 [" hello"].

(** Engines that fail on every call: [whisper_full] returns 1; the
    process cannot be created; [whisper-cli] cannot load its model, says
    so and exits with code 3. *)
Definition failing_main : list Event -> list Z -> Engine.Outcome MainCpp :=
  fun _ _ => Engine.Build_WhisperFull 1 [" hello"].

Definition failing_spawn : list Event -> list Z -> Engine.Outcome StreamingWin32 :=
  fun _ _ => Engine.CreateProcessFailed 2.

Definition failing_exit : list Event -> list Z -> Engine.Outcome StreamingWin32 :=
  fun _ _ =>
    Engine.ProcessRan ("error: failed to initialize whisper context" ++ String LF "") 3.

(** The answer of the engine of a build that recognises one segment, and
    what [processAudioChunk] appends to the transcript for an answer. *)
Definition timestamp : string := "[00:00:00.000 --> 00:00:03.000]   ".

Definition one_segment (b : Build) (segment : string) : Engine.Outcome b :=
  match b with
  | MainCpp => Engine.Build_WhisperFull 0 [segment]
  | StreamingWin32 =>
      Engine.ProcessRan (timestamp ++ segment ++ String LF "")%string 0
  | StreamingPosix =>
      Engine.PopenRan (timestamp ++ segment ++ String LF "")%string 0
  end.

Definition contribution (b : Build) (o : Engine.Outcome b) : string :=
  let transcribed_text := Engine.transcribeWithWhisper b o in
  if keeps_text b transcribed_text then (transcribed_text ++ " ")%string
  else "".

Definition loud_samples : list Z := [1000; -1000; 3].

(** Three seconds of a loud tone whose last samples are silent, so that the
    overlap kept from it is silent too. *)
Definition loud_then_quiet : list Z := tone 46500 1000 ++ tone 1500 0.

(** Chunks of 48000 samples at the two thresholds of the gate: mean square
    2500 and 240 active samples; one unit of energy less; one active
    sample less. *)
Definition at_thresholds : list Z :=
  tone 240 700 ++ tone 240 100 ++ tone 47520 0.

Definition below_rms : list Z :=
  tone 240 700 ++ tone 239 100 ++ [99] ++ tone 47520 0.

Definition below_activity : list Z :=
  tone 239 700 ++ [200] ++ tone 285 100 ++ tone 47475 0.

(** A chunk is sent, then the next one, which opens with the silent
    overlap of the first, is rejected. *)
Definition sent_then_rejected : list Frame :=
  [hotword_frame; speech_frame loud_then_quiet; silence_frame (tone 48000 0)].

Definition rejected_after_sent : Session :=
  run MainCpp hello_main sent_then_rejected initial.

(** A cycle that has heard one frame of speech, and a silent frame. *)
Definition after_speech : Session :=
  run MainCpp hello_main [hotword_frame; speech_frame [120; -340; 560]] initial.

Definition quiet_frame : Frame := silence_frame [0; 0; 0].



(** A cycle with one chunk of speech in the buffer, before
    [processAudioChunk], in two builds. *)
Definition chunk_ready : Session :=
  capture (speech_frame (tone 48000 1000))
    (run StreamingWin32 failing_spawn [hotword_frame] initial).

Definition chunk_ready_main : Session :=
  capture (speech_frame (tone 48000 1000))
    (run MainCpp failing_main [hotword_frame] initial).

(** A cycle that has sent a chunk and holds 31500 samples. *)
Definition tail_pending : Session :=
  capture (speech_frame (tone 30000 1000))
    (run MainCpp hello_main
       [hotword_frame; speech_frame (tone 48000 1000)] initial).

(** ** Further definitions *)

(** ** What holds of the sessions that the loop reaches *)

(** Nothing of a cycle is left in an idle session. *)
Definition idle_is_clean (s : Session) : Prop :=
  is_listening s = false ->
  audio_buffer s = [] /\ current_transcription s = EmptyString
  /\ transcription_started s = false /\ recorded_samples s = 0.

(** The counters stay in range: a cycle ends when [silence_counter]
    reaches [SILENCE_THRESHOLD]. *)
Definition counters_in_range (s : Session) : Prop :=
  0 <= silence_counter s <= SILENCE_THRESHOLD
  /\ (is_listening s = true -> silence_counter s < SILENCE_THRESHOLD)
  /\ 0 <= speech_counter s /\ 0 <= chunk_count s.

Fixpoint ends_with_space (s : string) : bool :=
  match s with
  | EmptyString => false
  | String c EmptyString => Ascii.eqb c " "
  | String _ t => ends_with_space t
  end.

(** The transcript is not empty exactly when a transcription has started,
    and then it ends with the space that follows each recognised text. *)
Definition transcript_started (s : Session) : Prop :=
  (transcription_started s = true <-> current_transcription s <> EmptyString)
  /\ (current_transcription s = EmptyString
      \/ ends_with_space (current_transcription s) = true).

(** A silent frame on which the detector does not fire, and a frame that
    holds no more samples than a rejected chunk gives up. *)
Definition silent (f : Frame) : Prop :=
  vad_result f = -2 /\ detection_result f <= 0.

Definition short_frame (b : Build) (f : Frame) : Prop :=
  size (samples f) <= TRANSCRIPTION_CHUNK_SIZE - skipped_overlap b.

(** What [processAudioChunk] adds to the log, newest first: nothing while
    the buffer is short of a chunk; else the chunk, after the call of the
    engine when the gate lets the chunk through. *)
Definition chunk_events (b : Build) (s : Session) : list Event :=
  if TRANSCRIPTION_CHUNK_SIZE <=? size (audio_buffer s) then
    let chunk := front TRANSCRIPTION_CHUNK_SIZE (audio_buffer s) in
    if SpeechGate.hasSubstantialSpeech chunk then
      [EvChunk chunk
         (if chunk_count s =? 0 then first_overlap b else later_overlap b) true;
       EvRecognize chunk]
    else [EvChunk chunk (skipped_overlap b) false]
  else [].

(** Every audio that the engine was given holds half a chunk at least. *)
Definition calls_are_long (l : list Event) : Prop :=
  Forall (fun audio => TRANSCRIPTION_CHUNK_SIZE ÷ 2 <= size audio)
         (recognitions l).

(** Four seconds of frames of 2048 samples of a loud tone, after the
    hotword. *)
Definition steady_speech : list Frame :=
  hotword_frame :: repeat (speech_frame (tone 2048 1000)) 32.

(** A cycle of three frames of speech that thirty silent frames end. *)
Definition short_cycle : list Frame :=
  [hotword_frame; speech_frame [120; -340; 560]; speech_frame [90; 15; -7]]
  ++ repeat quiet_frame 30.

(** ** Reading strings *)

(** Whether all bytes of [s] are in [set]. *)
Fixpoint all_of (set s : string) : bool :=
  match s with
  | EmptyString => true
  | String c s' => Str.mem c set && all_of set s'
  end.

Definition head_byte (s : string) : option ascii :=
  match s with
  | EmptyString => None
  | String c _ => Some c
  end.

Fixpoint last_byte (s : string) : option ascii :=
  match s with
  | EmptyString => None
  | String c EmptyString => Some c
  | String _ s' => last_byte s'
  end.

(** Neither the first nor the last byte of [s] is in [set]. *)
Definition ends_outside (set s : string) : Prop :=
  (forall c, head_byte s = Some c -> Str.mem c set = false)
  /\ (forall c, last_byte s = Some c -> Str.mem c set = false).

Definition is_space (c : ascii) : bool := Ascii.eqb c " ".

(** The segments that [transcribeWithWhisper] of [main.cpp] keeps: trimmed,
    not empty, and let through by the filter. *)
Definition kept_segment (segment_text : string) : bool :=
  negb (Str.empty segment_text)
  && negb (HallucinationFilter.isHallucination MainCpp segment_text).

Definition kept_segments (o : Engine.WhisperFull) : list string :=
  filter kept_segment
         (map (Str.trim WHITESPACE) (Engine.segment_texts o)).

(** Whether two neighbouring bytes of [s] are spaces. *)
Fixpoint double_space (s : string) : bool :=
  match s with
  | EmptyString => false
  | String c t =>
      match t with
      | EmptyString => false
      | String d _ => (Ascii.eqb c " " && Ascii.eqb d " ") || double_space t
      end
  end.

(** An answer of three segments: one is blank, one is a phrase of the
    filter. *)
Definition three_segments : Engine.WhisperFull :=
  Engine.Build_WhisperFull 0 [" turn on the light"; "   "; " Thank you."].

(** The transcripts that [finalizeTranscription] printed, newest first,
    each with its count of words. *)
Definition completions (evs : list Event) : list (string * Z) :=
  flat_map (fun e => match e with
                     | EvComplete clean _ words => [(clean, words)]
                     | _ => []
                     end) evs.

(** A printed transcript as it should be: not empty, no space at either
    end, no two spaces in a row, and counted by [word_count]. *)
Definition well_formed_completion (c : string * Z) : Prop :=
  fst c <> EmptyString
  /\ ends_outside " " (fst c)
  /\ Str.contains "  " (fst c) = false
  /\ snd c = word_count (fst c).

(** Once a transcription has started, the transcript holds a byte that is
    no space. *)
Definition transcript_has_words (s : Session) : Prop :=
  transcription_started s = true ->
  Str.remove_if is_space (current_transcription s) <> EmptyString.

(** An engine that hears "hello" in a chunk, and "Thanks for watching" in
    any other audio, which is the remainder of the final pass; and a cycle
    of one chunk of speech, 30000 more samples and thirty silent frames,
    which ends with 33000 samples of speech and more pending. *)
Definition closing_engine (b : Build)
  : list Event -> list Z -> Engine.Outcome b :=
  fun _ audio =>
    if size audio =? TRANSCRIPTION_CHUNK_SIZE
    then one_segment b "hello"
    else one_segment b "Thanks for watching".

Definition closing_cycle : list Frame :=
  [hotword_frame; speech_frame (tone 48000 1000);
   speech_frame (tone 30000 1000)] ++ repeat quiet_frame 30.

(** ** Reading the pipe block by block ([_WIN32]) *)

(** The inner loop [while (true)] over [carry]: each line that a line
    feed ends goes to [handle_line], what follows the last line feed is
    kept.  [line] holds the bytes read since [pos]. *)
Fixpoint take_lines (result line carry : string) : string * string :=
  match carry with
  | EmptyString => (result, line)
  | String c rest =>
      if Ascii.eqb c LF
      then take_lines (Engine.handle_line StreamingWin32 result line)
                      EmptyString rest
      else take_lines result (line ++ String c EmptyString) rest
  end.

(** One turn of [for (;;)] after a successful [ReadFile]:
    [buf[bytesRead] = '\0'; carry.append(buf);] appends the bytes of the
    block that come before its first NUL, then the inner loop runs. *)
Definition read_block (st : string * string) (block : string)
  : string * string :=
  let (result, carry) := st in
  take_lines result EmptyString (carry ++ Str.c_str block).

(** The loop over the blocks that [ReadFile] returns; it ends with the
    first empty block, or when [ReadFile] fails (the end of the list). *)
Fixpoint read_loop (blocks : list string) (st : string * string)
  : string * string :=
  match blocks with
  | [] => st
  | block :: more =>
      if Str.empty block then st else read_loop more (read_block st block)
  end.

(** The text returned when the child ran: the loop, the trailing partial
    line, the final trim. *)
Definition transcribe_blocks (blocks : list string) : string :=
  let (result, carry) := read_loop blocks (EmptyString, EmptyString) in
  let result :=
    if Str.empty carry then result
    else Engine.handle_line StreamingWin32 result carry in
  Engine.final_trim result.

(** The blocks that the loop reads: those before the first empty one. *)
Fixpoint blocks_read (blocks : list string) : list string :=
  match blocks with
  | [] => []
  | block :: more =>
      if Str.empty block then [] else block :: blocks_read more
  end.

(** What the child wrote, as the loop sees it. *)
Definition output_of (blocks : list string) : string :=
  String.concat EmptyString (map Str.c_str (blocks_read blocks)).

(** The lines of an output as [take_lines] leaves them: the complete lines
    handled, the last piece kept. *)
Definition prepend (line : string) (pieces : list string) : list string :=
  match pieces with
  | l :: r => (line ++ l)%string :: r
  | [] => [line]
  end.

Definition lines_fold (result : string) (pieces : list string)
  : string * string :=
  (fold_left (Engine.handle_line StreamingWin32) (removelast pieces) result,
   last pieces EmptyString).

(** ** [convertToFloat] ([main.cpp]) *)

(** [static_cast<float>(sample) / 32768.0f]: a [short] and its quotient by
    a power of two are exact in binary32, so the value is the rational. *)
Definition convertToFloat (audio_data : list Z) : list Q :=
  map (fun sample => sample # 32768) audio_data.

(** The values of a [short]. *)
Definition is_short (sample : Z) : Prop := -32768 <= sample <= 32767.

(** ** [saveWavFile] ([whisper_streaming_transcriber.cpp]) *)

(** The bytes of an integer in memory, lowest first, as on the x86 and
    ARM targets of the program; a negative [short] in two's complement. *)
Fixpoint le_bytes (width : nat) (x : Z) : list Z :=
  match width with
  | O => []
  | S w => x mod 256 :: le_bytes w (x / 256)
  end.

Definition chars (s : string) : list Z :=
  map (fun c => Z.of_nat (nat_of_ascii c)) (list_ascii_of_string s).

Record WavHeader : Type := mkWavHeader
  { riff : string; file_size : Z; wave : string; fmt : string;
    fmt_size : Z; audio_format : Z; num_channels : Z; sample_rate : Z;
    byte_rate : Z; block_align : Z; bits_per_sample : Z;
    data : string; data_size : Z }.

(** Conversion to [uint32_t]. *)
Definition uint32 (x : Z) : Z := x mod 2 ^ 32.

(** [header.data_size = audio_data.size() * sizeof(short);
    header.file_size = header.data_size + 44 - 8;] *)
Definition wav_header (audio_data : list Z) : WavHeader :=
  let data_size := uint32 (size audio_data * 2) in
  mkWavHeader "RIFF" (uint32 (data_size + 44 - 8)) "WAVE" "fmt "
              16 1 1 16000 32000 2 16 "data" data_size.

(** [fwrite(&header, sizeof(header), 1, f)]: the fields in order; each is
    aligned as it stands, so the struct has no padding and 44 bytes. *)
Definition header_bytes (h : WavHeader) : list Z :=
  chars (riff h) ++ le_bytes 4 (file_size h) ++ chars (wave h)
  ++ chars (fmt h) ++ le_bytes 4 (fmt_size h) ++ le_bytes 2 (audio_format h)
  ++ le_bytes 2 (num_channels h) ++ le_bytes 4 (sample_rate h)
  ++ le_bytes 4 (byte_rate h) ++ le_bytes 2 (block_align h)
  ++ le_bytes 2 (bits_per_sample h) ++ chars (data h)
  ++ le_bytes 4 (data_size h).

(** The bytes written to the file; [None] when [fopen] fails and nothing
    is written. *)
Definition saveWavFile (opened : bool) (audio_data : list Z)
  : option (list Z) :=
  if opened then
    Some (header_bytes (wav_header audio_data)
          ++ flat_map (le_bytes 2) audio_data)
  else None.

(** Reading a file back: an unsigned field, and the samples. *)
Fixpoint le_value (bytes : list Z) : Z :=
  match bytes with
  | [] => 0
  | b :: more => b + 256 * le_value more
  end.

Definition field (offset width : nat) (bytes : list Z) : Z :=
  le_value (firstn width (skipn offset bytes)).

Definition to_short (x : Z) : Z := if x <? 32768 then x else x - 65536.

Fixpoint read_samples (bytes : list Z) : list Z :=
  match bytes with
  | lo :: hi :: more => to_short (le_value [lo; hi]) :: read_samples more
  | _ => []
  end.

(** ** The name of the hotword (constructor, both files) *)

(** [s.find_last_of(set)]: the index of the last byte of [s] that is in
    [set]; [None] stands for [npos]. *)
Fixpoint find_last_of (set s : string) : option nat :=
  match s with
  | EmptyString => None
  | String c s' =>
      match find_last_of set s' with
      | Some i => Some (S i)
      | None => if Str.mem c set then Some O else None
      end
  end.

(** Arithmetic on [size_t], of 64 bits. *)
Definition size_t (x : Z) : Z := x mod 2 ^ 64.

(** [s.substr(pos, count)]: [None] stands for [std::out_of_range], thrown
    when [pos > s.size()]; otherwise [count] is cut to what is left. *)
Definition substr (pos : nat) (count : Z) (s : string) : option string :=
  if (String.length s <? pos)%nat then None
  else
    let left := Z.of_nat (String.length s) - Z.of_nat pos in
    Some (substring pos (Z.to_nat (Z.min count left)) s).

(** [std::replace(s.begin(), s.end(), old, new)]. *)
Definition replace (old new : ascii) (s : string) : string :=
  Str.transform (fun c => if Ascii.eqb c old then new else c) s.

(** The two directory separators, ["/\\"] in C++. *)
Definition SEPARATORS : string := String "/" (String "\" EmptyString).

(** The chain of tests on [model]; [None] when an exception leaves it. *)
Definition hotword_name (model : string) : option string :=
  if Str.contains "computer.umdl" model then Some "computer"
  else if Str.contains "jarvis.umdl" model then Some "jarvis"
  else if Str.contains "hey_extreme.umdl" model then Some "hey extreme"
  else if Str.contains "alexa.umdl" model then Some "alexa"
  else if Str.contains "hey_casper.pmdl" model then Some "hey casper"
  else if Str.contains ".pmdl" model then
    match find_last_of SEPARATORS model, find_last_of "." model with
    | Some lastSlash, Some lastDot =>
        match substr (lastSlash + 1)
                     (size_t (Z.of_nat lastDot - Z.of_nat lastSlash - 1))
                     model with
        | Some name => Some (replace "_" " " name)
        | None => None
        end
    | _, _ => Some "unknown"
    end
  else Some "unknown".

(** The models that the chain names itself. *)
Definition named_models : list string :=
  ["computer.umdl"; "jarvis.umdl"; "hey_extreme.umdl"; "alexa.umdl";
   "hey_casper.pmdl"].

Definition custom_model (model : string) : bool :=
  forallb (fun known => negb (Str.contains known model)) named_models.

(** Whether no byte of [s] is in [set]. *)
Fixpoint none_of (set s : string) : bool :=
  match s with
  | EmptyString => true
  | String c s' => negb (Str.mem c set) && none_of set s'
  end.

(** ** The command line ([main], both files) *)

Record Options : Type := mkOptions
  { model_path : string; lang : string; ngl : Z; quiet : bool;
    show_help : bool }.

(** The values before the loop over [argv]; the file without [--help]
    has no [show_help], which stays [false] here. *)
Definition default_options : Options := mkOptions "" "auto" 0 false false.

Definition INT_MIN : Z := -2147483648.
Definition INT_MAX : Z := 2147483647.

(** The bytes that [isspace] accepts in the "C" locale. *)
Definition SPACES : string :=
  String " " (String HT (String LF (String (ascii_of_nat 11)
    (String (ascii_of_nat 12) (String CR EmptyString))))).

Definition digit (c : ascii) : option Z :=
  let n := nat_of_ascii c in
  if ((48 <=? n) && (n <=? 57))%nat then Some (Z.of_nat n - 48) else None.

(** The value of the longest prefix of digits, from the value [acc] of
    the digits read before; [None] when no digit was read. *)
Fixpoint digits (acc : option Z) (s : string) : option Z :=
  match s with
  | EmptyString => acc
  | String c s' =>
      match digit c with
      | Some d =>
          digits (Some (10 * match acc with Some a => a | None => 0 end + d)) s'
      | None => acc
      end
  end.

(** [std::stoi(s)]: blanks, a sign, decimal digits, and anything after
    them.  [None] stands for the exceptions [std::invalid_argument] (no
    digit) and [std::out_of_range] (no [int]). *)
Definition stoi (s : string) : option Z :=
  let s := Str.drop_leading SPACES s in
  let (negative, s) :=
    match s with
    | String "-" t => (true, t)
    | String "+" t => (false, t)
    | _ => (false, s)
    end in
  match digits None s with
  | None => None
  | Some v =>
      let v := if negative then - v else v in
      if (INT_MIN <=? v) && (v <=? INT_MAX) then Some v else None
  end.

(** [arg.substr(n)] for [n <= arg.size()]. *)
Definition suffix (n : nat) (arg : string) : string :=
  substring n (String.length arg - n) arg.

(** One turn of the loop over the arguments.  Only [main.cpp] knows
    [--help] and [-h]. *)
Definition parse_arg (b : Build) (o : Options) (arg : string) : Options :=
  if match b with
     | MainCpp => String.eqb arg "--help" || String.eqb arg "-h"
     | _ => false
     end
  then mkOptions (model_path o) (lang o) (ngl o) (quiet o) true
  else if Str.starts_with "--lang=" arg
  then mkOptions (model_path o) (suffix 7 arg) (ngl o) (quiet o) (show_help o)
  else if String.eqb arg "--gpu"
  then mkOptions (model_path o) (lang o) 35 (quiet o) (show_help o)
  else if Str.starts_with "--ngl=" arg
  then match stoi (suffix 6 arg) with
       | Some n => mkOptions (model_path o) (lang o) n (quiet o) (show_help o)
       | None => o
       end
  else if Str.starts_with "--model=" arg
  then mkOptions (suffix 8 arg) (lang o) (ngl o) (quiet o) (show_help o)
  else if String.eqb arg "--quiet" || String.eqb arg "-q"
  then mkOptions (model_path o) (lang o) (ngl o) true (show_help o)
  else if Str.empty (model_path o)
  then mkOptions arg (lang o) (ngl o) (quiet o) (show_help o)
  else o.

(** The loop, over [argv[1]] to [argv[argc - 1]]. *)
Definition parse_args (b : Build) (args : list string) : Options :=
  fold_left (parse_arg b) args default_options.

(** What [main] does next: it prints the usage and returns, or builds
    the transcriber and starts it. *)
Inductive Action : Type :=
| PrintUsage
| StartStreaming (model_path lang : string) (ngl : Z) (quiet : bool).

Definition main_action (b : Build) (args : list string) : Action :=
  let o := parse_args b args in
  if show_help o then PrintUsage
  else StartStreaming (model_path o) (lang o) (ngl o) (quiet o).

(** The number that a decimal numeral writes, after the digits of value
    [acc]. *)
Fixpoint uint_value (d : Decimal.uint) (acc : Z) : Z :=
  match d with
  | Decimal.Nil => acc
  | Decimal.D0 l => uint_value l (10 * acc)
  | Decimal.D1 l => uint_value l (10 * acc + 1)
  | Decimal.D2 l => uint_value l (10 * acc + 2)
  | Decimal.D3 l => uint_value l (10 * acc + 3)
  | Decimal.D4 l => uint_value l (10 * acc + 4)
  | Decimal.D5 l => uint_value l (10 * acc + 5)
  | Decimal.D6 l => uint_value l (10 * acc + 6)
  | Decimal.D7 l => uint_value l (10 * acc + 7)
  | Decimal.D8 l => uint_value l (10 * acc + 8)
  | Decimal.D9 l => uint_value l (10 * acc + 9)
  end.

(** ** Proof steps *)

(** Reading a field of a session that was written by the setters. *)
Ltac state_simpl :=
  cbn [log emit set_audio_buffer set_is_listening set_silence_counter
       set_speech_counter set_current_transcription set_transcription_started
       set_chunk_count set_recorded_samples set_loop_count
       audio_buffer is_listening silence_counter speech_counter
       current_transcription transcription_started chunk_count
       recorded_samples loop_count hd_error fst snd].

(** Reading the audio and the chunks of the cycle off a log that was
    extended by [emit]. *)
Ltac log_simpl :=
  unfold stream, chunks, cycle, captured, extractions;
  state_simpl;
  cbn [cycle_rev rev];
  rewrite ?flat_map_app;
  cbn [flat_map app];
  rewrite ?app_nil_r.

(** * Facts about the embedding *)

(** ** The speech gate *)

Module GateFacts.
Import SpeechGate.

Lemma fold_sum_squares_shift (l : list Z) (a : Z) :
  fold_left (fun acc sample => acc + sample * sample) l a
  = a + sum_squares l.
Proof.
  unfold sum_squares. revert a.
  induction l as [|x l IH]; intros a; cbn [fold_left].
  - lia.
  - rewrite IH, (IH (0 + x * x)). lia.
Qed.

Lemma sum_squares_cons (x : Z) (l : list Z) :
  sum_squares (x :: l) = x * x + sum_squares l.
Proof.
  unfold sum_squares at 1. cbn [fold_left].
  rewrite fold_sum_squares_shift. lia.
Qed.

Lemma sum_squares_nonneg (l : list Z) : 0 <= sum_squares l.
Proof.
  induction l as [|x l IH].
  - reflexivity.
  - rewrite sum_squares_cons. nia.
Qed.

Lemma sum_squares_silence (n : nat) : sum_squares (repeat 0 n) = 0.
Proof.
  induction n as [|n IH]; [reflexivity|].
  cbn [repeat]. rewrite sum_squares_cons, IH. reflexivity.
Qed.

Lemma size_cons_pos (x : Z) (l : list Z) :
  exists p, size (x :: l) = Zpos p.
Proof.
  unfold size. cbn [List.length].
  exists (Pos.of_succ_nat (List.length l)).
  now rewrite Zpos_P_of_succ_nat, Nat2Z.inj_succ.
Qed.

Lemma Qleb_frac (n : Z) (d : positive) (a : Z) (p : positive) :
  Qle_bool (n # d) (a # p) = (n * Zpos p <=? a * Zpos d).
Proof. reflexivity. Qed.

(** The decision of the gate on integers, the quotients cleared. *)
Lemma gate_decision (audio_chunk : list Z) :
  audio_chunk <> [] ->
  hasSubstantialSpeech audio_chunk = true <->
  2500 * size audio_chunk <= sum_squares audio_chunk
  /\ size audio_chunk <= 200 * speech_samples audio_chunk.
Proof.
  destruct audio_chunk as [|x l]; [congruence|]. intros _.
  destruct (size_cons_pos x l) as [p Hp].
  unfold hasSubstantialSpeech, hasSubstantialSpeech_body,
    mean_square, speech_ratio, fdiv.
  rewrite Hp.
  generalize (sum_squares (x :: l)) (speech_samples (x :: l)).
  intros S k.
  unfold sqrt_lt, Qltb, MIN_RMS_THRESHOLD, MIN_SPEECH_RATIO.
  change (50 * 50)%Q with (2500 # 1).
  rewrite !Qleb_frac.
  destruct (Z.leb_spec (2500 * Z.pos p) (S * 1));
    destruct (Z.leb_spec (5 * Z.pos p) (k * 1000));
    cbn [negb]; split; try discriminate; try reflexivity; lia.
Qed.

Lemma fold_speech_samples_shift (l : list Z) (a : Z) :
  fold_left
    (fun n sample => if Z.abs sample >? SPEECH_THRESHOLD then n + 1 else n)
    l a
  = a + speech_samples l.
Proof.
  unfold speech_samples. revert a.
  induction l as [|x l IH]; intros a; cbn [fold_left].
  - lia.
  - rewrite IH.
    rewrite (IH (if Z.abs x >? SPEECH_THRESHOLD then 0 + 1 else 0)).
    destruct (Z.abs x >? SPEECH_THRESHOLD); lia.
Qed.

Lemma speech_samples_cons (x : Z) (l : list Z) :
  speech_samples (x :: l)
  = (if Z.abs x >? SPEECH_THRESHOLD then 1 else 0) + speech_samples l.
Proof.
  unfold speech_samples at 1. cbn [fold_left].
  rewrite fold_speech_samples_shift.
  destruct (Z.abs x >? SPEECH_THRESHOLD); lia.
Qed.

(** The two quantities of the specification are those that the loops of
    the function accumulate. *)
Lemma sum_of_squares_code (audio_chunk : list Z) :
  sum_of_squares audio_chunk = IZR (sum_squares audio_chunk).
Proof.
  induction audio_chunk as [|x l IH]; [reflexivity|].
  cbn [sum_of_squares]. rewrite sum_squares_cons, plus_IZR, mult_IZR, IH.
  reflexivity.
Qed.

Lemma active_count_code (audio_chunk : list Z) :
  Z.of_nat (List.length (filter active audio_chunk))
  = speech_samples audio_chunk.
Proof.
  induction audio_chunk as [|x l IH]; [reflexivity|].
  cbn [filter]. rewrite speech_samples_cons, <- IH.
  unfold active, SPEECH_THRESHOLD. rewrite Z.gtb_ltb.
  destruct (200 <? Z.abs x); cbn [List.length]; lia.
Qed.

Lemma rms_code (audio_chunk : list Z) :
  rms audio_chunk
  = sqrt (IZR (sum_squares audio_chunk) / IZR (size audio_chunk)).
Proof.
  unfold rms, size. now rewrite sum_of_squares_code, INR_IZR_INZ.
Qed.

Lemma activity_ratio_code (audio_chunk : list Z) :
  activity_ratio audio_chunk
  = (IZR (speech_samples audio_chunk) / IZR (size audio_chunk))%R.
Proof.
  unfold activity_ratio, size.
  now rewrite !INR_IZR_INZ, active_count_code.
Qed.

Lemma IZR_size_pos (audio_chunk : list Z) :
  audio_chunk <> [] -> (0 < IZR (size audio_chunk))%R.
Proof.
  destruct audio_chunk as [|x l]; [congruence|]. intros _.
  destruct (size_cons_pos x l) as [p ->]. apply IZR_lt. lia.
Qed.

Lemma rms_threshold (audio_chunk : list Z) :
  audio_chunk <> [] ->
  (50 <= rms audio_chunk)%R <->
  2500 * size audio_chunk <= sum_squares audio_chunk.
Proof.
  intros Hne. pose proof (IZR_size_pos _ Hne) as Hn.
  pose proof (sum_squares_nonneg audio_chunk) as HS.
  apply IZR_le in HS.
  rewrite rms_code.
  set (q := (IZR (sum_squares audio_chunk) / IZR (size audio_chunk))%R).
  assert (0 <= q)%R as Hq.
  { unfold q. apply Rmult_le_pos; [exact HS|].
    left. now apply Rinv_0_lt_compat. }
  assert (sqrt 2500 = 50)%R as H50.
  { replace 2500%R with (50 * 50)%R by lra. apply sqrt_square. lra. }
  assert ((50 <= sqrt q)%R <-> (2500 <= q)%R) as Hs.
  { rewrite <- H50. split; intros H.
    - apply sqrt_le_0; lra.
    - apply sqrt_le_1; lra. }
  rewrite Hs. unfold q.
  split; intros H.
  - apply le_IZR. rewrite mult_IZR.
    apply (Rmult_le_compat_r _ _ _ (Rlt_le _ _ Hn)) in H.
    unfold Rdiv in H. rewrite Rmult_assoc, Rinv_l, Rmult_1_r in H by lra.
    exact H.
  - apply IZR_le in H. rewrite mult_IZR in H.
    apply (Rmult_le_reg_r _ _ _ Hn).
    unfold Rdiv. rewrite Rmult_assoc, Rinv_l, Rmult_1_r by lra. exact H.
Qed.

Lemma activity_threshold (audio_chunk : list Z) :
  audio_chunk <> [] ->
  (5 / 1000 <= activity_ratio audio_chunk)%R <->
  size audio_chunk <= 200 * speech_samples audio_chunk.
Proof.
  intros Hne. pose proof (IZR_size_pos _ Hne) as Hn.
  rewrite activity_ratio_code.
  split; intros H.
  - apply le_IZR. rewrite mult_IZR.
    apply (Rmult_le_compat_r _ _ _ (Rlt_le _ _ Hn)) in H.
    unfold Rdiv in H at 2. rewrite Rmult_assoc, Rinv_l, Rmult_1_r in H by lra.
    lra.
  - apply IZR_le in H. rewrite mult_IZR in H.
    apply (Rmult_le_reg_r _ _ _ Hn).
    unfold Rdiv at 2. rewrite Rmult_assoc, Rinv_l, Rmult_1_r by lra. lra.
Qed.

Lemma silence_rejected (n : nat) : hasSubstantialSpeech (repeat 0 n) = false.
Proof.
  destruct n as [|n]; [reflexivity|].
  destruct (hasSubstantialSpeech (repeat 0 (S n))) eqn:E; [|reflexivity].
  apply gate_decision in E; [|cbn; congruence].
  rewrite sum_squares_silence in E.
  destruct (size_cons_pos 0 (repeat 0 n)) as [p Hp].
  cbn [repeat] in E. rewrite Hp in E. lia.
Qed.

Lemma body_total (audio_chunk : list Z) :
  hasSubstantialSpeech_body audio_chunk <> None.
Proof.
  destruct audio_chunk as [|x l]; [discriminate|].
  destruct (size_cons_pos x l) as [p Hp].
  unfold hasSubstantialSpeech_body, mean_square, speech_ratio, fdiv.
  rewrite Hp.
  destruct (sqrt_lt _ _); [discriminate|].
  destruct (Qltb _ _); discriminate.
Qed.

End GateFacts.

(** ** The filter *)

Module FilterFacts.
Import HallucinationFilter.

Lemma substring_at_end_of_prefix (pre p post : string) :
  substring (String.length pre) (String.length p) (pre ++ p ++ post)%string = p.
Proof.
  induction pre as [|c pre IH]; cbn [String.length String.append substring].
  - induction p as [|d p IHp]; cbn [String.length String.append substring].
    + now destruct post.
    + now rewrite IHp.
  - exact IH.
Qed.

Lemma contains_occurrence (p pre post : string) :
  p <> EmptyString ->
  Str.contains p (pre ++ p ++ post)%string = true.
Proof.
  intros Hp. unfold Str.contains, Str.find, Str.find_from.
  destruct (index 0 p (pre ++ p ++ post)%string) eqn:E; [reflexivity|].
  exfalso.
  apply (index_correct3 0 (String.length pre) p _ E Hp (Nat.le_0_l _)).
  apply substring_at_end_of_prefix.
Qed.

Lemma hallucinations_nonempty (b : Build) (p : string) :
  In p (hallucinations b) -> p <> EmptyString.
Proof.
  intros H.
  assert (forallb (fun q => negb (Str.empty q)) (hallucinations b) = true) as F
      by (destruct b; reflexivity).
  rewrite forallb_forall in F. specialize (F p H).
  destruct p; [discriminate | congruence].
Qed.

Lemma substring_check_hit (b : Build) (p lower_text : string) :
  In p (hallucinations b) -> Str.contains p lower_text = true ->
  substring_check b lower_text = true.
Proof.
  intros Hin Hc. unfold substring_check.
  apply existsb_exists. now exists p.
Qed.

Lemma tolower_idempotent (c : ascii) :
  Str.tolower (Str.tolower c) = Str.tolower c.
Proof. destruct c as [[] [] [] [] [] [] [] []]; reflexivity. Qed.

Lemma lower_idempotent (text : string) : lower (lower text) = lower text.
Proof.
  unfold lower. induction text as [|c t IH]; cbn [Str.transform].
  - reflexivity.
  - now rewrite tolower_idempotent, IH.
Qed.

Lemma isHallucination_lower (b : Build) (text : string) :
  isHallucination b (lower text) = isHallucination b text.
Proof. unfold isHallucination. now rewrite lower_idempotent. Qed.

End FilterFacts.

(** ** Buffers *)

Module BufferFacts.

Lemma size_app (u v : list Z) : size (u ++ v) = size u + size v.
Proof. unfold size. rewrite length_app. lia. Qed.


Lemma front_erase (n : Z) (v : list Z) : front n v ++ erase_front n v = v.
Proof. apply firstn_skipn. Qed.

Lemma size_front (n : Z) (v : list Z) :
  0 <= n <= size v -> size (front n v) = n.
Proof.
  unfold size, front. intros H. rewrite firstn_length_le; lia.
Qed.

Lemma size_erase_front (n : Z) (v : list Z) :
  0 <= n <= size v -> size (erase_front n v) = size v - n.
Proof.
  unfold size, erase_front. intros H. rewrite length_skipn. lia.
Qed.

Lemma size_erase_front_le (n : Z) (v : list Z) :
  size (erase_front n v) <= size v.
Proof. unfold size, erase_front. rewrite length_skipn. lia. Qed.

Lemma front_front (m n : Z) (v : list Z) :
  0 <= m <= n -> front m (front n v) = front m v.
Proof.
  unfold front. intros H. rewrite firstn_firstn.
  f_equal. lia.
Qed.

(** Erasing inside the front chunk leaves the rest of the chunk, then
    what follows the chunk. *)
Lemma erase_front_chunk (m n : Z) (v : list Z) :
  0 <= m <= n -> n <= size v ->
  erase_front m v = erase_front m (front n v) ++ erase_front n v.
Proof.
  intros Hm Hn.
  rewrite <- (front_erase n v) at 1.
  unfold erase_front at 1. rewrite skipn_app.
  fold (erase_front m (front n v)).
  replace (Z.to_nat m - List.length (front n v))%nat with 0%nat.
  - reflexivity.
  - pose proof (size_front n v) as S. unfold size in *. lia.
Qed.

Lemma front_of_app (n : Z) (u v : list Z) :
  size u <= n -> exists more, front n (u ++ v) = u ++ more.
Proof.
  unfold size, front. intros H.
  rewrite firstn_app, firstn_all2 by lia. eauto.
Qed.

End BufferFacts.

Module OrderFacts.
Import BufferFacts.

Lemma last_chunk_snoc (xs : list Extraction) (y : Extraction) :
  last_chunk (xs ++ [y]) = Some y.
Proof.
  induction xs as [|x xs IH]; [reflexivity|].
  cbn [app last_chunk]. rewrite IH.
  destruct (xs ++ [y]) eqn:E; [|reflexivity].
  now destruct xs.
Qed.

Lemma overlaps_reappear_snoc (xs : list Extraction) (y : Extraction) :
  overlaps_reappear xs ->
  match last_chunk xs with
  | Some x => exists more, chunk y = retained_overlap x ++ more
  | None => True
  end ->
  overlaps_reappear (xs ++ [y]).
Proof.
  induction xs as [|x xs IH]; intros Hc Hl; [exact I|].
  destruct xs as [|x' xs].
  - cbn in Hl |- *. auto.
  - destruct Hc as [Hxx' Hc].
    change ((x :: x' :: xs) ++ [y]) with (x :: x' :: (xs ++ [y])).
    split; [exact Hxx'|].
    apply IH; assumption.
Qed.

Lemma placed_later (st v : list Z) (xs : list Extraction) :
  placed st xs -> placed (st ++ v) xs.
Proof.
  intros P pre x post E. destruct (P pre x post E) as [later ->].
  exists (later ++ v). now rewrite <- !app_assoc.
Qed.

Lemma placed_snoc (st rest : list Z) (xs : list Extraction) (y : Extraction) :
  placed st xs ->
  st = flat_map distinct_portion xs ++ chunk y ++ rest ->
  placed st (xs ++ [y]).
Proof.
  intros P Hst pre x post E.
  destruct (exists_last (l := x :: post)) as [init [z Ez]]; [discriminate|].
  destruct init as [|x0 post'].
  - (* the chunk is the new one *)
    cbn in Ez. injection Ez as -> ->.
    apply app_inj_tail in E as [-> ->]. eauto.
  - cbn in Ez. injection Ez as <- ->.
    change (pre ++ x :: post' ++ [z]) with (pre ++ (x :: post') ++ [z]) in E.
    rewrite app_assoc in E. apply app_inj_tail in E as [-> _].
    now apply (P pre x post').
Qed.

Lemma overlap_bounds (b : Build) :
  0 <= later_overlap b <= first_overlap b
  /\ first_overlap b < skipped_overlap b
  /\ skipped_overlap b < TRANSCRIPTION_CHUNK_SIZE.
Proof. destruct b; repeat split; vm_compute; easy. Qed.

Lemma take_chunk_order (s s' : Session) (ov : Z) (snt : bool) :
  temporal_order s ->
  is_listening s = true ->
  TRANSCRIPTION_CHUNK_SIZE <= size (audio_buffer s) ->
  0 <= ov <= TRANSCRIPTION_CHUNK_SIZE ->
  stream s' = stream s ->
  chunks s' =
    chunks s ++ [mkExtraction (front TRANSCRIPTION_CHUNK_SIZE (audio_buffer s))
                              ov snt] ->
  audio_buffer s' = erase_front (TRANSCRIPTION_CHUNK_SIZE - ov) (audio_buffer s) ->
  temporal_order s'.
Proof.
  intros [Hsz Hpl Hch [rest [Hrest Hbuf]] Hpend] L G Hov Est Ech Ebuf.
  specialize (Hbuf L). subst rest. specialize (Hpend L).
  set (buf := audio_buffer s) in *.
  set (y := mkExtraction (front TRANSCRIPTION_CHUNK_SIZE buf) ov snt) in *.
  assert (0 <= TRANSCRIPTION_CHUNK_SIZE) as HC by (cbv; discriminate).
  assert (size (chunk y) = TRANSCRIPTION_CHUNK_SIZE) as Hy
      by (apply size_front; lia).
  assert (distinct_portion y ++ erase_front (TRANSCRIPTION_CHUNK_SIZE - ov) buf = buf)
    as Hsplit.
  { unfold distinct_portion. cbn [chunk overlap y].
    rewrite front_front by lia. apply front_erase. }
  constructor.
  - rewrite Ech. apply Forall_app. split; [exact Hsz|].
    constructor; [|constructor]. split; [exact Hy|].
    unfold retained_overlap. cbn [overlap y].
    rewrite size_erase_front; lia.
  - rewrite Ech, Est. apply placed_snoc with (rest := erase_front TRANSCRIPTION_CHUNK_SIZE buf).
    + exact Hpl.
    + rewrite <- Hrest. f_equal. cbn [chunk y]. now rewrite front_erase.
  - rewrite Ech. apply overlaps_reappear_snoc; [exact Hch|].
    unfold opens_with_overlap in Hpend.
    destruct (last_chunk (chunks s)) as [x|] eqn:El; [|exact I].
    destruct Hpend as [tail Ht].
    cbn [chunk y]. rewrite Ht. apply front_of_app.
    assert (In x (chunks s)) as Hin.
    { clear - El. induction (chunks s) as [|a l IH]; [discriminate|].
      cbn in El. destruct l; [injection El as ->; now left|].
      right. now apply IH. }
    rewrite Forall_forall in Hsz. destruct (Hsz x Hin) as [Hx _].
    unfold retained_overlap. rewrite <- Hx. apply size_erase_front_le.
  - exists (audio_buffer s'). split; [|reflexivity].
    rewrite Ech, Est, Ebuf, flat_map_app, <- app_assoc.
    cbn [flat_map]. rewrite app_nil_r, Hsplit. exact Hrest.
  - intros _. unfold opens_with_overlap. rewrite Ech, last_chunk_snoc, Ebuf.
    exists (erase_front TRANSCRIPTION_CHUNK_SIZE buf).
    unfold retained_overlap. cbn [chunk overlap y].
    apply erase_front_chunk; lia.
Qed.

Lemma effect_keeps_order (b : Build) (s s' : Session) :
  effect b s s' -> temporal_order s -> temporal_order s'.
Proof.
  pose proof (overlap_bounds b) as B.
  intros [Est Ech Ebuf El Ecc
         | v L L' Est Ech Ebuf Ecc
         | L L' G Est Ech Ebuf Ecc
         | L L' G Est ov Ech Ebuf Ecc
         | L' Est Ech Ebuf Ecc
         | L' Est Ech Ebuf Ecc] T.
  - destruct T as [Hsz Hpl Hch Hrest Hpend].
    constructor; rewrite ?Est, ?Ech, ?Ebuf, ?El; assumption.
  - destruct T as [Hsz Hpl Hch [rest [Hrest Hbuf]] Hpend].
    specialize (Hbuf L). subst rest. specialize (Hpend L).
    constructor; rewrite ?Est, ?Ech, ?Ebuf.
    + exact Hsz.
    + now apply placed_later.
    + exact Hch.
    + exists (audio_buffer s ++ v). split; [|reflexivity].
      now rewrite app_assoc, Hrest.
    + intros _. unfold opens_with_overlap in *.
      destruct (last_chunk (chunks s)); [|exact I].
      destruct Hpend as [tail ->]. exists (tail ++ v).
      now rewrite app_assoc.
  - eapply take_chunk_order; eauto. lia.
  - eapply take_chunk_order; eauto.
    subst ov. destruct (chunk_count s =? 0); lia.
  - destruct T as [Hsz Hpl Hch [rest [Hrest Hbuf]] Hpend].
    constructor; rewrite ?Est, ?Ech, ?Ebuf, ?L'; try assumption.
    + exists rest. split; [exact Hrest | discriminate].
    + discriminate.
  - constructor; rewrite ?Est, ?Ech, ?Ebuf.
    + constructor.
    + intros pre x post E. now destruct pre.
    + exact I.
    + exists []. split; reflexivity.
    + intros _. exact I.
Qed.

Lemma effects_keep_order (b : Build) (s s' : Session) :
  effects b s s' -> temporal_order s -> temporal_order s'.
Proof.
  induction 1 as [|s1 s2 s3 _ IH E]; [auto|].
  intros T. eapply effect_keeps_order; eauto.
Qed.

End OrderFacts.

(** ** The log and the controller *)

Module LogFacts.

Lemma captured_app (l1 l2 : list Event) :
  captured (l1 ++ l2) = captured l1 ++ captured l2.
Proof. apply flat_map_app. Qed.

Lemma extractions_app (l1 l2 : list Event) :
  extractions (l1 ++ l2) = extractions l1 ++ extractions l2.
Proof. apply flat_map_app. Qed.

Lemma recognitions_app (l1 l2 : list Event) :
  recognitions (l1 ++ l2) = recognitions l1 ++ recognitions l2.
Proof. apply flat_map_app. Qed.

Lemma events_since_app (s s' : Session) (new : list Event) :
  log s' = new ++ log s -> events_since s s' = new.
Proof.
  intros H. unfold events_since. rewrite H, length_app.
  replace (List.length new + List.length (log s) - List.length (log s))%nat
    with (List.length new + 0)%nat by lia.
  now rewrite firstn_app_2, firstn_O, app_nil_r.
Qed.

End LogFacts.

Section ControllerFacts.

Variable b : Build.
Variable engine : list Event -> list Z -> Engine.Outcome b.

Lemma processAudioChunk_effect (s : Session) :
  is_listening s = true -> effect b s (processAudioChunk b engine s).
Proof.
  intros L. unfold processAudioChunk.
  destruct (Z.geb_spec (size (audio_buffer s)) TRANSCRIPTION_CHUNK_SIZE) as [G|G];
    [|now apply effect_none].
  destruct (SpeechGate.hasSubstantialSpeech _); cbn [negb].
  - unfold recognize.
    destruct (keeps_text b _);
      (apply effect_send; [exact L | exact L | lia | log_simpl; reflexivity
                          | log_simpl | log_simpl | log_simpl; reflexivity ]).
    all: try (replace (chunk_count s + 1 =? 1) with (chunk_count s =? 0)
               by (destruct (Z.eqb_spec (chunk_count s) 0);
                   destruct (Z.eqb_spec (chunk_count s + 1) 1); lia || reflexivity);
              reflexivity).
  - apply effect_skip; try (log_simpl; reflexivity); [exact L | exact L | lia].
Qed.

Lemma processAudioChunk_listening (s : Session) :
  is_listening (processAudioChunk b engine s) = is_listening s.
Proof.
  unfold processAudioChunk, recognize.
  destruct (_ >=? _); [|reflexivity].
  destruct (SpeechGate.hasSubstantialSpeech _); cbn [negb]; [|reflexivity].
  destruct (keeps_text b _); reflexivity.
Qed.

Lemma processAudioChunk_counters (s : Session) :
  silence_counter (processAudioChunk b engine s) = silence_counter s
  /\ speech_counter (processAudioChunk b engine s) = speech_counter s.
Proof.
  unfold processAudioChunk, recognize.
  destruct (_ >=? _); [|split; reflexivity].
  destruct (SpeechGate.hasSubstantialSpeech _); cbn [negb]; [|split; reflexivity].
  destruct (keeps_text b _); split; reflexivity.
Qed.

Lemma effects_one (s s' : Session) : effect b s s' -> effects b s s'.
Proof. intros E. eapply effects_step; [apply effects_refl | exact E]. Qed.

Lemma effects_trans (s1 s2 s3 : Session) :
  effects b s1 s2 -> effects b s2 s3 -> effects b s1 s3.
Proof.
  intros E12 E23. induction E23 as [|s2 s3 s4 _ IH E]; [exact E12|].
  eapply effects_step; [apply IH; exact E12 | exact E].
Qed.

Lemma capture_effect (f : Frame) (s : Session) :
  is_listening s = true -> effect b s (capture f s).
Proof.
  intros L. apply effect_append with (v := samples f);
    try exact L; unfold capture; log_simpl; reflexivity.
Qed.

Lemma classify_effects (f : Frame) (s : Session) :
  is_listening s = true -> effects b s (classify b engine f s).
Proof.
  intros L. unfold classify.
  destruct (vad_result f =? -2).
  - apply effects_one. now apply effect_none.
  - set (s1 := set_speech_counter _ _).
    assert (effects b s s1) as E1
        by (apply effects_one; now apply effect_none).
    destruct (speech_counter s1 >? _); [|exact E1].
    eapply effects_step; [exact E1|].
    now apply processAudioChunk_effect.
Qed.

Lemma classify_listening (f : Frame) (s : Session) :
  is_listening (classify b engine f s) = is_listening s.
Proof.
  unfold classify.
  destruct (vad_result f =? -2); [reflexivity|].
  destruct (_ >? _); [|reflexivity].
  now rewrite processAudioChunk_listening.
Qed.

Lemma drain_effect (s : Session) :
  is_listening s = true -> effect b s (drain b engine s).
Proof.
  intros L. unfold drain.
  destruct (_ >=? _); [now apply processAudioChunk_effect | now apply effect_none].
Qed.

Lemma drain_listening (s : Session) :
  is_listening (drain b engine s) = is_listening s.
Proof.
  unfold drain. destruct (_ >=? _); [|reflexivity].
  apply processAudioChunk_listening.
Qed.

Lemma final_pass_due_code (s : Session) :
  final_pass_due s =
  ((negb (size (audio_buffer s) =? 0) && transcription_started s
    && (size (audio_buffer s) >=? 8000))%bool
   && (size (audio_buffer s) >=? TRANSCRIPTION_CHUNK_SIZE ÷ 2))%bool.
Proof.
  unfold final_pass_due.
  change (TRANSCRIPTION_CHUNK_SIZE ÷ 2) with 24000.
  destruct (Z.eqb_spec (size (audio_buffer s)) 0);
    destruct (transcription_started s);
    destruct (Z.geb_spec (size (audio_buffer s)) 8000);
    destruct (Z.geb_spec (size (audio_buffer s)) 24000);
    destruct (Z.leb_spec 24000 (size (audio_buffer s)));
    cbn; try reflexivity; lia.
Qed.

Lemma finalizeTranscription_log (s : Session) :
  log (finalizeTranscription b engine s) = final_events b engine s ++ log s.
Proof.
  unfold final_events. rewrite final_pass_due_code.
  unfold finalizeTranscription, recognize.
  destruct ((negb (size (audio_buffer s) =? 0) && transcription_started s
             && (size (audio_buffer s) >=? 8000))%bool) eqn:E1; cbn [andb].
  - assert (transcription_started s = true) as St.
    { destruct (transcription_started s); [reflexivity|].
      now rewrite andb_false_r in E1. }
    destruct (size (audio_buffer s) >=? TRANSCRIPTION_CHUNK_SIZE ÷ 2).
    + destruct (Str.empty _); cbn [negb]; cbn; rewrite St; reflexivity.
    + cbn. rewrite St. reflexivity.
  - cbn. destruct (transcription_started s); reflexivity.
Qed.

Lemma finalizeTranscription_state (s : Session) :
  audio_buffer (finalizeTranscription b engine s) = []
  /\ is_listening (finalizeTranscription b engine s) = is_listening s
  /\ chunk_count (finalizeTranscription b engine s) = chunk_count s
  /\ silence_counter (finalizeTranscription b engine s) = silence_counter s
  /\ speech_counter (finalizeTranscription b engine s) = speech_counter s.
Proof.
  unfold finalizeTranscription, recognize.
  destruct (_ && _ && _)%bool.
  - destruct (_ >=? _).
    + destruct (Str.empty _); cbn [negb];
        cbn; destruct (transcription_started s); repeat split; reflexivity.
    + destruct (transcription_started s); repeat split; reflexivity.
  - destruct (transcription_started s); repeat split; reflexivity.
Qed.

Lemma stream_of_log (s s' : Session) (new : list Event) :
  log s' = new ++ log s ->
  captured new = [] -> extractions new = [] -> ~ In EvHotword new ->
  stream s' = stream s /\ chunks s' = chunks s.
Proof.
  intros E Hc Hx Hn. unfold stream, chunks, cycle. rewrite E. clear E.
  induction new as [|e new IH]; [split; reflexivity|].
  assert (captured new = [] /\ extractions new = []) as [Hc' Hx'].
  { unfold captured, extractions in *. cbn [flat_map] in Hc, Hx.
    apply app_eq_nil in Hc, Hx. tauto. }
  destruct IH as [IH1 IH2]; [assumption .. | |].
  { intros H. apply Hn. now right. }
  destruct e; cbn [app cycle_rev rev];
    rewrite ?LogFacts.captured_app, ?LogFacts.extractions_app, ?IH1, ?IH2;
    cbn [captured extractions flat_map app] in Hc, Hx |- *;
    rewrite ?app_nil_r in Hc |- *.
  - exfalso. apply Hn. now left.
  - apply app_eq_nil in Hc as [-> _]. rewrite ?app_nil_r. split; reflexivity.
  - rewrite ?app_nil_r. split; reflexivity.
  - discriminate.
  - rewrite ?app_nil_r. split; reflexivity.
  - rewrite ?app_nil_r. split; reflexivity.
Qed.

Lemma final_events_quiet (s : Session) :
  captured (final_events b engine s) = [] /\ extractions (final_events b engine s) = []
  /\ ~ In EvHotword (final_events b engine s).
Proof.
  unfold final_events.
  destruct (transcription_started s); destruct (final_pass_due s);
    cbn; repeat split; try reflexivity; intuition discriminate.
Qed.

Lemma stop_effect (s : Session) : effect b s (stop b engine s).
Proof.
  destruct (finalizeTranscription_state s) as (Hb & _ & Hc & _).
  destruct (final_events_quiet s) as (Q1 & Q2 & Q3).
  destruct (stream_of_log s (stop b engine s) (EvIdle :: final_events b engine s))
    as [E1 E2].
  - unfold stop. cbn [log emit set_is_listening].
    now rewrite finalizeTranscription_log.
  - exact Q1.
  - exact Q2.
  - intros [H|H]; [discriminate | contradiction].
  - apply effect_stop; try assumption; try reflexivity.
Qed.

Lemma silence_check_effect (s : Session) : effect b s (silence_check b engine s).
Proof.
  unfold silence_check.
  destruct (_ >=? _); [apply stop_effect | now apply effect_none].
Qed.

Lemma cutoff_check_effect (s : Session) : effect b s (cutoff_check b engine s).
Proof.
  unfold cutoff_check.
  destruct (_ >? _); [apply stop_effect | now apply effect_none].
Qed.

Lemma idle_step_effect (f : Frame) (s : Session) : effect b s (idle_step f s).
Proof.
  unfold idle_step.
  destruct (_ >? _); [now apply effect_reset | now apply effect_none].
Qed.

Lemma listening_step_effects (f : Frame) (s : Session) :
  is_listening s = true -> effects b s (listening_step b engine f s).
Proof.
  intros L. unfold listening_step, before_cutoff.
  assert (is_listening (capture f s) = true) as L1 by exact L.
  assert (is_listening (classify b engine f (capture f s)) = true) as L2
      by now rewrite classify_listening.
  eapply effects_step; [|apply cutoff_check_effect].
  eapply effects_step; [|apply silence_check_effect].
  eapply effects_step; [|apply drain_effect; exact L2].
  eapply effects_trans; [|apply classify_effects; exact L1].
  apply effects_one. now apply capture_effect.
Qed.

Lemma loop_body_effects (s : Session) (f : Frame) :
  effects b s (loop_body b engine s f).
Proof.
  unfold loop_body. destruct (is_listening s) eqn:L; cbn [negb].
  - now apply listening_step_effects.
  - apply effects_one, idle_step_effect.
Qed.

Lemma run_effects (frames : list Frame) (s : Session) :
  effects b s (run b engine frames s).
Proof.
  unfold run. revert s.
  induction frames as [|f frames IH]; intros s; cbn [fold_left].
  - apply effects_refl.
  - eapply effects_trans; [apply loop_body_effects | apply IH].
Qed.

End ControllerFacts.

(** ** The overlaps *)

Module PolicyFacts.

Lemma sent_chunks_snoc (xs : list Extraction) (x : Extraction) :
  sent_chunks (xs ++ [x])
  = sent_chunks xs ++ (if sent x then [x] else []).
Proof. unfold sent_chunks. rewrite filter_app. reflexivity. Qed.

Lemma effect_keeps_policy (b : Build) (s s' : Session) :
  effect b s s' -> overlap_policy b s -> overlap_policy b s'.
Proof.
  intros [Est Ech Ebuf El Ecc
         | v L L' Est Ech Ebuf Ecc
         | L L' G Est Ech Ebuf Ecc
         | L L' G Est ov Ech Ebuf Ecc
         | L' Est Ech Ebuf Ecc
         | L' Est Ech Ebuf Ecc] [Pc Ps Pk].
  - constructor; rewrite ?Ech, ?Ecc; assumption.
  - constructor; rewrite ?Ech, ?Ecc; assumption.
  - constructor; rewrite ?Ech, ?Ecc, ?sent_chunks_snoc; cbn [sent];
      rewrite ?app_nil_r; try assumption.
    apply Forall_app. split; [exact Pk|].
    constructor; [reflexivity | constructor].
  - constructor; rewrite ?Ech, ?Ecc, ?sent_chunks_snoc; cbn [sent].
    + rewrite length_app, Pc. cbn [List.length]. lia.
    + subst ov. destruct (sent_chunks (chunks s)) as [|y rest] eqn:E.
      * cbn [List.length] in Pc. rewrite Pc. cbn. auto.
      * cbn [List.length] in Pc.
        replace (chunk_count s =? 0) with false
          by (symmetry; apply Z.eqb_neq; lia).
        cbn [app]. destruct Ps as [Py Pr]. split; [exact Py|].
        apply Forall_app. split; [exact Pr|].
        constructor; [reflexivity | constructor].
    + apply Forall_app. split; [exact Pk|].
      constructor; [discriminate | constructor].
  - constructor; rewrite ?Ech, ?Ecc; assumption.
  - constructor; rewrite ?Ech, ?Ecc; cbn; auto.
Qed.

Lemma effects_keep_policy (b : Build) (s s' : Session) :
  effects b s s' -> overlap_policy b s -> overlap_policy b s'.
Proof.
  induction 1 as [|s1 s2 s3 _ IH E]; [auto|].
  intros P. eapply effect_keeps_policy; eauto.
Qed.

Lemma initial_policy (b : Build) : overlap_policy b initial.
Proof. constructor; cbn; auto. Qed.

Lemma policy_sorted (b : Build) (xs : list Extraction) :
  match xs with
  | [] => True
  | x :: rest =>
      overlap x = first_overlap b
      /\ Forall (fun y => overlap y = later_overlap b) rest
  end ->
  StronglySorted Z.ge (map overlap xs).
Proof.
  pose proof (OrderFacts.overlap_bounds b) as B.
  destruct xs as [|x rest]; [constructor|].
  intros [Hx Hr]. cbn [map]. constructor.
  - induction Hr as [|y rest Hy Hr IH]; cbn [map]; constructor.
    + exact IH.
    + clear IH. induction Hr as [|z rest Hz Hr IH]; cbn [map]; constructor.
      * lia.
      * exact IH.
  - rewrite Hx. clear Hx.
    induction Hr as [|y rest Hy Hr IH]; cbn [map]; constructor.
    + lia.
    + exact IH.
Qed.

End PolicyFacts.

Lemma initial_order : temporal_order initial.
Proof.
  constructor; cbn.
  - constructor.
  - intros pre x post E. now destruct pre.
  - exact I.
  - exists []. split; reflexivity.
  - intros _. exact I.
Qed.

Lemma processAudioChunk_takes_front
    (b : Build) (engine : list Event -> list Z -> Engine.Outcome b)
    (s : Session) :
  TRANSCRIPTION_CHUNK_SIZE <= size (audio_buffer s) ->
  exists ov snt,
    hd_error (log (processAudioChunk b engine s))
    = Some (EvChunk (front TRANSCRIPTION_CHUNK_SIZE (audio_buffer s)) ov snt)
    /\ audio_buffer (processAudioChunk b engine s)
       = erase_front (TRANSCRIPTION_CHUNK_SIZE - ov) (audio_buffer s)
    /\ 0 <= ov < TRANSCRIPTION_CHUNK_SIZE.
Proof.
  intros G. pose proof (OrderFacts.overlap_bounds b) as B.
  unfold processAudioChunk, recognize.
  destruct (Z.geb_spec (size (audio_buffer s)) TRANSCRIPTION_CHUNK_SIZE); [|lia].
  destruct (SpeechGate.hasSubstantialSpeech _); cbn [negb].
  - destruct (keeps_text b _); state_simpl;
      destruct (chunk_count s + 1 =? 1);
      eexists; eexists; (split; [reflexivity | split; [reflexivity | lia]]).
  - state_simpl.
    eexists; eexists; (split; [reflexivity | split; [reflexivity | lia]]).
Qed.

(** ** The steps of the loop *)

Section StepFacts.

Variable b : Build.
Variable engine : list Event -> list Z -> Engine.Outcome b.

Lemma stop_state (s : Session) :
  audio_buffer (stop b engine s) = []
  /\ is_listening (stop b engine s) = false
  /\ silence_counter (stop b engine s) = silence_counter s
  /\ speech_counter (stop b engine s) = speech_counter s
  /\ hd_error (log (stop b engine s)) = Some EvIdle.
Proof.
  destruct (finalizeTranscription_state b engine s) as (H1 & _ & _ & H4 & H5).
  unfold stop. cbn. auto.
Qed.

Lemma silence_check_counters (s : Session) :
  silence_counter (silence_check b engine s) = silence_counter s
  /\ speech_counter (silence_check b engine s) = speech_counter s.
Proof.
  unfold silence_check. destruct (_ >=? _); [|split; reflexivity].
  destruct (stop_state s) as (_ & _ & H1 & H2 & _). auto.
Qed.

Lemma cutoff_check_counters (s : Session) :
  silence_counter (cutoff_check b engine s) = silence_counter s
  /\ speech_counter (cutoff_check b engine s) = speech_counter s.
Proof.
  unfold cutoff_check. destruct (_ >? _); [|split; reflexivity].
  destruct (stop_state s) as (_ & _ & H1 & H2 & _). auto.
Qed.

Lemma drain_counters (s : Session) :
  silence_counter (drain b engine s) = silence_counter s
  /\ speech_counter (drain b engine s) = speech_counter s.
Proof.
  unfold drain. destruct (_ >=? _); [|split; reflexivity].
  apply processAudioChunk_counters.
Qed.







End StepFacts.

(** The binary64 version of the gate and the embedded one agree at the
    thresholds, on chunks of the size that [processAudioChunk] passes. *)
Lemma double_agrees_at_thresholds :
  map SpeechGate.size [at_thresholds; below_rms; below_activity]
  = [48000; 48000; 48000]
  /\ map SpeechGate.sum_squares [at_thresholds; below_rms; below_activity]
     = [2500 * 48000; 2500 * 48000 - 199; 2500 * 48000]
  /\ map SpeechGate.speech_samples [at_thresholds; below_rms; below_activity]
     = [240; 240; 239]
  /\ map Binary64.hasSubstantialSpeech
         [at_thresholds; below_rms; below_activity]
     = [true; false; false]
  /\ map SpeechGate.hasSubstantialSpeech
         [at_thresholds; below_rms; below_activity]
     = [true; false; false].
Proof.
  split; [vm_compute; reflexivity|]. split; [vm_compute; reflexivity|].
  split; [vm_compute; reflexivity|].
  split; vm_compute; reflexivity.
Qed.

(** * The claims *)

(** C1: chunks leave the buffer in temporal order.  [processAudioChunk]
    takes the first 48000 samples of the buffer as the chunk and erases
    all of them but the overlap.  In every run of the loop, each chunk of
    the cycle has the size of a chunk and lies in the captured audio right
    after the distinct portions of the chunks before it; the overlap
    retained from a chunk opens the next chunk, unchanged; and the distinct
    portions, in the order of extraction, followed by the samples not yet
    consumed, which while listening are the buffer itself, are the
    captured audio, sample for sample. *)
Theorem chunks_keep_temporal_order
    (b : Build) (engine : list Event -> list Z -> Engine.Outcome b)
    (frames : list Frame) :
  let s := run b engine frames initial in
  (forall s0 : Session,
      TRANSCRIPTION_CHUNK_SIZE <= size (audio_buffer s0) ->
      exists ov snt,
        hd_error (log (processAudioChunk b engine s0))
        = Some (EvChunk (front TRANSCRIPTION_CHUNK_SIZE (audio_buffer s0)) ov snt)
        /\ audio_buffer (processAudioChunk b engine s0)
           = erase_front (TRANSCRIPTION_CHUNK_SIZE - ov) (audio_buffer s0)
        /\ 0 <= ov < TRANSCRIPTION_CHUNK_SIZE)
  /\ Forall well_sized (chunks s)
  /\ placed (stream s) (chunks s)
  /\ overlaps_reappear (chunks s)
  /\ exists rest,
       flat_map distinct_portion (chunks s) ++ rest = stream s
       /\ (is_listening s = true -> rest = audio_buffer s).
Proof.
  intros s. split; [apply processAudioChunk_takes_front|].
  destruct (OrderFacts.effects_keep_order b initial s
              (run_effects b engine frames initial) initial_order)
    as [H1 H2 H3 H4 _].
  auto.
Qed.

(** The theorem at a run that takes two chunks and is still listening. *)
Lemma chunks_keep_temporal_order_witness :
  is_listening (run MainCpp hello_main sent_then_rejected initial) = true
  /\ flat_map distinct_portion
       (chunks (run MainCpp hello_main sent_then_rejected initial))
     ++ audio_buffer (run MainCpp hello_main sent_then_rejected initial)
     = stream (run MainCpp hello_main sent_then_rejected initial).
Proof.
  assert (is_listening (run MainCpp hello_main sent_then_rejected initial)
          = true) as L by (vm_compute; reflexivity).
  split; [exact L|].
  pose proof (chunks_keep_temporal_order MainCpp hello_main sent_then_rejected)
    as T.
  cbv zeta in T.
  destruct T as (_ & _ & _ & _ & rest & Hrest & Hbuf).
  destruct (Hbuf L). exact Hrest.
Defined.

(** C2, as the code has it: among the chunks sent to recognition the
    retained overlap never grows during a cycle: the first one keeps
    [first_overlap], every later one the smaller [later_overlap].  A chunk
    rejected by the gate keeps [skipped_overlap], the largest of the three,
    wherever it comes in the cycle. *)
Theorem sent_overlaps_never_grow
    (b : Build) (engine : list Event -> list Z -> Engine.Outcome b)
    (frames : list Frame) :
  let s := run b engine frames initial in
  StronglySorted Z.ge (map overlap (sent_chunks (chunks s)))
  /\ match sent_chunks (chunks s) with
     | [] => True
     | x :: rest =>
         overlap x = first_overlap b
         /\ Forall (fun y => overlap y = later_overlap b) rest
     end
  /\ Forall (fun x => sent x = false -> overlap x = skipped_overlap b) (chunks s)
  /\ chunk_count s = Z.of_nat (List.length (sent_chunks (chunks s)))
  /\ later_overlap b <= first_overlap b < skipped_overlap b.
Proof.
  intros s.
  destruct (PolicyFacts.effects_keep_policy b initial s
              (run_effects b engine frames initial)
              (PolicyFacts.initial_policy b)) as [Pc Ps Pk].
  pose proof (OrderFacts.overlap_bounds b) as B.
  repeat split; try assumption; try lia.
  now apply (PolicyFacts.policy_sorted b).
Qed.

(** In [main.cpp]: after the hotword, a frame of 48000 samples, loud but
    for its last 1500, is sent and keeps 1500 samples; a frame of 48000
    zeros follows, the next chunk is silent, is rejected and keeps 6000. *)
Lemma overlap_grows_after_rejection :
  map (fun x => (overlap x, sent x)) (chunks rejected_after_sent)
  = [(1500, true); (6000, false)]
  /\ ~ StronglySorted Z.ge (map overlap (chunks rejected_after_sent)).
Proof.
  split; [vm_compute; reflexivity|].
  assert (map overlap (chunks rejected_after_sent) = [1500; 6000]) as E
      by (vm_compute; reflexivity).
  rewrite E. intros H.
  apply StronglySorted_inv in H as [_ H].
  apply Forall_inv in H. lia.
Qed.

(** C3, as the code has it: while listening, a frame that the classifier
    calls silence ([RunVad] returns -2) adds one to [silence_counter] and
    leaves [speech_counter] as it was. *)
Theorem silent_frame_counts
    (b : Build) (engine : list Event -> list Z -> Engine.Outcome b)
    (s : Session) (f : Frame) :
  is_listening s = true ->
  vad_result f = -2 ->
  silence_counter (loop_body b engine s f) = silence_counter s + 1
  /\ speech_counter (loop_body b engine s f) = speech_counter s.
Proof.
  intros L V. unfold loop_body. rewrite L. cbn [negb].
  unfold listening_step, before_cutoff.
  destruct (cutoff_check_counters b engine
              (silence_check b engine
                 (drain b engine (classify b engine f (capture f s)))))
    as [-> ->].
  destruct (silence_check_counters b engine
              (drain b engine (classify b engine f (capture f s))))
    as [-> ->].
  destruct (drain_counters b engine (classify b engine f (capture f s)))
    as [-> ->].
  unfold classify. rewrite V. cbn. split; reflexivity.
Qed.

(** The theorem at a cycle that has heard one frame of speech. *)
Lemma silent_frame_counts_witness :
  is_listening after_speech = true
  /\ vad_result quiet_frame = -2
  /\ silence_counter (loop_body MainCpp hello_main after_speech quiet_frame)
     = silence_counter after_speech + 1
  /\ speech_counter (loop_body MainCpp hello_main after_speech quiet_frame)
     = speech_counter after_speech.
Proof.
  assert (is_listening after_speech = true) as L by reflexivity.
  assert (vad_result quiet_frame = -2) as V by reflexivity.
  split; [exact L|]. split; [exact V|].
  exact (silent_frame_counts MainCpp hello_main after_speech quiet_frame L V).
Defined.

(** After the hotword and one frame of speech [speech_counter] is 1, and
    it is still 1 after a frame of silence. *)
Lemma speech_run_survives_silence :
  is_listening after_speech = true
  /\ vad_result quiet_frame = -2
  /\ speech_counter after_speech = 1
  /\ speech_counter (loop_body MainCpp hello_main after_speech quiet_frame) = 1
  /\ ~ (silence_counter (loop_body MainCpp hello_main after_speech quiet_frame)
        = silence_counter after_speech + 1
        /\ speech_counter (loop_body MainCpp hello_main after_speech quiet_frame)
           = 0).
Proof.
  assert (speech_counter
            (loop_body MainCpp hello_main after_speech quiet_frame) = 1) as E
      by (vm_compute; reflexivity).
  split; [reflexivity|]. split; [reflexivity|].
  split; [vm_compute; reflexivity|]. split; [exact E|].
  rewrite E. intros [_ H]. discriminate.
Qed.

(** C4, as the code has it: when the buffer holds a chunk that passes the
    gate, [processAudioChunk] calls the engine on it once and, whatever
    the engine answers, a failure included, erases the chunk from the
    front of the buffer but for the overlap of a chunk that was sent,
    adds one to [chunk_count], reports the chunk as sent and leaves the
    session listening; so the buffer, the count and the chunks are those
    that any other answer gives, an empty text included.  An empty text
    adds nothing to the transcript; a non-zero [whisper_full] in
    [main.cpp] and a failed [_popen] give the empty text; the exit code
    of the spawned process is not consulted. *)
Theorem failed_recognition_consumes_chunk
    (b : Build) (engine other : list Event -> list Z -> Engine.Outcome b)
    (s : Session) :
  let s1 := processAudioChunk b engine s in
  let s2 := processAudioChunk b other s in
  let chunk := front TRANSCRIPTION_CHUNK_SIZE (audio_buffer s) in
  let kept :=
    if chunk_count s =? 0 then first_overlap b else later_overlap b in
  (TRANSCRIPTION_CHUNK_SIZE <= size (audio_buffer s) ->
   SpeechGate.hasSubstantialSpeech chunk = true ->
   recognitions (events_since s s1) = [chunk]
   /\ audio_buffer s1
      = erase_front (TRANSCRIPTION_CHUNK_SIZE - kept) (audio_buffer s)
   /\ size (audio_buffer s1)
      = size (audio_buffer s) - (TRANSCRIPTION_CHUNK_SIZE - kept)
   /\ chunk_count s1 = chunk_count s + 1
   /\ hd_error (log s1) = Some (EvChunk chunk kept true))
  /\ (audio_buffer s1 = audio_buffer s2
      /\ chunk_count s1 = chunk_count s2
      /\ chunks s1 = chunks s2
      /\ is_listening s1 = is_listening s
      /\ silence_counter s1 = silence_counter s
      /\ speech_counter s1 = speech_counter s)
  /\ (Engine.transcribeWithWhisper b
        (engine (log s) (front TRANSCRIPTION_CHUNK_SIZE (audio_buffer s))) = "" ->
      current_transcription s1 = current_transcription s
      /\ transcription_started s1 = transcription_started s)
  /\ (forall o : Engine.Outcome MainCpp,
        invocation_failed MainCpp o = true ->
        Engine.transcribeWithWhisper MainCpp o = "")
  /\ Engine.transcribeWithWhisper StreamingPosix Engine.PopenFailed = ""
  /\ (forall (output : string) (exit_code : Z),
        Engine.transcribeWithWhisper StreamingWin32
          (Engine.ProcessRan output exit_code)
        = Engine.transcribeWithWhisper StreamingWin32
            (Engine.ProcessRan output 0)
        /\ Engine.transcribeWithWhisper StreamingPosix
             (Engine.PopenRan output exit_code)
           = Engine.transcribeWithWhisper StreamingPosix
               (Engine.PopenRan output 0)).
Proof.
  intros s1 s2 chunk kept. split; [|split; [|split; [|split; [|split]]]].
  - intros G A. pose proof (OrderFacts.overlap_bounds b) as B.
    assert (0 <= TRANSCRIPTION_CHUNK_SIZE - kept <= size (audio_buffer s))
      as K by (subst kept; destruct (chunk_count s =? 0); lia).
    assert (log s1 = [EvChunk chunk kept true; EvRecognize chunk] ++ log s
            /\ audio_buffer s1
               = erase_front (TRANSCRIPTION_CHUNK_SIZE - kept) (audio_buffer s)
            /\ chunk_count s1 = chunk_count s + 1) as (E1 & E2 & E3).
    { subst s1 chunk kept. unfold processAudioChunk, recognize.
      destruct (Z.geb_spec (size (audio_buffer s)) TRANSCRIPTION_CHUNK_SIZE);
        [|lia].
      rewrite A. cbn [negb].
      replace (chunk_count s =? 0) with (chunk_count s + 1 =? 1)
        by (destruct (Z.eqb_spec (chunk_count s) 0);
            destruct (Z.eqb_spec (chunk_count s + 1) 1); lia || reflexivity).
      destruct (keeps_text b _); state_simpl; repeat split; reflexivity. }
    split; [now rewrite (LogFacts.events_since_app _ _ _ E1)|].
    split; [exact E2|].
    split; [rewrite E2; now apply BufferFacts.size_erase_front|].
    split; [exact E3 | now rewrite E1].
  - subst s1 s2. unfold processAudioChunk, recognize.
    destruct (_ >=? _); [|repeat split; reflexivity].
    destruct (SpeechGate.hasSubstantialSpeech _); cbn [negb];
      [|repeat split; reflexivity].
    destruct (keeps_text b (Engine.transcribeWithWhisper b (engine _ _)));
      destruct (keeps_text b (Engine.transcribeWithWhisper b (other _ _)));
      repeat split; reflexivity.
  - intros E. subst s1. unfold processAudioChunk, recognize.
    destruct (_ >=? _); [|split; reflexivity].
    destruct (SpeechGate.hasSubstantialSpeech _); cbn [negb];
      [|split; reflexivity].
    rewrite E. cbn. split; reflexivity.
  - intros o F. cbn in o, F |- *. unfold Engine.transcribe_main.
    now rewrite F.
  - reflexivity.
  - intros output exit_code. split; reflexivity.
Qed.

(** The theorem at a chunk of speech for which [whisper_full] fails. *)
Lemma failed_recognition_consumes_chunk_witness :
  TRANSCRIPTION_CHUNK_SIZE <= size (audio_buffer chunk_ready_main)
  /\ SpeechGate.hasSubstantialSpeech
       (front TRANSCRIPTION_CHUNK_SIZE (audio_buffer chunk_ready_main)) = true
  /\ invocation_failed MainCpp
       (failing_main (log chunk_ready_main)
          (front TRANSCRIPTION_CHUNK_SIZE (audio_buffer chunk_ready_main)))
     = true
  /\ Engine.transcribeWithWhisper MainCpp
       (failing_main (log chunk_ready_main)
          (front TRANSCRIPTION_CHUNK_SIZE (audio_buffer chunk_ready_main))) = ""
  /\ current_transcription
       (processAudioChunk MainCpp failing_main chunk_ready_main)
     = current_transcription chunk_ready_main
  /\ size (audio_buffer
             (processAudioChunk MainCpp failing_main chunk_ready_main))
     = size (audio_buffer chunk_ready_main)
       - (TRANSCRIPTION_CHUNK_SIZE
          - (if chunk_count chunk_ready_main =? 0
             then first_overlap MainCpp else later_overlap MainCpp))
  /\ chunk_count (processAudioChunk MainCpp failing_main chunk_ready_main)
     = chunk_count chunk_ready_main + 1
  /\ audio_buffer (processAudioChunk MainCpp failing_main chunk_ready_main)
     = audio_buffer (processAudioChunk MainCpp hello_main chunk_ready_main).
Proof.
  assert (TRANSCRIPTION_CHUNK_SIZE <= size (audio_buffer chunk_ready_main))
    as G by (vm_compute; discriminate).
  assert (SpeechGate.hasSubstantialSpeech
            (front TRANSCRIPTION_CHUNK_SIZE (audio_buffer chunk_ready_main))
          = true) as A by (vm_compute; reflexivity).
  assert (Engine.transcribeWithWhisper MainCpp
            (failing_main (log chunk_ready_main)
               (front TRANSCRIPTION_CHUNK_SIZE (audio_buffer chunk_ready_main)))
          = "") as E by reflexivity.
  assert (invocation_failed MainCpp
            (failing_main (log chunk_ready_main)
               (front TRANSCRIPTION_CHUNK_SIZE (audio_buffer chunk_ready_main)))
          = true) as F by reflexivity.
  pose proof (failed_recognition_consumes_chunk
                MainCpp failing_main hello_main chunk_ready_main) as T.
  cbv zeta in T. destruct T as (Hc & (Hb & _) & Ht & Hm & _ & _).
  destruct (Hc G A) as (_ & _ & Hs & Hn & _).
  split; [exact G|]. split; [exact A|]. split; [exact F|].
  split; [exact (Hm _ F)|]. split; [exact (proj1 (Ht E))|].
  split; [exact Hs|]. split; [exact Hn | exact Hb].
Defined.

(** In the [_WIN32] branch: a child that prints "error: failed to
    initialize whisper context" and exits with code 3 has its message
    parsed like a recognised line, and the message joins the transcript;
    when [CreateProcessA] fails with error 2 the text "[CreateProcess
    failed: 2]" is returned and joins the transcript as well. *)
Lemma failure_text_in_transcript :
  invocation_failed StreamingWin32
    (failing_exit (log chunk_ready)
       (front TRANSCRIPTION_CHUNK_SIZE (audio_buffer chunk_ready))) = true
  /\ invocation_failed StreamingWin32
       (failing_spawn (log chunk_ready)
          (front TRANSCRIPTION_CHUNK_SIZE (audio_buffer chunk_ready))) = true
  /\ current_transcription chunk_ready = ""
  /\ current_transcription
       (processAudioChunk StreamingWin32 failing_exit chunk_ready)
     = "error: failed to initialize whisper context "
  /\ transcription_started
       (processAudioChunk StreamingWin32 failing_exit chunk_ready) = true
  /\ current_transcription
       (processAudioChunk StreamingWin32 failing_spawn chunk_ready)
     = "[CreateProcess failed: 2] "
  /\ current_transcription
       (processAudioChunk StreamingWin32 failing_exit chunk_ready)
     <> current_transcription chunk_ready.
Proof.
  assert (current_transcription chunk_ready = "") as E0
      by (vm_compute; reflexivity).
  assert (current_transcription
            (processAudioChunk StreamingWin32 failing_exit chunk_ready)
          = "error: failed to initialize whisper context ") as E1
      by (vm_compute; reflexivity).
  split; [vm_compute; reflexivity|]. split; [vm_compute; reflexivity|].
  split; [exact E0|]. split; [exact E1|].
  split; [vm_compute; reflexivity|]. split; [vm_compute; reflexivity|].
  rewrite E0, E1. discriminate.
Qed.




(** C6: [finalizeTranscription] calls the engine exactly when the buffer
    is not empty, a transcription has started and the buffer holds at
    least half a chunk, and then on the whole buffer, once; a shorter
    buffer is dropped without a call; when no transcription has started
    there is no call and no report.  The buffer is empty afterwards. *)
Theorem final_pass_exactly_when_due
    (b : Build) (engine : list Event -> list Z -> Engine.Outcome b)
    (s : Session) :
  let s' := finalizeTranscription b engine s in
  recognitions (events_since s s')
  = (if final_pass_due s then [audio_buffer s] else [])
  /\ (final_pass_due s = true <->
      audio_buffer s <> [] /\ transcription_started s = true
      /\ TRANSCRIPTION_CHUNK_SIZE ÷ 2 <= size (audio_buffer s))
  /\ (size (audio_buffer s) < TRANSCRIPTION_CHUNK_SIZE ÷ 2 ->
      recognitions (events_since s s') = [])
  /\ (transcription_started s = false -> events_since s s' = [])
  /\ audio_buffer s' = [].
Proof.
  intros s'.
  assert (events_since s s' = final_events b engine s) as Ev
      by (apply LogFacts.events_since_app, finalizeTranscription_log).
  assert (recognitions (final_events b engine s)
          = if final_pass_due s then [audio_buffer s] else []) as Er.
  { unfold final_events. rewrite LogFacts.recognitions_app.
    destruct (transcription_started s); destruct (final_pass_due s);
      reflexivity. }
  assert (final_pass_due s = true <->
          audio_buffer s <> [] /\ transcription_started s = true
          /\ TRANSCRIPTION_CHUNK_SIZE ÷ 2 <= size (audio_buffer s)) as Due.
  { unfold final_pass_due. rewrite !andb_true_iff, negb_true_iff.
    rewrite Z.eqb_neq, Z.leb_le.
    assert (size (audio_buffer s) <> 0 <-> audio_buffer s <> []) as ->.
    { unfold size. destruct (audio_buffer s); cbn [List.length]; split;
        intros H; try congruence; lia. }
    tauto. }
  rewrite Ev, Er. split; [reflexivity|]. split; [exact Due|].
  split; [|split].
  - intros H. destruct (final_pass_due s); [|reflexivity].
    destruct (proj1 Due eq_refl) as (_ & _ & G). lia.
  - intros H. unfold final_events, final_pass_due. rewrite H.
    now rewrite andb_false_r.
  - apply finalizeTranscription_state.
Qed.

(** The theorem at the initial session, and at a cycle that has started
    a transcription and holds 31500 samples. *)
Lemma final_pass_exactly_when_due_witness :
  transcription_started initial = false
  /\ events_since initial (finalizeTranscription MainCpp hello_main initial) = []
  /\ final_pass_due tail_pending = true
  /\ recognitions
       (events_since tail_pending
          (finalizeTranscription MainCpp hello_main tail_pending))
     = [audio_buffer tail_pending].
Proof.
  assert (transcription_started initial = false) as H by reflexivity.
  assert (final_pass_due tail_pending = true) as D by (vm_compute; reflexivity).
  pose proof (final_pass_exactly_when_due MainCpp hello_main initial) as T0.
  pose proof (final_pass_exactly_when_due MainCpp hello_main tail_pending) as T1.
  cbv zeta in T0, T1.
  destruct T0 as (_ & _ & _ & Hq & _). destruct T1 as (Hr & _).
  rewrite D in Hr.
  split; [exact H|]. split; [exact (Hq H)|]. split; [exact D | exact Hr].
Defined.

(** C7: a chunk that is not empty passes the speech gate exactly when its
    root-mean-square amplitude is at least 50 and the fraction of its
    samples above 200 in absolute value is at least 0.005; a chunk of
    zeros is rejected, whatever its length.  The amplitude and the
    fraction are those of the specification, [SpeechGate.rms] and
    [SpeechGate.activity_ratio], computed from the samples over the reals
    and not by the loops of the function. *)
Theorem speech_gate_accepts_iff (audio_chunk : list Z) :
  audio_chunk <> [] ->
  (SpeechGate.hasSubstantialSpeech audio_chunk = true <->
   (50 <= SpeechGate.rms audio_chunk)%R
   /\ (5 / 1000 <= SpeechGate.activity_ratio audio_chunk)%R)
  /\ (forall n : nat, SpeechGate.hasSubstantialSpeech (repeat 0 n) = false).
Proof.
  intros Hne. split.
  - rewrite (GateFacts.gate_decision _ Hne),
      (GateFacts.rms_threshold _ Hne), (GateFacts.activity_threshold _ Hne).
    reflexivity.
  - apply GateFacts.silence_rejected.
Qed.

(** The theorem at a chunk of three samples, which the gate accepts: its
    amplitude is at least 50 and two of its three samples are active. *)
Lemma speech_gate_accepts_iff_witness :
  loud_samples <> []
  /\ SpeechGate.hasSubstantialSpeech loud_samples = true
  /\ (50 <= SpeechGate.rms loud_samples)%R
  /\ (5 / 1000 <= SpeechGate.activity_ratio loud_samples)%R
  /\ (forall n : nat, SpeechGate.hasSubstantialSpeech (repeat 0 n) = false).
Proof.
  assert (loud_samples <> []) as H by discriminate.
  assert (SpeechGate.hasSubstantialSpeech loud_samples = true) as A
      by (vm_compute; reflexivity).
  destruct (speech_gate_accepts_iff loud_samples H) as [I Z0].
  destruct (proj1 I A) as [R1 R2].
  split; [exact H|]. split; [exact A|]. split; [exact R1|].
  split; [exact R2 | exact Z0].
Defined.

(** The two examples of the specification in every build: the filter
    rejects "Thanks for watching", which then adds nothing to the
    transcript through [processAudioChunk], and lets "set a timer for five
    minutes" through unchanged; both checks work on the lowered text, so
    the case of the letters does not matter. *)
Lemma filter_watching_and_timer (b : Build) :
  HallucinationFilter.isHallucination b "Thanks for watching" = true
  /\ HallucinationFilter.isHallucination b "set a timer for five minutes" = false
  /\ contribution b (one_segment b "Thanks for watching") = ""
  /\ contribution b (one_segment b "set a timer for five minutes")
     = "set a timer for five minutes "
  /\ HallucinationFilter.isHallucination b "THANKS FOR WATCHING" = true
  /\ HallucinationFilter.isHallucination b "Thanks!" = true
  /\ (forall text : string,
        HallucinationFilter.isHallucination b (HallucinationFilter.lower text)
        = HallucinationFilter.isHallucination b text).
Proof.
  split; [destruct b; vm_compute; reflexivity|].
  split; [destruct b; vm_compute; reflexivity|].
  split; [destruct b; vm_compute; reflexivity|].
  split; [destruct b; vm_compute; reflexivity|].
  split; [destruct b; vm_compute; reflexivity|].
  split; [destruct b; vm_compute; reflexivity|].
  apply FilterFacts.isHallucination_lower.
Qed.

(** C8: the filter is not applied to every text of the engine.  It
    rejects "Thanks for watching" in every build, and a chunk recognised
    as "Thanks for watching" adds nothing to the transcript; [main.cpp]
    filters each segment inside [transcribeWithWhisper], and the [_WIN32]
    branch of the other file each timestamped line, so that their final
    pass drops the phrase too.  The [#else] branch of
    [whisper_streaming_transcriber.cpp] has no filter in
    [transcribeWithWhisper], and [finalizeTranscription] appends the
    text of the final pass as it comes: in the cycle [closing_cycle] the
    remainder recognised as "Thanks for watching" is printed in the
    complete transcription, "hello Thanks for watching", counted as four
    words. *)
Theorem final_pass_appends_unfiltered_text :
  HallucinationFilter.isHallucination StreamingPosix "Thanks for watching"
  = true
  /\ contribution StreamingPosix
       (one_segment StreamingPosix "Thanks for watching") = ""
  /\ completions
       (log (run MainCpp (closing_engine MainCpp) closing_cycle initial))
     = [("hello", 1)]
  /\ completions
       (log (run StreamingWin32 (closing_engine StreamingWin32)
               closing_cycle initial))
     = [("hello", 1)]
  /\ completions
       (log (run StreamingPosix (closing_engine StreamingPosix)
               closing_cycle initial))
     = [("hello Thanks for watching", 4)]
  /\ map size
         (recognitions
            (log (run StreamingPosix (closing_engine StreamingPosix)
                    closing_cycle initial)))
     = [33090; 48000].
Proof.
  split; [vm_compute; reflexivity|].
  split; [vm_compute; reflexivity|].
  split; [vm_compute; reflexivity|].
  split; [vm_compute; reflexivity|].
  split; [vm_compute; reflexivity|].
  vm_compute; reflexivity.
Qed.

(** C9: on the empty chunk the gate answers "rejected" at once; the two
    quotients by the length of the chunk have no value there and are not
    evaluated, so the gate has an answer for every chunk. *)
Theorem empty_chunk_rejected_before_division :
  SpeechGate.hasSubstantialSpeech_body [] = Some false
  /\ SpeechGate.hasSubstantialSpeech [] = false
  /\ SpeechGate.mean_square [] = None
  /\ SpeechGate.speech_ratio [] = None
  /\ SpeechGate.unguarded_body [] = None
  /\ (forall audio_chunk : list Z,
        SpeechGate.hasSubstantialSpeech_body audio_chunk
        = Some (SpeechGate.hasSubstantialSpeech audio_chunk)).
Proof.
  repeat split; try reflexivity.
  intros audio_chunk. unfold SpeechGate.hasSubstantialSpeech.
  destruct (SpeechGate.hasSubstantialSpeech_body audio_chunk) eqn:E;
    [reflexivity|].
  now apply GateFacts.body_total in E.
Qed.

(** C10: a segment whose lowered text holds one of the listed phrases
    anywhere is rejected by the first check; "audio", "music",
    "transcript", "subscribe" and "thank you" are listed, so that "turn
    the audio up" and "play some music" add nothing to the transcript. *)
Theorem listed_phrase_anywhere_rejects
    (b : Build) (text phrase before after : string) :
  In phrase (HallucinationFilter.hallucinations b) ->
  HallucinationFilter.lower text = (before ++ phrase ++ after)%string ->
  HallucinationFilter.substring_check b (HallucinationFilter.lower text) = true
  /\ HallucinationFilter.isHallucination b text = true
  /\ incl ["audio"; "music"; "transcript"; "subscribe"; "thank you"]
          (HallucinationFilter.hallucinations b)
  /\ contribution b (one_segment b "turn the audio up") = ""
  /\ contribution b (one_segment b "play some music") = "".
Proof.
  intros Hin Hlow.
  assert (HallucinationFilter.substring_check b (HallucinationFilter.lower text)
          = true) as Hs.
  { apply (FilterFacts.substring_check_hit b phrase); [exact Hin|].
    rewrite Hlow. apply FilterFacts.contains_occurrence.
    now apply (FilterFacts.hallucinations_nonempty b). }
  split; [exact Hs|]. split.
  { unfold HallucinationFilter.isHallucination. now rewrite Hs. }
  split.
  { intros p Hp. cbn in Hp.
    repeat (destruct Hp as [<-|Hp]; [cbn; tauto|]). contradiction. }
  split; destruct b; vm_compute; reflexivity.
Qed.

(** The theorem at "Play some MUSIC please". *)
Lemma listed_phrase_anywhere_rejects_witness :
  In "music" (HallucinationFilter.hallucinations MainCpp)
  /\ HallucinationFilter.lower "Play some MUSIC please"
     = ("play some " ++ "music" ++ " please")%string
  /\ HallucinationFilter.isHallucination MainCpp "Play some MUSIC please" = true.
Proof.
  assert (In "music" (HallucinationFilter.hallucinations MainCpp)) as Hin
      by (cbn; tauto).
  assert (HallucinationFilter.lower "Play some MUSIC please"
          = ("play some " ++ "music" ++ " please")%string) as Hlow
      by reflexivity.
  split; [exact Hin|]. split; [exact Hlow|].
  exact (proj1 (proj2 (listed_phrase_anywhere_rejects
                         MainCpp "Play some MUSIC please" "music"
                         "play some " " please" Hin Hlow))).
Defined.

(** * Further properties of the code *)

(** ** The sessions that the loop reaches *)

Module IntFacts.

Lemma to_int_add (a n : Z) : to_int (to_int a + n) = to_int (a + n).
Proof.
  unfold to_int.
  replace ((a + 2 ^ 31) mod 2 ^ 32 - 2 ^ 31 + n + 2 ^ 31)
    with ((a + 2 ^ 31) mod 2 ^ 32 + n) by lia.
  rewrite Z.add_mod_idemp_l by lia.
  f_equal. f_equal. lia.
Qed.

Lemma to_int_in_range (x : Z) :
  INT_MIN <= x <= INT_MAX -> to_int x = x.
Proof.
  unfold INT_MIN, INT_MAX, to_int. intros R.
  rewrite Z.mod_small; lia.
Qed.

Lemma to_int_is_int (x : Z) : INT_MIN <= to_int x <= INT_MAX.
Proof.
  unfold INT_MIN, INT_MAX, to_int.
  pose proof (Z.mod_pos_bound (x + 2 ^ 31) (2 ^ 32) ltac:(lia)). lia.
Qed.

End IntFacts.

Section Reached.

Variable b : Build.
Variable engine : list Event -> list Z -> Engine.Outcome b.

Lemma run_keeps (P : Session -> Prop) :
  (forall s f, P s -> P (loop_body b engine s f)) ->
  forall frames s, P s -> P (run b engine frames s).
Proof.
  intros Step frames. unfold run.
  induction frames as [|f frames IH]; intros s H; cbn [fold_left]; auto.
Qed.

Lemma processAudioChunk_untouched (s : Session) :
  is_listening (processAudioChunk b engine s) = is_listening s
  /\ silence_counter (processAudioChunk b engine s) = silence_counter s
  /\ speech_counter (processAudioChunk b engine s) = speech_counter s
  /\ recorded_samples (processAudioChunk b engine s) = recorded_samples s
  /\ stream (processAudioChunk b engine s) = stream s
  /\ chunk_count s <= chunk_count (processAudioChunk b engine s).
Proof.
  unfold processAudioChunk, recognize.
  destruct (_ >=? _); [|repeat split; try reflexivity; lia].
  destruct (SpeechGate.hasSubstantialSpeech _); cbn [negb].
  - destruct (keeps_text b _); repeat split; try reflexivity;
      try (log_simpl; reflexivity); state_simpl; lia.
  - repeat split; try reflexivity; try (log_simpl; reflexivity); lia.
Qed.

Lemma finalizeTranscription_clears (s : Session) :
  audio_buffer (finalizeTranscription b engine s) = []
  /\ current_transcription (finalizeTranscription b engine s) = EmptyString
  /\ transcription_started (finalizeTranscription b engine s) = false
  /\ recorded_samples (finalizeTranscription b engine s) = 0
  /\ chunk_count (finalizeTranscription b engine s) = chunk_count s
  /\ silence_counter (finalizeTranscription b engine s) = silence_counter s
  /\ speech_counter (finalizeTranscription b engine s) = speech_counter s.
Proof.
  destruct (finalizeTranscription_state b engine s) as (H1 & _ & H3 & H4 & H5).
  repeat split; try assumption; reflexivity.
Qed.

(** The two ways out of a turn of the loop while listening: the cycle was
    stopped, or the session still listens and holds what the first three
    steps left. *)
Lemma listening_step_cases (f : Frame) (s : Session) :
  let s1 := drain b engine (classify b engine f (capture f s)) in
  (exists s0, listening_step b engine f s = stop b engine s0
              /\ silence_counter s0 = silence_counter s1
              /\ speech_counter s0 = speech_counter s1
              /\ chunk_count s0 = chunk_count s1)
  \/ (listening_step b engine f s = s1
      /\ silence_counter s1 < SILENCE_THRESHOLD
      /\ size (audio_buffer s1) <= MAX_LISTENING_SAMPLES).
Proof.
  intros s1. unfold listening_step, before_cutoff. fold s1.
  unfold silence_check.
  destruct (Z.geb_spec (silence_counter s1) SILENCE_THRESHOLD) as [G|G].
  - left. unfold cutoff_check.
    destruct (stop_state b engine s1) as (Hb & _).
    rewrite Hb. cbn. exists s1. auto.
  - unfold cutoff_check.
    destruct (Z.gtb_spec (size (audio_buffer s1)) MAX_LISTENING_SAMPLES).
    + left. exists s1. auto.
    + right. repeat split; [lia | lia].
Qed.

Lemma drained_state (f : Frame) (s : Session) :
  let s1 := drain b engine (classify b engine f (capture f s)) in
  is_listening s1 = is_listening s
  /\ recorded_samples s1 = to_int (recorded_samples s + size (samples f))
  /\ stream s1 = stream s ++ samples f
  /\ chunk_count s <= chunk_count s1
  /\ (vad_result f = -2 ->
      silence_counter s1 = silence_counter s + 1
      /\ speech_counter s1 = speech_counter s)
  /\ (vad_result f <> -2 ->
      silence_counter s1 = 0
      /\ speech_counter s1 = speech_counter s + 1).
Proof.
  intros s1.
  assert (stream (capture f s) = stream s ++ samples f) as Hst
      by (unfold capture; log_simpl; reflexivity).
  set (s0 := capture f s) in *.
  assert (is_listening (classify b engine f s0) = is_listening s
          /\ recorded_samples (classify b engine f s0)
             = to_int (recorded_samples s + size (samples f))
          /\ stream (classify b engine f s0) = stream s ++ samples f
          /\ chunk_count s <= chunk_count (classify b engine f s0)
          /\ (vad_result f = -2 ->
              silence_counter (classify b engine f s0) = silence_counter s + 1
              /\ speech_counter (classify b engine f s0) = speech_counter s)
          /\ (vad_result f <> -2 ->
              silence_counter (classify b engine f s0) = 0
              /\ speech_counter (classify b engine f s0) = speech_counter s + 1))
    as (C1 & C2 & C3 & C4 & C5 & C6).
  { unfold classify. destruct (Z.eqb_spec (vad_result f) (-2)) as [V|V].
    - repeat split; try reflexivity; try exact Hst; try (cbn; lia);
        intros; try contradiction; reflexivity.
    - set (s' := set_speech_counter _ _).
      assert (is_listening s' = is_listening s
              /\ recorded_samples s'
                 = to_int (recorded_samples s + size (samples f))
              /\ stream s' = stream s ++ samples f
              /\ chunk_count s' = chunk_count s
              /\ silence_counter s' = 0
              /\ speech_counter s' = speech_counter s + 1)
        as (A1 & A2 & A3 & A4 & A5 & A6)
          by (repeat split; try reflexivity; exact Hst).
      destruct (speech_counter s' >? _).
      + destruct (processAudioChunk_untouched s')
          as (P1 & P2 & P3 & P4 & P5 & P6).
        rewrite P1, P2, P3, P4, P5.
        repeat split; try assumption; try lia; intros; try contradiction;
          assumption.
      + repeat split; try assumption; try lia; intros; try contradiction;
          assumption. }
  subst s1. unfold drain.
  destruct (_ >=? _).
  - destruct (processAudioChunk_untouched (classify b engine f s0))
      as (P1 & P2 & P3 & P4 & P5 & P6).
    rewrite P1, P2, P3, P4, P5. intuition lia.
  - tauto.
Qed.

Lemma idle_step_state (f : Frame) (s : Session) :
  (detection_result f <= 0 ->
   is_listening (idle_step f s) = is_listening s
   /\ audio_buffer (idle_step f s) = audio_buffer s
   /\ current_transcription (idle_step f s) = current_transcription s
   /\ transcription_started (idle_step f s) = transcription_started s
   /\ recorded_samples (idle_step f s) = recorded_samples s
   /\ silence_counter (idle_step f s) = silence_counter s
   /\ speech_counter (idle_step f s) = speech_counter s
   /\ chunk_count (idle_step f s) = chunk_count s
   /\ log (idle_step f s) = log s)
  /\ (0 < detection_result f ->
      idle_step f s
      = mkSession [] true 0 0 EmptyString false 0 0 0 (EvHotword :: log s)).
Proof.
  unfold idle_step. split; intros H.
  - destruct (Z.gtb_spec (detection_result f) 0); [lia|].
    repeat split; reflexivity.
  - destruct (Z.gtb_spec (detection_result f) 0); [reflexivity | lia].
Qed.

Lemma loop_body_keeps_clean (s : Session) (f : Frame) :
  idle_is_clean s -> idle_is_clean (loop_body b engine s f).
Proof.
  intros C. unfold loop_body. destruct (is_listening s) eqn:L; cbn [negb].
  - destruct (listening_step_cases f s) as [(s0 & -> & _) | (-> & _)].
    + intros _. unfold stop.
      destruct (finalizeTranscription_clears s0) as (H1 & H2 & H3 & H4 & _).
      state_simpl. auto.
    + destruct (drained_state f s) as (H & _). intros E.
      cbv zeta in H. congruence.
  - destruct (idle_step_state f s) as [No Yes].
    destruct (Z.le_gt_cases (detection_result f) 0) as [D|D].
    + destruct (No D) as (H1 & H2 & H3 & H4 & H5 & _).
      intros E. rewrite H1 in E. destruct (C E) as (? & ? & ? & ?).
      rewrite H2, H3, H4, H5. auto.
    + rewrite (Yes ltac:(lia)). intros E. discriminate.
Qed.

Lemma loop_body_keeps_range (s : Session) (f : Frame) :
  counters_in_range s -> counters_in_range (loop_body b engine s f).
Proof.
  intros (R1 & R2 & R3 & R4).
  unfold loop_body. destruct (is_listening s) eqn:L; cbn [negb].
  - destruct (drained_state f s) as (D1 & _ & _ & D4 & D5 & D6).
    cbv zeta in D1, D4, D5, D6. specialize (R2 eq_refl).
    set (s1 := drain b engine (classify b engine f (capture f s))) in *.
    assert (0 <= silence_counter s1 <= SILENCE_THRESHOLD
            /\ 0 <= speech_counter s1) as (Q1 & Q2).
    { destruct (Z.eq_dec (vad_result f) (-2)) as [V|V].
      - destruct (D5 V) as [-> ->]. lia.
      - destruct (D6 V) as [-> ->]. unfold SILENCE_THRESHOLD. lia. }
    destruct (listening_step_cases f s)
      as [(s0 & -> & E1 & E2 & E3) | (-> & E1 & _)]; fold s1 in E1.
    + fold s1 in E2, E3.
      destruct (stop_state b engine s0) as (_ & Hl & Hs & Hp & _).
      unfold counters_in_range. rewrite Hl, Hs, Hp.
      assert (chunk_count (stop b engine s0) = chunk_count s0) as ->.
      { unfold stop. state_simpl.
        now destruct (finalizeTranscription_clears s0) as (_ & _ & _ & _ & -> & _). }
      repeat split; try lia; try discriminate.
    + unfold counters_in_range. fold s1. repeat split; try lia.
  - destruct (idle_step_state f s) as [No Yes].
    destruct (Z.le_gt_cases (detection_result f) 0) as [D|D].
    + destruct (No D) as (H1 & _ & _ & _ & _ & H6 & H7 & H8 & _).
      unfold counters_in_range. rewrite H1, H6, H7, H8, L.
      repeat split; try lia; try discriminate.
    + rewrite (Yes ltac:(lia)). unfold counters_in_range, SILENCE_THRESHOLD.
      cbn. repeat split; lia.
Qed.

End Reached.

Section ReachedMore.

Variable b : Build.
Variable engine : list Event -> list Z -> Engine.Outcome b.

Lemma loop_body_keeps_recorded (s : Session) (f : Frame) :
  (is_listening s = true -> recorded_samples s = to_int (size (stream s))) ->
  is_listening (loop_body b engine s f) = true ->
  recorded_samples (loop_body b engine s f)
  = to_int (size (stream (loop_body b engine s f))).
Proof.
  intros J. unfold loop_body. destruct (is_listening s) eqn:L; cbn [negb].
  - destruct (listening_step_cases b engine f s) as [(s0 & -> & _) | (-> & _)].
    + destruct (stop_state b engine s0) as (_ & -> & _). discriminate.
    + destruct (drained_state b engine f s) as (_ & D2 & D3 & _).
      cbv zeta in D2, D3. intros _.
      rewrite D2, D3, BufferFacts.size_app, (J eq_refl).
      apply IntFacts.to_int_add.
  - destruct (idle_step_state f s) as [No Yes].
    destruct (Z.le_gt_cases (detection_result f) 0) as [D|D].
    + destruct (No D) as (H1 & _). rewrite H1, L. discriminate.
    + rewrite (Yes ltac:(lia)). intros _. reflexivity.
Qed.

Lemma silent_frames_keep_idle (frames : list Frame) (s : Session) :
  Forall silent frames -> is_listening s = false ->
  is_listening (run b engine frames s) = false.
Proof.
  unfold run. revert s.
  induction frames as [|f frames IH]; intros s F L; cbn [fold_left]; [exact L|].
  apply Forall_cons_iff in F as [[_ D] F].
  apply IH; [exact F|].
  unfold loop_body. rewrite L. cbn [negb].
  destruct (idle_step_state f s) as [No _].
  destruct (No D) as (-> & _). exact L.
Qed.

Lemma silent_turn (s : Session) (f : Frame) :
  is_listening s = true -> vad_result f = -2 ->
  is_listening (loop_body b engine s f) = false
  \/ (is_listening (loop_body b engine s f) = true
      /\ silence_counter (loop_body b engine s f) = silence_counter s + 1
      /\ silence_counter s + 1 < SILENCE_THRESHOLD).
Proof.
  intros L V. unfold loop_body. rewrite L. cbn [negb].
  destruct (listening_step_cases b engine f s) as [(s0 & -> & _) | (-> & E & _)].
  - left. now destruct (stop_state b engine s0) as (_ & -> & _).
  - right. destruct (drained_state b engine f s) as (D1 & _ & _ & _ & D5 & _).
    cbv zeta in D1, D5. destruct (D5 V) as [Hs _].
    rewrite D1, Hs in *. auto.
Qed.

End ReachedMore.

(** X1: an idle session holds nothing of the last cycle. In every run of the
    loop, when the session is not listening its audio buffer and its
    transcript are empty, no transcription has started and no sample counts
    as recorded: [finalizeTranscription] clears the four of them before
    [is_listening] is reset, and nothing writes them before the next
    hotword. *)
Theorem idle_session_holds_nothing
    (b : Build) (engine : list Event -> list Z -> Engine.Outcome b)
    (frames : list Frame) :
  is_listening (run b engine frames initial) = false ->
  audio_buffer (run b engine frames initial) = []
  /\ current_transcription (run b engine frames initial) = EmptyString
  /\ transcription_started (run b engine frames initial) = false
  /\ recorded_samples (run b engine frames initial) = 0.
Proof.
  apply (run_keeps b engine idle_is_clean (loop_body_keeps_clean b engine)).
  intros _. repeat split; reflexivity.
Qed.

(** The theorem after a cycle that ended in silence. *)
Lemma idle_session_holds_nothing_witness :
  is_listening (run MainCpp hello_main short_cycle initial) = false
  /\ audio_buffer (run MainCpp hello_main short_cycle initial) = []
  /\ current_transcription (run MainCpp hello_main short_cycle initial)
     = EmptyString.
Proof.
  assert (is_listening (run MainCpp hello_main short_cycle initial) = false)
    as L by (vm_compute; reflexivity).
  pose proof (idle_session_holds_nothing MainCpp hello_main short_cycle L) as T.
  split; [exact L|]. split; [exact (proj1 T) | exact (proj1 (proj2 T))].
Defined.

(** X2: while the session listens, [silence_counter] is at least 0 and below
    [SILENCE_THRESHOLD], and [speech_counter] and [chunk_count] are not
    negative: the turn of the loop in which the counter reaches the
    threshold ends the cycle. *)
Theorem silence_counter_below_threshold
    (b : Build) (engine : list Event -> list Z -> Engine.Outcome b)
    (frames : list Frame) :
  is_listening (run b engine frames initial) = true ->
  0 <= silence_counter (run b engine frames initial) < SILENCE_THRESHOLD
  /\ 0 <= speech_counter (run b engine frames initial)
  /\ 0 <= chunk_count (run b engine frames initial).
Proof.
  intros L.
  destruct (run_keeps b engine counters_in_range
              (loop_body_keeps_range b engine) frames initial)
    as (R1 & R2 & R3 & R4).
  { unfold counters_in_range, SILENCE_THRESHOLD. cbn.
    repeat split; try lia; try discriminate. }
  specialize (R2 L). lia.
Qed.

(** The theorem in a session that took two chunks. *)
Lemma silence_counter_below_threshold_witness :
  is_listening (run MainCpp hello_main sent_then_rejected initial) = true
  /\ 0 <= silence_counter (run MainCpp hello_main sent_then_rejected initial)
     < SILENCE_THRESHOLD.
Proof.
  assert (is_listening (run MainCpp hello_main sent_then_rejected initial)
          = true) as L by (vm_compute; reflexivity).
  split; [exact L|].
  exact (proj1 (silence_counter_below_threshold
                  MainCpp hello_main sent_then_rejected L)).
Defined.

(** X3: a listening session whose [silence_counter] is [n] is idle after
    [SILENCE_THRESHOLD - n] further frames that the classifier takes for
    silence and on which the detector does not fire, whatever their samples
    are and whatever the engine answers. *)
Theorem silence_ends_the_cycle
    (b : Build) (engine : list Event -> list Z -> Engine.Outcome b)
    (s : Session) (frames : list Frame) :
  is_listening s = true ->
  0 <= silence_counter s < SILENCE_THRESHOLD ->
  Forall silent frames ->
  Z.of_nat (List.length frames) = SILENCE_THRESHOLD - silence_counter s ->
  is_listening (run b engine frames s) = false.
Proof.
  revert s. induction frames as [|f frames IH]; intros s L R F N.
  - cbn [List.length] in N. lia.
  - pose proof F as F0. apply Forall_cons_iff in F as [[V D] F].
    change (run b engine (f :: frames) s)
      with (run b engine frames (loop_body b engine s f)).
    destruct (silent_turn b engine s f L V) as [I | (L' & S' & B')].
    + now apply silent_frames_keep_idle.
    + apply IH; try assumption.
      * lia.
      * rewrite S'. cbn [List.length] in N. lia.
Qed.

(** The theorem at thirty quiet frames after one frame of speech. *)
Lemma silence_ends_the_cycle_witness :
  is_listening after_speech = true
  /\ 0 <= silence_counter after_speech < SILENCE_THRESHOLD
  /\ Forall silent (repeat quiet_frame 30)
  /\ Z.of_nat (List.length (repeat quiet_frame 30))
     = SILENCE_THRESHOLD - silence_counter after_speech
  /\ is_listening (run MainCpp hello_main (repeat quiet_frame 30) after_speech)
     = false.
Proof.
  assert (is_listening after_speech = true) as L by reflexivity.
  assert (0 <= silence_counter after_speech < SILENCE_THRESHOLD) as R
      by (vm_compute; split; [discriminate | reflexivity]).
  assert (Forall silent (repeat quiet_frame 30)) as F.
  { apply Forall_forall. intros f Hf. apply repeat_spec in Hf. subst f.
    split; [reflexivity | cbn; lia]. }
  assert (Z.of_nat (List.length (repeat quiet_frame 30))
          = SILENCE_THRESHOLD - silence_counter after_speech) as N
      by reflexivity.
  split; [exact L|]. split; [exact R|]. split; [exact F|]. split; [exact N|].
  exact (silence_ends_the_cycle MainCpp hello_main after_speech
           (repeat quiet_frame 30) L R F N).
Defined.

(** X4: while the session listens, [recorded_samples] is the number of
    samples captured since the hotword, whether they are still in the buffer
    or were erased with a chunk, converted to [int]: it is that number as
    long as the number is at most [INT_MAX], and the number wrapped into
    the range of [int] beyond. *)
Theorem recorded_samples_counts_capture
    (b : Build) (engine : list Event -> list Z -> Engine.Outcome b)
    (frames : list Frame) :
  is_listening (run b engine frames initial) = true ->
  recorded_samples (run b engine frames initial)
  = to_int (size (stream (run b engine frames initial)))
  /\ INT_MIN <= recorded_samples (run b engine frames initial) <= INT_MAX
  /\ (size (stream (run b engine frames initial)) <= INT_MAX ->
      recorded_samples (run b engine frames initial)
      = size (stream (run b engine frames initial))).
Proof.
  intros L.
  assert (recorded_samples (run b engine frames initial)
          = to_int (size (stream (run b engine frames initial)))) as E.
  { revert L.
    apply (run_keeps b engine
             (fun s => is_listening s = true ->
                       recorded_samples s = to_int (size (stream s)))).
    - intros s f J. now apply loop_body_keeps_recorded.
    - discriminate. }
  split; [exact E|]. split.
  - rewrite E. apply IntFacts.to_int_is_int.
  - intros B. rewrite E. apply IntFacts.to_int_in_range.
    unfold INT_MIN, size in *. lia.
Qed.

(** The theorem in a session that took two chunks. *)
Lemma recorded_samples_counts_capture_witness :
  is_listening (run MainCpp hello_main sent_then_rejected initial) = true
  /\ size (stream (run MainCpp hello_main sent_then_rejected initial))
     <= INT_MAX
  /\ recorded_samples (run MainCpp hello_main sent_then_rejected initial)
     = size (stream (run MainCpp hello_main sent_then_rejected initial)).
Proof.
  assert (is_listening (run MainCpp hello_main sent_then_rejected initial)
          = true) as L by (vm_compute; reflexivity).
  assert (size (stream (run MainCpp hello_main sent_then_rejected initial))
          <= INT_MAX) as B by (vm_compute; discriminate).
  split; [exact L|]. split; [exact B|].
  exact (proj2 (proj2 (recorded_samples_counts_capture
                         MainCpp hello_main sent_then_rejected L)) B).
Defined.

(** X5: while the session listens, a turn of the loop on a frame that the
    classifier does not take for silence leaves [silence_counter] at 0 and
    adds 1 to [speech_counter], whichever of the later steps of the turn run
    (chunks taken, the cut-off). *)
Theorem speech_frame_counts
    (b : Build) (engine : list Event -> list Z -> Engine.Outcome b)
    (s : Session) (f : Frame) :
  is_listening s = true ->
  vad_result f <> -2 ->
  silence_counter (loop_body b engine s f) = 0
  /\ speech_counter (loop_body b engine s f) = speech_counter s + 1.
Proof.
  intros L V. unfold loop_body. rewrite L. cbn [negb].
  destruct (drained_state b engine f s) as (_ & _ & _ & _ & _ & D6).
  cbv zeta in D6. destruct (D6 V) as [D S].
  destruct (listening_step_cases b engine f s)
    as [(s0 & -> & E1 & E2 & _) | (-> & _)].
  - destruct (stop_state b engine s0) as (_ & _ & -> & -> & _).
    rewrite E1, E2. auto.
  - auto.
Qed.

(** The theorem at a frame of two samples. *)
Lemma speech_frame_counts_witness :
  is_listening after_speech = true
  /\ vad_result (speech_frame [5; 6]) <> -2
  /\ silence_counter
       (loop_body MainCpp hello_main after_speech (speech_frame [5; 6])) = 0
  /\ speech_counter
       (loop_body MainCpp hello_main after_speech (speech_frame [5; 6]))
     = speech_counter after_speech + 1.
Proof.
  assert (is_listening after_speech = true) as L by reflexivity.
  assert (vad_result (speech_frame [5; 6]) <> -2) as V by discriminate.
  split; [exact L|]. split; [exact V|].
  exact (speech_frame_counts MainCpp hello_main after_speech
           (speech_frame [5; 6]) L V).
Defined.

Module TextFacts.

Lemma append_nonempty (a c : string) :
  c <> EmptyString -> (a ++ c)%string <> EmptyString.
Proof. destruct a; cbn; [auto | discriminate]. Qed.

Lemma ends_with_space_append (a c : string) :
  ends_with_space c = true -> ends_with_space (a ++ c) = true.
Proof.
  intros H. induction a as [|x a IH]; [exact H|].
  cbn [String.append]. destruct (a ++ c)%string eqn:E; [discriminate IH|].
  exact IH.
Qed.

Lemma ends_with_space_snoc (t : string) :
  ends_with_space (t ++ " ") = true.
Proof. apply ends_with_space_append. reflexivity. Qed.

End TextFacts.

Section ReachedCalls.

Variable b : Build.
Variable engine : list Event -> list Z -> Engine.Outcome b.

Lemma processAudioChunk_log (s : Session) :
  log (processAudioChunk b engine s) = chunk_events b s ++ log s.
Proof.
  unfold processAudioChunk, chunk_events, recognize.
  destruct (Z.geb_spec (size (audio_buffer s)) TRANSCRIPTION_CHUNK_SIZE);
    destruct (Z.leb_spec TRANSCRIPTION_CHUNK_SIZE (size (audio_buffer s)));
    try lia; [|reflexivity].
  destruct (SpeechGate.hasSubstantialSpeech _); cbn [negb]; [|reflexivity].
  replace (chunk_count s =? 0) with (chunk_count s + 1 =? 1)
    by (destruct (Z.eqb_spec (chunk_count s) 0);
        destruct (Z.eqb_spec (chunk_count s + 1) 1); lia || reflexivity).
  destruct (keeps_text b _); reflexivity.
Qed.

Lemma processAudioChunk_transcript (s : Session) :
  (current_transcription (processAudioChunk b engine s)
   = current_transcription s
   /\ transcription_started (processAudioChunk b engine s)
      = transcription_started s)
  \/ (exists text,
        current_transcription (processAudioChunk b engine s)
        = (current_transcription s ++ (text ++ " "))%string
        /\ transcription_started (processAudioChunk b engine s) = true).
Proof.
  unfold processAudioChunk, recognize.
  destruct (_ >=? _); [|left; split; reflexivity].
  destruct (SpeechGate.hasSubstantialSpeech _); cbn [negb];
    [|left; split; reflexivity].
  destruct (keeps_text b _).
  - right. eexists. split; reflexivity.
  - left. split; reflexivity.
Qed.

Lemma processAudioChunk_keeps_started (s : Session) :
  transcript_started s -> transcript_started (processAudioChunk b engine s).
Proof.
  intros K.
  destruct (processAudioChunk_transcript s) as [[E1 E2] | (text & E1 & E2)];
    unfold transcript_started; rewrite E1, E2; [exact K|].
  split.
  - split; [intros _ | reflexivity].
    apply TextFacts.append_nonempty. destruct text; discriminate.
  - right. apply TextFacts.ends_with_space_append,
             TextFacts.ends_with_space_snoc.
Qed.

Lemma loop_body_keeps_started (s : Session) (f : Frame) :
  transcript_started s -> transcript_started (loop_body b engine s f).
Proof.
  intros K.
  assert (transcript_started (mkSession [] true 0 0 EmptyString false 0 0 0
                                (EvHotword :: log s))) as K0.
  { split; cbn; [split; [discriminate | congruence] | now left]. }
  unfold loop_body. destruct (is_listening s) eqn:L; cbn [negb].
  - destruct (listening_step_cases b engine f s) as [(s0 & -> & _) | (-> & _)].
    + unfold stop, transcript_started. state_simpl.
      destruct (finalizeTranscription_clears b engine s0) as (_ & -> & -> & _).
      split; [split; [discriminate | congruence] | now left].
    + assert (transcript_started (classify b engine f (capture f s))) as K1.
      { unfold classify. destruct (vad_result f =? -2); [exact K|].
        destruct (_ >? _); [|exact K].
        now apply processAudioChunk_keeps_started. }
      unfold drain. destruct (_ >=? _); [|exact K1].
      now apply processAudioChunk_keeps_started.
  - destruct (idle_step_state f s) as [No Yes].
    destruct (Z.le_gt_cases (detection_result f) 0) as [D|D].
    + destruct (No D) as (_ & _ & H3 & H4 & _).
      unfold transcript_started. rewrite H3, H4. exact K.
    + rewrite (Yes ltac:(lia)). exact K0.
Qed.

Lemma calls_are_long_app (new l : list Event) :
  calls_are_long new -> calls_are_long l -> calls_are_long (new ++ l).
Proof.
  unfold calls_are_long. rewrite LogFacts.recognitions_app.
  intros. now apply Forall_app.
Qed.

Lemma chunk_events_long (s : Session) : calls_are_long (chunk_events b s).
Proof.
  unfold chunk_events, calls_are_long.
  destruct (Z.leb_spec TRANSCRIPTION_CHUNK_SIZE (size (audio_buffer s)));
    [|constructor].
  destruct (SpeechGate.hasSubstantialSpeech _);
    cbn [recognitions flat_map app]; [|constructor].
  constructor; [|constructor].
  rewrite BufferFacts.size_front; unfold TRANSCRIPTION_CHUNK_SIZE in *;
    [reflexivity || (cbn; lia) | lia].
Qed.

Lemma final_events_long (s : Session) : calls_are_long (final_events b engine s).
Proof.
  unfold final_events, calls_are_long. rewrite LogFacts.recognitions_app.
  apply Forall_app. split.
  - destruct (transcription_started s); constructor.
  - destruct (final_pass_due s) eqn:E; cbn [recognitions flat_map app];
      [|constructor].
    constructor; [|constructor].
    unfold final_pass_due in E. rewrite !andb_true_iff in E.
    destruct E as [_ E]. now apply Z.leb_le in E.
Qed.

Lemma loop_body_keeps_calls_long (s : Session) (f : Frame) :
  calls_are_long (log s) -> calls_are_long (log (loop_body b engine s f)).
Proof.
  intros P.
  assert (forall s0, calls_are_long (log s0) ->
                     calls_are_long (log (processAudioChunk b engine s0))) as PA.
  { intros s0 P0. rewrite processAudioChunk_log.
    apply calls_are_long_app; [apply chunk_events_long | exact P0]. }
  assert (forall s0, calls_are_long (log s0) ->
                     calls_are_long (log (stop b engine s0))) as ST.
  { intros s0 P0. unfold stop. state_simpl.
    rewrite finalizeTranscription_log.
    apply (calls_are_long_app (EvIdle :: final_events b engine s0));
      [|exact P0].
    apply (final_events_long s0). }
  unfold loop_body. destruct (is_listening s); cbn [negb].
  - unfold listening_step, before_cutoff.
    assert (calls_are_long (log (capture f s))) as P1 by exact P.
    assert (calls_are_long (log (classify b engine f (capture f s)))) as P2.
    { unfold classify. destruct (vad_result f =? -2); [exact P1|].
      destruct (_ >? _); [|exact P1]. apply PA. exact P1. }
    assert (calls_are_long
              (log (drain b engine (classify b engine f (capture f s))))) as P3.
    { unfold drain. destruct (_ >=? _); [now apply PA | exact P2]. }
    assert (calls_are_long
              (log (silence_check b engine
                      (drain b engine (classify b engine f (capture f s))))))
      as P4.
    { unfold silence_check. destruct (_ >=? _); [now apply ST | exact P3]. }
    unfold cutoff_check. destruct (_ >? _); [now apply ST | exact P4].
  - unfold idle_step. destruct (_ >? _); exact P.
Qed.

End ReachedCalls.

Section ReachedBuffer.

Variable b : Build.
Variable engine : list Event -> list Z -> Engine.Outcome b.

Lemma overlaps_below_skipped :
  0 <= first_overlap b <= skipped_overlap b
  /\ 0 <= later_overlap b <= skipped_overlap b
  /\ 0 <= skipped_overlap b < TRANSCRIPTION_CHUNK_SIZE.
Proof. destruct b; vm_compute; intuition discriminate. Qed.

Lemma processAudioChunk_buffer (s : Session) :
  (size (audio_buffer s) < TRANSCRIPTION_CHUNK_SIZE
   /\ audio_buffer (processAudioChunk b engine s) = audio_buffer s)
  \/ (TRANSCRIPTION_CHUNK_SIZE <= size (audio_buffer s)
      /\ exists overlap,
           0 <= overlap <= skipped_overlap b
           /\ size (audio_buffer (processAudioChunk b engine s))
              = size (audio_buffer s) - (TRANSCRIPTION_CHUNK_SIZE - overlap)).
Proof.
  pose proof overlaps_below_skipped as (O1 & O2 & O3).
  unfold processAudioChunk, recognize.
  destruct (Z.geb_spec (size (audio_buffer s)) TRANSCRIPTION_CHUNK_SIZE);
    [right; split; [lia|] | left; split; [lia | reflexivity]].
  destruct (SpeechGate.hasSubstantialSpeech _); cbn [negb].
  - destruct (keeps_text b _); state_simpl;
      destruct (_ =? 1);
      (eexists; split; [|apply BufferFacts.size_erase_front; lia]); lia.
  - state_simpl. exists (skipped_overlap b).
    split; [lia | apply BufferFacts.size_erase_front; lia].
Qed.

Lemma loop_body_keeps_buffer_short (s : Session) (f : Frame) :
  short_frame b f ->
  size (audio_buffer s) < TRANSCRIPTION_CHUNK_SIZE ->
  size (audio_buffer (loop_body b engine s f)) < TRANSCRIPTION_CHUNK_SIZE.
Proof.
  intros F B. unfold short_frame in F.
  pose proof overlaps_below_skipped as (O1 & O2 & O3).
  unfold loop_body. destruct (is_listening s) eqn:L; cbn [negb].
  - destruct (listening_step_cases b engine f s) as [(s0 & -> & _) | (-> & _)].
    + unfold stop. state_simpl.
      destruct (finalizeTranscription_clears b engine s0) as (-> & _).
      vm_compute. reflexivity.
    + assert (size (audio_buffer (capture f s))
              = size (audio_buffer s) + size (samples f)) as C
          by (unfold capture; state_simpl; apply BufferFacts.size_app).
      set (s1 := capture f s) in *.
      assert (size (audio_buffer (classify b engine f s1))
              < TRANSCRIPTION_CHUNK_SIZE
              \/ audio_buffer (classify b engine f s1) = audio_buffer s1) as K.
      { unfold classify. destruct (vad_result f =? -2); [right; reflexivity|].
        destruct (_ >? _); [|right; reflexivity].
        match goal with
        | |- context [processAudioChunk b engine ?t] =>
            destruct (processAudioChunk_buffer t) as [[_ E] | (G & ov & Ov & E)];
              change (audio_buffer t) with (audio_buffer s1) in *
        end.
        - right. exact E.
        - left. rewrite E. lia. }
      set (s2 := classify b engine f s1) in *.
      unfold drain.
      destruct (Z.geb_spec (size (audio_buffer s2)) TRANSCRIPTION_CHUNK_SIZE)
        as [G|G]; [|lia].
      destruct K as [K|K]; [lia|].
      destruct (processAudioChunk_buffer s2) as [[G' _] | (_ & ov & Ov & E)];
        [lia|].
      rewrite E, K. lia.
  - destruct (idle_step_state f s) as [No Yes].
    destruct (Z.le_gt_cases (detection_result f) 0) as [D|D].
    + destruct (No D) as (_ & -> & _). exact B.
    + rewrite (Yes ltac:(lia)). vm_compute. reflexivity.
Qed.

End ReachedBuffer.

(** X6: in every run of the loop [transcription_started] is set exactly when
    [current_transcription] is not empty, and a transcript that is not empty
    ends with the space that [processAudioChunk] puts after each recognised
    text. *)
Theorem transcript_nonempty_iff_started
    (b : Build) (engine : list Event -> list Z -> Engine.Outcome b)
    (frames : list Frame) :
  (transcription_started (run b engine frames initial) = true
   <-> current_transcription (run b engine frames initial) <> EmptyString)
  /\ (current_transcription (run b engine frames initial) = EmptyString
      \/ ends_with_space (current_transcription (run b engine frames initial))
         = true).
Proof.
  apply (run_keeps b engine transcript_started
           (loop_body_keeps_started b engine)).
  split; cbn; [split; [discriminate | congruence] | now left].
Qed.

(** X7: every audio that a run of the loop hands to the recognition engine
    holds at least [TRANSCRIPTION_CHUNK_SIZE / 2] samples: a chunk has the
    full size, and the final pass is skipped for a shorter remainder. *)
Theorem engine_audio_at_least_half_chunk
    (b : Build) (engine : list Event -> list Z -> Engine.Outcome b)
    (frames : list Frame) :
  Forall (fun audio => TRANSCRIPTION_CHUNK_SIZE ÷ 2 <= size audio)
         (recognitions (log (run b engine frames initial))).
Proof.
  apply (run_keeps b engine (fun s => calls_are_long (log s))
           (loop_body_keeps_calls_long b engine)).
  constructor.
Qed.

(** X8: when no frame holds more than a chunk less the overlap kept from a
    rejected chunk (42000 samples in [main.cpp], 36000 in the other file),
    the buffer holds less than a chunk after every turn of the loop: a full
    chunk is taken in the turn that completes it, so the buffer stays far
    below [MAX_LISTENING_SAMPLES]. *)
Theorem short_frames_keep_buffer_below_chunk
    (b : Build) (engine : list Event -> list Z -> Engine.Outcome b)
    (frames : list Frame) :
  Forall (short_frame b) frames ->
  size (audio_buffer (run b engine frames initial)) < TRANSCRIPTION_CHUNK_SIZE.
Proof.
  intros F.
  assert (size (audio_buffer initial) < TRANSCRIPTION_CHUNK_SIZE) as B
      by (vm_compute; reflexivity).
  revert B. generalize initial. unfold run.
  induction F as [|f frames Hf F IH]; intros s B; cbn [fold_left]; [exact B|].
  apply IH. now apply loop_body_keeps_buffer_short.
Qed.

(** The theorem at four seconds of frames of 2048 samples. *)
Lemma short_frames_keep_buffer_below_chunk_witness :
  Forall (short_frame MainCpp) steady_speech
  /\ size (audio_buffer (run MainCpp hello_main steady_speech initial))
     < TRANSCRIPTION_CHUNK_SIZE.
Proof.
  assert (Forall (short_frame MainCpp) steady_speech) as F.
  { constructor; [vm_compute; discriminate|].
    apply Forall_forall. intros f Hf. apply repeat_spec in Hf. subst f.
    vm_compute. discriminate. }
  split; [exact F|].
  exact (short_frames_keep_buffer_below_chunk MainCpp hello_main steady_speech F).
Defined.

(** ** The speech gate, sample by sample *)

Module GateMore.
Import SpeechGate.

Lemma size_cons (x : Z) (l : list Z) : size (x :: l) = 1 + size l.
Proof. unfold size. cbn [List.length]. lia. Qed.

Lemma speech_samples_quiet (l : list Z) :
  Forall (fun x => Z.abs x <= SPEECH_THRESHOLD) l -> speech_samples l = 0.
Proof.
  induction 1 as [|x l Hx _ IH]; [reflexivity|].
  rewrite GateFacts.speech_samples_cons, IH.
  destruct (Z.gtb_spec (Z.abs x) SPEECH_THRESHOLD); lia.
Qed.

Lemma loud_counts (l : list Z) :
  Forall (fun x => SPEECH_THRESHOLD < Z.abs x) l ->
  speech_samples l = size l /\ 40000 * size l <= sum_squares l.
Proof.
  induction 1 as [|x l Hx _ [IH1 IH2]]; [split; reflexivity|].
  rewrite GateFacts.speech_samples_cons, GateFacts.sum_squares_cons, size_cons.
  unfold SPEECH_THRESHOLD in Hx.
  destruct (Z.gtb_spec (Z.abs x) SPEECH_THRESHOLD);
    unfold SPEECH_THRESHOLD in *; [|lia].
  split; [lia|].
  assert (200 * 200 <= Z.abs x * Z.abs x) by nia.
  rewrite <- Z.abs_square. lia.
Qed.

Lemma counts_of_permutation (l l' : list Z) :
  Permutation l l' ->
  size l = size l' /\ sum_squares l = sum_squares l'
  /\ speech_samples l = speech_samples l'.
Proof.
  induction 1 as [| x l l' _ (I1 & I2 & I3) | x y l
                  | l l' l'' _ (I1 & I2 & I3) _ (J1 & J2 & J3)].
  - repeat split.
  - rewrite !size_cons, !GateFacts.sum_squares_cons, !GateFacts.speech_samples_cons.
    repeat split; congruence.
  - rewrite !size_cons, !GateFacts.sum_squares_cons, !GateFacts.speech_samples_cons.
    repeat split; lia.
  - repeat split; congruence.
Qed.

Lemma gate_of_counts (l l' : list Z) :
  size l = size l' -> sum_squares l = sum_squares l' ->
  speech_samples l = speech_samples l' ->
  hasSubstantialSpeech l = hasSubstantialSpeech l'.
Proof.
  intros E1 E2 E3.
  destruct l as [|x l], l' as [|x' l']; try reflexivity;
    try (exfalso; rewrite size_cons in E1; unfold size in E1;
         cbn [List.length] in E1; lia).
  unfold hasSubstantialSpeech, hasSubstantialSpeech_body,
    mean_square, speech_ratio.
  now rewrite E1, E2, E3.
Qed.

End GateMore.

(** X10: a chunk with no sample above [SPEECH_THRESHOLD] in absolute value
    is rejected by [hasSubstantialSpeech], however large its RMS is. *)
Theorem gate_rejects_without_loud_sample (audio_chunk : list Z) :
  Forall (fun sample => Z.abs sample <= SpeechGate.SPEECH_THRESHOLD)
         audio_chunk ->
  SpeechGate.hasSubstantialSpeech audio_chunk = false.
Proof.
  intros Q. destruct audio_chunk as [|x l]; [reflexivity|].
  destruct (SpeechGate.hasSubstantialSpeech (x :: l)) eqn:E; [|reflexivity].
  apply GateFacts.gate_decision in E; [|discriminate].
  rewrite (GateMore.speech_samples_quiet _ Q) in E.
  destruct (GateFacts.size_cons_pos x l) as [p Hp]. lia.
Qed.

(** The theorem at a constant signal of 200, whose RMS is 200. *)
Lemma gate_rejects_without_loud_sample_witness :
  Forall (fun sample => Z.abs sample <= SpeechGate.SPEECH_THRESHOLD)
         (repeat 200 64)
  /\ SpeechGate.hasSubstantialSpeech (repeat 200 64) = false.
Proof.
  assert (Forall (fun sample => Z.abs sample <= SpeechGate.SPEECH_THRESHOLD)
                 (repeat 200 64)) as Q.
  { apply Forall_forall. intros x Hx. apply repeat_spec in Hx. subst x.
    vm_compute. discriminate. }
  split; [exact Q|].
  exact (gate_rejects_without_loud_sample (repeat 200 64) Q).
Defined.

(** X11: a chunk that is not empty and whose samples are all above
    [SPEECH_THRESHOLD] in absolute value is accepted by
    [hasSubstantialSpeech]: such a chunk passes the test of the RMS as well.
    *)
Theorem gate_accepts_loud_audio (audio_chunk : list Z) :
  audio_chunk <> [] ->
  Forall (fun sample => SpeechGate.SPEECH_THRESHOLD < Z.abs sample)
         audio_chunk ->
  SpeechGate.hasSubstantialSpeech audio_chunk = true.
Proof.
  intros N L. apply GateFacts.gate_decision; [exact N|].
  destruct (GateMore.loud_counts _ L) as [E1 E2].
  assert (0 <= SpeechGate.size audio_chunk)
    by (unfold SpeechGate.size; lia).
  lia.
Qed.

(** The theorem at two samples. *)
Lemma gate_accepts_loud_audio_witness :
  [201; -32768] <> []
  /\ Forall (fun sample => SpeechGate.SPEECH_THRESHOLD < Z.abs sample)
            [201; -32768]
  /\ SpeechGate.hasSubstantialSpeech [201; -32768] = true.
Proof.
  assert ([201; -32768] <> []) as N by discriminate.
  assert (Forall (fun sample => SpeechGate.SPEECH_THRESHOLD < Z.abs sample)
                 [201; -32768]) as L
      by (repeat constructor).
  split; [exact N|]. split; [exact L|].
  exact (gate_accepts_loud_audio [201; -32768] N L).
Defined.

(** X12: the answer of [hasSubstantialSpeech] does not depend on the order
    of the samples of the chunk. *)
Theorem gate_ignores_sample_order (audio_chunk reordered : list Z) :
  Permutation audio_chunk reordered ->
  SpeechGate.hasSubstantialSpeech reordered
  = SpeechGate.hasSubstantialSpeech audio_chunk.
Proof.
  intros P. destruct (GateMore.counts_of_permutation _ _ P) as (E1 & E2 & E3).
  symmetry. now apply GateMore.gate_of_counts.
Qed.

(** The theorem at a rotation of three samples. *)
Lemma gate_ignores_sample_order_witness :
  Permutation [300; 0; -250] [0; -250; 300]
  /\ SpeechGate.hasSubstantialSpeech [0; -250; 300]
     = SpeechGate.hasSubstantialSpeech [300; 0; -250].
Proof.
  assert (Permutation [300; 0; -250] [0; -250; 300]) as P.
  { apply (Permutation_cons_app [0; -250] []). apply Permutation_refl. }
  split; [exact P|].
  exact (gate_ignores_sample_order [300; 0; -250] [0; -250; 300] P).
Defined.

(** ** Trimming, cleaning and joining text *)

Module TrimFacts.

Lemma append_assoc (a c d : string) :
  ((a ++ c) ++ d)%string = (a ++ (c ++ d))%string.
Proof. induction a as [|x a IH]; cbn; [reflexivity | now rewrite IH]. Qed.

Lemma append_nil_r (a : string) : (a ++ "")%string = a.
Proof. induction a as [|x a IH]; cbn; [reflexivity | now rewrite IH]. Qed.

Lemma empty_iff (s : string) : Str.empty s = true <-> s = EmptyString.
Proof. destruct s; cbn; split; congruence. Qed.

Lemma drop_leading_split (set s : string) :
  exists lead,
    s = (lead ++ Str.drop_leading set s)%string /\ all_of set lead = true.
Proof.
  induction s as [|c s (lead & E & A)].
  - exists EmptyString. split; reflexivity.
  - cbn [Str.drop_leading]. destruct (Str.mem c set) eqn:M.
    + exists (String c lead). cbn [String.append all_of].
      rewrite M, A, <- E. split; reflexivity.
    + exists EmptyString. split; reflexivity.
Qed.

Lemma drop_leading_head (set s : string) (c : ascii) :
  head_byte (Str.drop_leading set s) = Some c -> Str.mem c set = false.
Proof.
  induction s as [|d s IH]; cbn [Str.drop_leading]; [discriminate|].
  destruct (Str.mem d set) eqn:M; [exact IH|].
  cbn. intros [= <-]. exact M.
Qed.

Lemma drop_trailing_split (set s : string) :
  exists trail,
    s = (Str.drop_trailing set s ++ trail)%string /\ all_of set trail = true.
Proof.
  induction s as [|c s (trail & E & A)].
  - exists EmptyString. split; reflexivity.
  - cbn [Str.drop_trailing]. destruct (Str.drop_trailing set s) eqn:D.
    + destruct (Str.mem c set) eqn:M.
      * exists (String c s). split; [reflexivity|].
        cbn [all_of]. rewrite M. cbn in E. rewrite E. exact A.
      * exists trail. cbn in E. cbn. split; [now rewrite <- E | exact A].
    + exists trail. cbn [String.append]. cbn [String.append] in E.
      split; [now rewrite <- E | exact A].
Qed.

Lemma drop_trailing_last (set s : string) (c : ascii) :
  last_byte (Str.drop_trailing set s) = Some c -> Str.mem c set = false.
Proof.
  induction s as [|d s IH]; cbn [Str.drop_trailing]; [discriminate|].
  destruct (Str.drop_trailing set s) eqn:D.
  - destruct (Str.mem d set) eqn:M; cbn; [discriminate|].
    intros [= <-]. exact M.
  - cbn [last_byte]. exact IH.
Qed.

Lemma drop_trailing_head (set s : string) (c : ascii) :
  head_byte s = Some c -> Str.mem c set = false ->
  head_byte (Str.drop_trailing set s) = Some c.
Proof.
  destruct s as [|d s]; [discriminate|]. cbn [head_byte]. intros [= ->] M.
  cbn [Str.drop_trailing]. rewrite M.
  destruct (Str.drop_trailing set s); reflexivity.
Qed.

Lemma drop_trailing_keeps_head (set s : string) (c : ascii) :
  head_byte (Str.drop_trailing set s) = Some c -> head_byte s = Some c.
Proof.
  destruct s as [|d s]; [discriminate|]. cbn [Str.drop_trailing].
  destruct (Str.drop_trailing set s).
  - destruct (Str.mem d set); [discriminate | exact (fun H => H)].
  - exact (fun H => H).
Qed.

Lemma trim_ends_outside (set s : string) : ends_outside set (Str.trim set s).
Proof.
  unfold Str.trim. split; intros c H.
  - apply drop_trailing_keeps_head in H. now apply drop_leading_head in H.
  - now apply drop_trailing_last in H.
Qed.

Lemma trim_split (set s : string) :
  exists lead trail,
    s = (lead ++ Str.trim set s ++ trail)%string
    /\ all_of set lead = true /\ all_of set trail = true.
Proof.
  destruct (drop_leading_split set s) as (lead & E & A).
  destruct (drop_trailing_split set (Str.drop_leading set s))
    as (trail & E' & A').
  exists lead, trail. unfold Str.trim. rewrite <- E'. auto.
Qed.

Lemma head_append (a c : string) :
  a <> EmptyString -> head_byte (a ++ c) = head_byte a.
Proof. destruct a; [congruence | reflexivity]. Qed.

Lemma last_append (a c : string) :
  c <> EmptyString -> last_byte (a ++ c) = last_byte c.
Proof.
  intros N. induction a as [|x a IH]; [reflexivity|].
  cbn [String.append last_byte]. rewrite IH.
  destruct (a ++ c)%string eqn:E; [|reflexivity].
  destruct a; [cbn in E; congruence | discriminate].
Qed.

End TrimFacts.

Module CleanFacts.

Lemma collapse_head (s : string) :
  head_byte (collapse_spaces s) = head_byte s.
Proof.
  induction s as [|c t IH]; [reflexivity|].
  cbn [collapse_spaces]. destruct t as [|d u]; [reflexivity|].
  destruct (Ascii.eqb_spec c " "), (Ascii.eqb_spec d " "); cbn [andb];
    try reflexivity.
  subst. rewrite IH. reflexivity.
Qed.

Lemma double_space_cons (c : ascii) (t : string) :
  double_space (String c t)
  = match head_byte t with
    | Some d => (Ascii.eqb c " " && Ascii.eqb d " ") || double_space t
    | None => false
    end.
Proof. destruct t; reflexivity. Qed.

Lemma collapse_no_double (s : string) : double_space (collapse_spaces s) = false.
Proof.
  induction s as [|c t IH]; [reflexivity|].
  cbn [collapse_spaces]. destruct t as [|d u]; [reflexivity|].
  destruct (Ascii.eqb c " " && Ascii.eqb d " ")%bool eqn:E; [exact IH|].
  rewrite double_space_cons, collapse_head. cbn [head_byte].
  now rewrite E, IH.
Qed.

Lemma double_space_tail (c : ascii) (t : string) :
  double_space (String c t) = false -> double_space t = false.
Proof.
  rewrite double_space_cons. destruct (head_byte t) eqn:H.
  - intros E. now apply orb_false_iff in E.
  - destruct t; [reflexivity | discriminate].
Qed.

Lemma drop_leading_no_double (set s : string) :
  double_space s = false -> double_space (Str.drop_leading set s) = false.
Proof.
  induction s as [|c t IH]; [reflexivity|]. intros D.
  cbn [Str.drop_leading]. destruct (Str.mem c set); [|exact D].
  apply IH. now apply double_space_tail in D.
Qed.

Lemma drop_trailing_no_double (set s : string) :
  double_space s = false -> double_space (Str.drop_trailing set s) = false.
Proof.
  induction s as [|c t IH]; [reflexivity|]. intros D.
  pose proof (double_space_tail _ _ D) as Dt. specialize (IH Dt).
  cbn [Str.drop_trailing]. destruct (Str.drop_trailing set t) eqn:T.
  - destruct (Str.mem c set); reflexivity.
  - rewrite double_space_cons. cbn [head_byte].
    assert (head_byte t = Some a) as H
        by (apply (TrimFacts.drop_trailing_keeps_head set); now rewrite T).
    rewrite double_space_cons, H in D.
    apply orb_false_iff in D as [D _]. now rewrite D, IH.
Qed.

Lemma substring_double (n : nat) (s : string) :
  substring n 2 s = "  " -> double_space s = true.
Proof.
  revert s. induction n as [|n IH]; intros [|c t]; try discriminate.
  - destruct t as [|d u]; [discriminate|].
    cbn [substring]. intros [= -> -> _]. reflexivity.
  - cbn [substring]. intros H. apply IH in H.
    rewrite double_space_cons. destruct t; [discriminate|].
    cbn [head_byte]. rewrite H. apply orb_true_r.
Qed.

Lemma no_double_not_found (s : string) :
  double_space s = false -> Str.contains "  " s = false.
Proof.
  intros D. unfold Str.contains, Str.find, Str.find_from.
  destruct (index 0 "  " s) as [n|] eqn:E; [|reflexivity].
  apply index_correct1 in E. change (String.length "  ") with 2%nat in E.
  apply substring_double in E. congruence.
Qed.

Lemma remove_if_append (p : ascii -> bool) (a c : string) :
  Str.remove_if p (a ++ c)
  = (Str.remove_if p a ++ Str.remove_if p c)%string.
Proof.
  induction a as [|x a IH]; [reflexivity|].
  cbn [String.append Str.remove_if]. rewrite IH. now destruct (p x).
Qed.

Lemma mem_space (c : ascii) : Str.mem c " " = is_space c.
Proof. unfold is_space. cbn. now destruct (Ascii.eqb c " "). Qed.

Lemma remove_all_spaces (a : string) :
  all_of " " a = true -> Str.remove_if is_space a = EmptyString.
Proof.
  induction a as [|x a IH]; [reflexivity|].
  cbn [all_of Str.remove_if]. rewrite mem_space.
  destruct (is_space x); [exact IH | discriminate].
Qed.

Lemma collapse_keeps_words (s : string) :
  Str.remove_if is_space (collapse_spaces s) = Str.remove_if is_space s.
Proof.
  induction s as [|c t IH]; [reflexivity|].
  cbn [collapse_spaces]. destruct t as [|d u]; [reflexivity|].
  destruct (Ascii.eqb_spec c " ") as [->|N]; cbn [andb].
  - destruct (Ascii.eqb d " "); [rewrite IH; reflexivity|].
    cbn [Str.remove_if]. rewrite IH. reflexivity.
  - change (Str.remove_if is_space (String c (collapse_spaces (String d u))))
      with (if is_space c
            then Str.remove_if is_space (collapse_spaces (String d u))
            else String c (Str.remove_if is_space
                             (collapse_spaces (String d u)))).
    rewrite IH. reflexivity.
Qed.

End CleanFacts.

Module JoinFacts.

Lemma add_text_nonempty (result text : string) :
  text <> EmptyString -> Engine.add_text result text <> EmptyString.
Proof.
  unfold Engine.add_text. destruct result; cbn; [auto | discriminate].
Qed.

Lemma concat_step (acc x : string) (xs : list string) :
  String.concat " " ((acc ++ " " ++ x)%string :: xs)
  = (acc ++ " " ++ String.concat " " (x :: xs))%string.
Proof.
  destruct xs as [|y ys]; [reflexivity|].
  cbn [String.concat]. now rewrite !TrimFacts.append_assoc.
Qed.

Lemma fold_add_text (items : list string) (acc : string) :
  acc <> EmptyString ->
  fold_left Engine.add_text items acc = String.concat " " (acc :: items).
Proof.
  revert acc. induction items as [|x xs IH]; intros acc N; [reflexivity|].
  cbn [fold_left]. unfold Engine.add_text at 2.
  destruct acc as [|a acc]; [congruence|]. cbn [Str.empty].
  rewrite IH; [|discriminate].
  rewrite concat_step. reflexivity.
Qed.

Lemma join_kept (items : list string) :
  Forall (fun t => t <> EmptyString) items ->
  fold_left Engine.add_text items "" = String.concat " " items.
Proof.
  intros F. destruct F as [|x xs Hx F]; [reflexivity|].
  cbn [fold_left]. change (Engine.add_text "" x) with x.
  now apply fold_add_text.
Qed.

Lemma fold_add_segment (segments : list string) (acc : string) :
  fold_left Engine.add_segment segments acc
  = fold_left Engine.add_text
      (filter kept_segment (map (Str.trim WHITESPACE) segments)) acc.
Proof.
  revert acc. induction segments as [|x xs IH]; intros acc; [reflexivity|].
  cbn [fold_left map filter]. rewrite IH.
  unfold Engine.add_segment, kept_segment.
  destruct x as [|c x]; [reflexivity|]. cbn [Str.empty].
  destruct (Str.empty (Str.trim WHITESPACE (String c x))); cbn [negb andb];
    [reflexivity|].
  destruct (HallucinationFilter.isHallucination MainCpp _); reflexivity.
Qed.

Lemma kept_nonempty (segments : list string) :
  Forall (fun t => t <> EmptyString)
         (filter kept_segment (map (Str.trim WHITESPACE) segments)).
Proof.
  apply Forall_forall. intros t H. apply filter_In in H as [_ K].
  unfold kept_segment in K. apply andb_true_iff in K as [K _].
  destruct t; [discriminate | discriminate].
Qed.

Lemma concat_head (items : list string) (x : string) :
  x <> EmptyString ->
  head_byte (String.concat " " (x :: items)) = head_byte x.
Proof.
  intros N. destruct items; [reflexivity|].
  cbn [String.concat]. now apply TrimFacts.head_append.
Qed.

Lemma last_cons_default (items : list string) (y x : string) :
  last (y :: items) x = last items y.
Proof.
  revert y x. induction items as [|z zs IH]; intros y x; [reflexivity|].
  change (last (y :: z :: zs) x) with (last (z :: zs) x).
  rewrite IH. symmetry. apply IH.
Qed.

Lemma last_in (items : list string) (x : string) :
  In (last items x) (x :: items).
Proof.
  revert x. induction items as [|y ys IH]; intros x; [now left|].
  rewrite last_cons_default. right. apply IH.
Qed.

Lemma concat_last (items : list string) (x : string) :
  Forall (fun t => t <> EmptyString) (x :: items) ->
  last_byte (String.concat " " (x :: items)) = last_byte (last items x).
Proof.
  revert x. induction items as [|y ys IH]; intros x F; [reflexivity|].
  apply Forall_cons_iff in F as [Hx F].
  change (String.concat " " (x :: y :: ys))
    with (x ++ (" " ++ String.concat " " (y :: ys)))%string.
  rewrite TrimFacts.last_append; [|discriminate].
  assert (String.concat " " (y :: ys) <> EmptyString) as N.
  { apply Forall_cons_iff in F as [Hy _].
    destruct ys; cbn [String.concat]; [exact Hy|].
    destruct y; [congruence | discriminate]. }
  rewrite (TrimFacts.last_append " " _ N), IH by exact F.
  now rewrite last_cons_default.
Qed.

End JoinFacts.

(** X13: the trim used on segments and on lines of output removes a run of
    bytes of the set at the front and one at the back, and nothing else; the
    first and the last byte of what is left are outside the set. *)
Theorem trim_strips_both_ends (set s : string) :
  exists lead trail,
    s = (lead ++ Str.trim set s ++ trail)%string
    /\ all_of set lead = true /\ all_of set trail = true
    /\ ends_outside set (Str.trim set s).
Proof.
  destruct (TrimFacts.trim_split set s) as (lead & trail & E & A & A').
  exists lead, trail. repeat split; try assumption;
    apply TrimFacts.trim_ends_outside.
Qed.

Lemma clean_text_no_double (current : string) :
  Str.contains "  " (clean_text current) = false.
Proof.
  unfold clean_text. apply CleanFacts.no_double_not_found. unfold Str.trim.
  apply CleanFacts.drop_trailing_no_double,
    CleanFacts.drop_leading_no_double, CleanFacts.collapse_no_double.
Qed.

Lemma clean_text_keeps_words (current : string) :
  Str.remove_if is_space (clean_text current)
  = Str.remove_if is_space current.
Proof.
  unfold clean_text.
  destruct (TrimFacts.trim_split " " (collapse_spaces current))
    as (lead & trail & E & A & A').
  rewrite <- (CleanFacts.collapse_keeps_words current).
  rewrite E at 2.
  rewrite !CleanFacts.remove_if_append,
    (CleanFacts.remove_all_spaces lead A),
    (CleanFacts.remove_all_spaces trail A').
  cbn [String.append]. now rewrite TrimFacts.append_nil_r.
Qed.

(** X14: the text that [finalizeTranscription] prints for a transcript holds
    no two spaces in a row and no space at either end, and the bytes other
    than spaces are those of the transcript, in the same order. *)
Theorem clean_text_is_normalised (current : string) :
  Str.contains "  " (clean_text current) = false
  /\ ends_outside " " (clean_text current)
  /\ Str.remove_if is_space (clean_text current)
     = Str.remove_if is_space current.
Proof.
  split; [apply clean_text_no_double|].
  split; [|apply clean_text_keeps_words].
  unfold clean_text. apply TrimFacts.trim_ends_outside.
Qed.

(** X15: when [whisper_full] returns 0, [transcribeWithWhisper] of
    [main.cpp] returns the segments that stay after trimming and filtering,
    in order, joined by single spaces. *)
Theorem transcribe_main_joins_kept_segments (o : Engine.WhisperFull) :
  Engine.whisper_full_rc o = 0 ->
  Engine.transcribe_main o = String.concat " " (kept_segments o).
Proof.
  intros R. unfold Engine.transcribe_main, kept_segments. rewrite R.
  cbn [Z.eqb negb]. rewrite JoinFacts.fold_add_segment.
  apply JoinFacts.join_kept, JoinFacts.kept_nonempty.
Qed.

(** The theorem at three segments, of which one is kept. *)
Lemma transcribe_main_joins_kept_segments_witness :
  Engine.whisper_full_rc three_segments = 0
  /\ Engine.transcribe_main three_segments
     = String.concat " " (kept_segments three_segments)
  /\ kept_segments three_segments = ["turn on the light"].
Proof.
  assert (Engine.whisper_full_rc three_segments = 0) as R by reflexivity.
  split; [exact R|].
  split; [exact (transcribe_main_joins_kept_segments three_segments R)|].
  vm_compute. reflexivity.
Defined.

Section Outer.

Lemma outside_whitespace_outside_space (t : string) :
  ends_outside WHITESPACE t -> ends_outside " " t.
Proof.
  assert (forall c, Str.mem c WHITESPACE = false -> Str.mem c " " = false) as M.
  { intros c. cbn. destruct (Ascii.eqb c " "); [discriminate | reflexivity]. }
  intros [H L]. split; intros c E; apply M; auto.
Qed.

Lemma kept_segments_outside (o : Engine.WhisperFull) :
  Forall (ends_outside WHITESPACE) (kept_segments o).
Proof.
  apply Forall_forall. intros t H. unfold kept_segments in H.
  apply filter_In in H as [H _]. apply in_map_iff in H as (x & <- & _).
  apply TrimFacts.trim_ends_outside.
Qed.

Lemma joined_ends_outside (set : string) (items : list string) :
  Forall (fun t => t <> EmptyString) items ->
  Forall (ends_outside set) items ->
  ends_outside set (String.concat " " items).
Proof.
  intros N F. destruct items as [|x xs]; [split; discriminate|].
  pose proof (proj1 (Forall_cons_iff _ _ _) N) as [Nx _].
  split; intros c E.
  - rewrite JoinFacts.concat_head in E by exact Nx.
    apply Forall_cons_iff in F as [[H _] _]. now apply H.
  - rewrite JoinFacts.concat_last in E by exact N.
    pose proof (JoinFacts.last_in xs x) as I.
    rewrite Forall_forall in F. destruct (F _ I) as [_ L]. now apply L.
Qed.

End Outer.

Lemma transcribe_main_ends_outside (o : Engine.WhisperFull) :
  ends_outside " " (Engine.transcribe_main o).
Proof.
  unfold Engine.transcribe_main.
  destruct (Engine.whisper_full_rc o =? 0) eqn:R; cbn [negb];
    [|split; discriminate].
  rewrite JoinFacts.fold_add_segment.
  rewrite JoinFacts.join_kept by apply JoinFacts.kept_nonempty.
  apply outside_whitespace_outside_space, joined_ends_outside.
  - apply JoinFacts.kept_nonempty.
  - apply (kept_segments_outside o).
Qed.

Lemma failure_marker_ends_outside (err : Z) :
  ends_outside " " ("[CreateProcess failed: " ++ Str.to_string err ++ "]").
Proof.
  split; intros c.
  - cbn. intros E. inversion E. reflexivity.
  - rewrite TrimFacts.last_append
      by (apply TextFacts.append_nonempty; discriminate).
    rewrite TrimFacts.last_append by discriminate.
    cbn. intros E. inversion E. reflexivity.
Qed.

Lemma kept_text_starts_with_word (b : Build) (o : Engine.Outcome b) (c : ascii) :
  head_byte (Engine.transcribeWithWhisper b o) = Some c ->
  Str.mem c " " = false.
Proof.
  destruct b; cbn [Engine.transcribeWithWhisper].
  - apply (transcribe_main_ends_outside o).
  - destruct o as [err | err | output code]; cbn [Engine.transcribe_win32].
    + cbn. intros E. inversion E. reflexivity.
    + apply (failure_marker_ends_outside err).
    + apply TrimFacts.trim_ends_outside.
  - destruct o as [| output status]; cbn [Engine.transcribe_posix].
    + discriminate.
    + apply TrimFacts.trim_ends_outside.
Qed.

(** X16: in every build and for every outcome of the call, the text returned
    by [transcribeWithWhisper] neither begins nor ends with a space. *)
Theorem returned_text_has_no_outer_space (b : Build) (o : Engine.Outcome b) :
  ends_outside " " (Engine.transcribeWithWhisper b o).
Proof.
  destruct b; cbn [Engine.transcribeWithWhisper].
  - apply transcribe_main_ends_outside.
  - destruct o as [err | err | output code]; cbn [Engine.transcribe_win32].
    + split; intros c; cbn; intros E; inversion E; reflexivity.
    + apply failure_marker_ends_outside.
    + unfold Engine.final_trim. apply TrimFacts.trim_ends_outside.
  - destruct o as [| output status]; cbn [Engine.transcribe_posix].
    + split; discriminate.
    + unfold Engine.final_trim. apply TrimFacts.trim_ends_outside.
Qed.

(** ** The transcripts that are printed *)

Module WordFacts.

Lemma text_has_words (t : string) :
  t <> EmptyString ->
  (forall c, head_byte t = Some c -> Str.mem c " " = false) ->
  Str.remove_if is_space t <> EmptyString.
Proof.
  destruct t as [|c t]; [congruence|]. intros _ H.
  specialize (H c eq_refl). rewrite CleanFacts.mem_space in H.
  cbn [Str.remove_if]. rewrite H. discriminate.
Qed.

Lemma words_of_append_l (a c : string) :
  Str.remove_if is_space a <> EmptyString ->
  Str.remove_if is_space (a ++ c) <> EmptyString.
Proof.
  rewrite CleanFacts.remove_if_append.
  destruct (Str.remove_if is_space a); [congruence | discriminate].
Qed.

Lemma words_of_append_r (a c : string) :
  Str.remove_if is_space c <> EmptyString ->
  Str.remove_if is_space (a ++ c) <> EmptyString.
Proof.
  rewrite CleanFacts.remove_if_append. intros H.
  now apply TextFacts.append_nonempty.
Qed.

Lemma completions_app (l l' : list Event) :
  completions (l ++ l') = completions l ++ completions l'.
Proof. apply flat_map_app. Qed.

Lemma clean_completion (current : string) (recorded : Z) :
  Str.remove_if is_space current <> EmptyString ->
  Forall well_formed_completion
         (completions [EvComplete (clean_text current) recorded
                                  (word_count (clean_text current))]).
Proof.
  intros W. constructor; [|constructor].
  pose proof (clean_text_no_double current) as D.
  pose proof (clean_text_keeps_words current) as K.
  assert (ends_outside " " (clean_text current)) as O
      by (unfold clean_text; apply TrimFacts.trim_ends_outside).
  unfold well_formed_completion. cbn [fst snd].
  repeat split; try assumption; try apply O.
  intros E. rewrite E in K. cbn in K. congruence.
Qed.

End WordFacts.

Section ReachedWords.

Variable b : Build.
Variable engine : list Event -> list Z -> Engine.Outcome b.

Lemma kept_text_has_words (o : Engine.Outcome b) :
  keeps_text b (Engine.transcribeWithWhisper b o) = true ->
  Str.remove_if is_space (Engine.transcribeWithWhisper b o) <> EmptyString.
Proof.
  intros K. apply WordFacts.text_has_words.
  - unfold keeps_text in K.
    destruct (Engine.transcribeWithWhisper b o); [discriminate K | discriminate].
  - apply kept_text_starts_with_word.
Qed.

Lemma processAudioChunk_keeps_words (s : Session) :
  transcript_has_words s ->
  transcript_has_words (processAudioChunk b engine s).
Proof.
  intros J. unfold processAudioChunk, recognize.
  destruct (_ >=? _); [|exact J].
  destruct (SpeechGate.hasSubstantialSpeech _); cbn [negb]; [|exact J].
  destruct (keeps_text b _) eqn:K; [|exact J].
  unfold transcript_has_words. state_simpl. intros _.
  apply WordFacts.words_of_append_r, WordFacts.words_of_append_l.
  now apply kept_text_has_words.
Qed.

Lemma processAudioChunk_completions (s : Session) :
  completions (log (processAudioChunk b engine s)) = completions (log s).
Proof.
  rewrite processAudioChunk_log, WordFacts.completions_app.
  unfold chunk_events. destruct (_ <=? _); [|reflexivity].
  destruct (SpeechGate.hasSubstantialSpeech _); reflexivity.
Qed.

Lemma final_events_well_formed (s : Session) :
  transcript_has_words s ->
  Forall well_formed_completion (completions (final_events b engine s)).
Proof.
  intros J. unfold final_events. rewrite WordFacts.completions_app.
  apply Forall_app. split.
  - destruct (transcription_started s) eqn:St; [|constructor].
    apply WordFacts.clean_completion.
    destruct (_ && _)%bool; [apply WordFacts.words_of_append_l|]; now apply J.
  - destruct (final_pass_due s); constructor.
Qed.

Lemma loop_body_keeps_words (s : Session) (f : Frame) :
  transcript_has_words s
  /\ Forall well_formed_completion (completions (log s)) ->
  transcript_has_words (loop_body b engine s f)
  /\ Forall well_formed_completion
            (completions (log (loop_body b engine s f))).
Proof.
  set (Inv := fun s0 : Session =>
                transcript_has_words s0
                /\ Forall well_formed_completion (completions (log s0))).
  change (Inv s -> Inv (loop_body b engine s f)). intros I.
  assert (forall s0, Inv s0 -> Inv (processAudioChunk b engine s0)) as PA.
  { intros s0 [J P]. split.
    - now apply processAudioChunk_keeps_words.
    - now rewrite processAudioChunk_completions. }
  assert (forall s0, Inv s0 -> Inv (stop b engine s0)) as ST.
  { intros s0 [J P]. split.
    - unfold stop, transcript_has_words. state_simpl.
      destruct (finalizeTranscription_clears b engine s0) as (_ & _ & -> & _).
      discriminate.
    - unfold stop. state_simpl. rewrite finalizeTranscription_log.
      change (completions (EvIdle :: final_events b engine s0 ++ log s0))
        with (completions (final_events b engine s0 ++ log s0)).
      rewrite WordFacts.completions_app. apply Forall_app. split; [|exact P].
      now apply final_events_well_formed. }
  unfold loop_body. destruct (is_listening s); cbn [negb].
  - unfold listening_step, before_cutoff.
    assert (Inv (capture f s)) as I1 by exact I.
    assert (Inv (classify b engine f (capture f s))) as I2.
    { unfold classify. destruct (vad_result f =? -2); [exact I1|].
      destruct (_ >? _); [|exact I1]. apply PA. exact I1. }
    assert (Inv (drain b engine (classify b engine f (capture f s)))) as I3.
    { unfold drain. destruct (_ >=? _); [now apply PA | exact I2]. }
    assert (Inv (silence_check b engine
                   (drain b engine (classify b engine f (capture f s)))))
      as I4.
    { unfold silence_check. destruct (_ >=? _); [now apply ST | exact I3]. }
    unfold cutoff_check. destruct (_ >? _); [now apply ST | exact I4].
  - unfold idle_step. destruct (_ >? _); [|exact I].
    split; [discriminate | exact (proj2 I)].
Qed.

End ReachedWords.

(** X9: every transcript that [finalizeTranscription] prints in a run of the
    loop is not empty, has no space at either end and no two spaces in a
    row, and comes with the count of its spaces plus one as the number of
    its words. *)
Theorem printed_transcripts_are_well_formed
    (b : Build) (engine : list Event -> list Z -> Engine.Outcome b)
    (frames : list Frame) :
  Forall (fun c : string * Z =>
            fst c <> EmptyString
            /\ ends_outside " " (fst c)
            /\ Str.contains "  " (fst c) = false
            /\ snd c = word_count (fst c))
         (completions (log (run b engine frames initial))).
Proof.
  apply (run_keeps b engine
           (fun s => transcript_has_words s
                     /\ Forall well_formed_completion (completions (log s)))
           (loop_body_keeps_words b engine)).
  split; [discriminate | constructor].
Qed.

(** ** The output of the child, block by block *)

Module PipeFacts.

Import Engine.

Lemma split_lines_cons (c : ascii) (s : string) :
  split_lines (String c s)
  = if Ascii.eqb c LF then EmptyString :: split_lines s
    else prepend (String c EmptyString) (split_lines s).
Proof.
  cbn [split_lines]. destruct (Ascii.eqb c LF); [reflexivity|].
  destruct (split_lines s); reflexivity.
Qed.

Lemma split_lines_nonempty (s : string) : split_lines s <> [].
Proof.
  destruct s as [|c s]; [discriminate|]. rewrite split_lines_cons.
  destruct (Ascii.eqb c LF); [discriminate|].
  destruct (split_lines s); discriminate.
Qed.

Lemma lines_fold_cons (result x : string) (pieces : list string) :
  pieces <> [] ->
  lines_fold result (x :: pieces)
  = lines_fold (handle_line StreamingWin32 result x) pieces.
Proof.
  intros N. destruct pieces as [|y ys]; [congruence|]. reflexivity.
Qed.

Lemma take_lines_split (carry result line : string) :
  take_lines result line carry
  = lines_fold result (prepend line (split_lines carry)).
Proof.
  revert result line. induction carry as [|c rest IH]; intros result line.
  - cbn. now rewrite TrimFacts.append_nil_r.
  - cbn [take_lines]. rewrite split_lines_cons.
    pose proof (split_lines_nonempty rest) as N.
    destruct (Ascii.eqb c LF).
    + rewrite IH. cbn [prepend]. rewrite TrimFacts.append_nil_r.
      rewrite lines_fold_cons by exact N.
      destruct (split_lines rest); [congruence | reflexivity].
    + rewrite IH. destruct (split_lines rest) as [|l r]; [congruence|].
      cbn [prepend]. now rewrite TrimFacts.append_assoc.
Qed.

Lemma split_lines_append (out more : string) :
  split_lines (out ++ more)
  = removelast (split_lines out)
    ++ split_lines (last (split_lines out) EmptyString ++ more).
Proof.
  induction out as [|c out IH]; [reflexivity|].
  cbn [String.append]. rewrite !split_lines_cons.
  pose proof (split_lines_nonempty out) as N.
  destruct (Ascii.eqb c LF) eqn:E.
  - rewrite IH. destruct (split_lines out) as [|l r]; [congruence|].
    reflexivity.
  - rewrite IH. destruct (split_lines out) as [|l r]; [congruence|].
    destruct r as [|l' r'].
    + cbn [prepend removelast last app String.append].
      rewrite split_lines_cons, E. reflexivity.
    + reflexivity.
Qed.

Lemma prepend_empty (pieces : list string) :
  pieces <> [] -> prepend EmptyString pieces = pieces.
Proof. destruct pieces; [congruence | reflexivity]. Qed.

Lemma lines_fold_app (result : string) (p q : list string) :
  q <> [] ->
  lines_fold result (p ++ q)
  = lines_fold (fold_left (handle_line StreamingWin32) p result) q.
Proof.
  intros N. revert result. induction p as [|x p IH]; intros result;
    [reflexivity|].
  cbn [app fold_left]. rewrite lines_fold_cons.
  - apply IH.
  - destruct p; [exact N | discriminate].
Qed.

Lemma read_block_step (out block : string) :
  read_block (lines_fold EmptyString (split_lines out)) block
  = lines_fold EmptyString (split_lines (out ++ Str.c_str block)).
Proof.
  unfold read_block, lines_fold at 1. rewrite take_lines_split.
  rewrite prepend_empty by apply split_lines_nonempty.
  rewrite (split_lines_append out).
  now rewrite lines_fold_app by apply split_lines_nonempty.
Qed.

Lemma concat_empty_cons (x : string) (xs : list string) :
  String.concat EmptyString (x :: xs)
  = (x ++ String.concat EmptyString xs)%string.
Proof.
  destruct xs; [cbn; now rewrite TrimFacts.append_nil_r | reflexivity].
Qed.

Lemma read_loop_split (blocks : list string) (out : string) :
  read_loop blocks (lines_fold EmptyString (split_lines out))
  = lines_fold EmptyString (split_lines (out ++ output_of blocks)).
Proof.
  revert out. induction blocks as [|block more IH]; intros out.
  - cbn. now rewrite TrimFacts.append_nil_r.
  - cbn [read_loop]. unfold output_of. cbn [blocks_read].
    destruct (Str.empty block).
    + cbn. now rewrite TrimFacts.append_nil_r.
    + rewrite read_block_step, IH. cbn [map].
      rewrite concat_empty_cons, TrimFacts.append_assoc. reflexivity.
Qed.

End PipeFacts.

(** X17: in the [_WIN32] branch the text does not depend on how [ReadFile]
    cuts the output of the child into blocks: reading block by block, with
    the partial line carried over, gives the text of the whole output, which
    is the bytes of each block up to its first NUL. *)
Theorem block_boundaries_do_not_matter (blocks : list string) (exit_code : Z) :
  transcribe_blocks blocks
  = Engine.transcribe_win32 (Engine.ProcessRan (output_of blocks) exit_code).
Proof.
  unfold transcribe_blocks.
  change (EmptyString, EmptyString)
    with (lines_fold EmptyString (Engine.split_lines EmptyString)).
  rewrite PipeFacts.read_loop_split. reflexivity.
Qed.

(** ** Samples as floats and in a WAV file *)

Module WavFacts.

Lemma le_bytes_length (width : nat) (x : Z) :
  List.length (le_bytes width x) = width.
Proof.
  revert x. induction width as [|w IH]; intros x; cbn [le_bytes List.length];
    [reflexivity | now rewrite IH].
Qed.

Lemma le_value_bytes (width : nat) (x : Z) :
  le_value (le_bytes width x) = x mod 256 ^ Z.of_nat width.
Proof.
  revert x. induction width as [|w IH]; intros x.
  - cbn. now rewrite Z.mod_1_r.
  - cbn [le_bytes le_value]. rewrite IH, Nat2Z.inj_succ, Z.pow_succ_r by lia.
    rewrite Z.rem_mul_r by lia. reflexivity.
Qed.

Lemma data_length (audio_data : list Z) :
  Z.of_nat (List.length (flat_map (le_bytes 2) audio_data))
  = 2 * size audio_data.
Proof.
  unfold size. induction audio_data as [|x l IH]; [reflexivity|].
  cbn [flat_map]. rewrite length_app, le_bytes_length.
  cbn [List.length]. lia.
Qed.

Lemma to_short_bytes (x : Z) :
  is_short x -> to_short (le_value (le_bytes 2 x)) = x.
Proof.
  unfold is_short, to_short. intros R. rewrite le_value_bytes.
  change (256 ^ Z.of_nat 2) with 65536.
  destruct (Z.ltb_spec (x mod 65536) 32768) as [L|L].
  - destruct (Z.neg_nonneg_cases x) as [N|N].
    + replace x with (x + 65536 - 1 * 65536) in L by lia.
      rewrite Zminus_mod, Z_mod_mult, Z.sub_0_r, Z.mod_mod in L by lia.
      rewrite Z.mod_small in L by lia. lia.
    + apply Z.mod_small. lia.
  - destruct (Z.neg_nonneg_cases x) as [N|N].
    + replace x with (x + 65536 - 1 * 65536) at 1 by lia.
      rewrite Zminus_mod, Z_mod_mult, Z.sub_0_r, Z.mod_mod by lia.
      rewrite Z.mod_small by lia. lia.
    + rewrite Z.mod_small in L by lia. lia.
Qed.

Lemma read_samples_bytes (audio_data : list Z) :
  Forall is_short audio_data ->
  read_samples (flat_map (le_bytes 2) audio_data) = audio_data.
Proof.
  induction 1 as [|x l Hx _ IH]; [reflexivity|].
  cbn [flat_map]. change (le_bytes 2 x) with [x mod 256; x / 256 mod 256].
  cbn [app read_samples].
  change [x mod 256; x / 256 mod 256] with (le_bytes 2 x).
  now rewrite to_short_bytes, IH.
Qed.

Lemma header_layout (fs ds : Z) (rest : list Z) :
  let bytes :=
    header_bytes (mkWavHeader "RIFF" fs "WAVE" "fmt " 16 1 1 16000 32000 2 16
                              "data" ds) ++ rest in
  field 4 4 bytes = fs mod 2 ^ 32
  /\ field 40 4 bytes = ds mod 2 ^ 32
  /\ skipn 44 bytes = rest
  /\ List.length bytes = (44 + List.length rest)%nat.
Proof.
  pose proof (le_value_bytes 4 fs) as F.
  pose proof (le_value_bytes 4 ds) as D.
  change (256 ^ Z.of_nat 4) with (2 ^ 32) in F, D.
  cbv zeta. rewrite <- F, <- D.
  repeat split.
Qed.

End WavFacts.

(** X19: for less than 2^31 - 18 samples of a [short], the file written by
    [saveWavFile] has 44 bytes of header and two bytes per sample; its field
    [file_size] holds the length of the file less 8, its field [data_size]
    the length of the samples in bytes, and reading the samples back gives
    the audio that was saved. *)
Theorem wav_file_round_trip (audio_data : list Z) :
  Forall is_short audio_data ->
  2 * size audio_data + 36 < 2 ^ 32 ->
  exists bytes,
    saveWavFile true audio_data = Some bytes
    /\ Z.of_nat (List.length bytes) = 44 + 2 * size audio_data
    /\ field 4 4 bytes = Z.of_nat (List.length bytes) - 8
    /\ field 40 4 bytes = 2 * size audio_data
    /\ read_samples (skipn 44 bytes) = audio_data.
Proof.
  intros S B.
  assert (0 <= size audio_data) as N by (unfold size; lia).
  eexists. split; [reflexivity|].
  unfold wav_header.
  destruct (WavFacts.header_layout
              (uint32 (uint32 (size audio_data * 2) + 44 - 8))
              (uint32 (size audio_data * 2))
              (flat_map (le_bytes 2) audio_data)) as (F & D & K & L).
  cbv zeta in F, D, K, L.
  assert (uint32 (size audio_data * 2) = 2 * size audio_data) as E1
      by (unfold uint32; rewrite Z.mod_small; lia).
  assert (uint32 (uint32 (size audio_data * 2) + 44 - 8)
          = 2 * size audio_data + 36) as E2
      by (rewrite E1; unfold uint32; rewrite Z.mod_small; lia).
  rewrite F, D, K, L, Nat2Z.inj_add, WavFacts.data_length.
  rewrite E2, E1, !Z.mod_small by lia.
  repeat split; try lia.
  now apply WavFacts.read_samples_bytes.
Qed.

(** The theorem at four samples. *)
Lemma wav_file_round_trip_witness :
  Forall is_short [0; -1; 32767; -32768]
  /\ 2 * size [0; -1; 32767; -32768] + 36 < 2 ^ 32
  /\ exists bytes,
       saveWavFile true [0; -1; 32767; -32768] = Some bytes
       /\ Z.of_nat (List.length bytes) = 44 + 2 * size [0; -1; 32767; -32768]
       /\ field 4 4 bytes = Z.of_nat (List.length bytes) - 8
       /\ field 40 4 bytes = 2 * size [0; -1; 32767; -32768]
       /\ read_samples (skipn 44 bytes) = [0; -1; 32767; -32768].
Proof.
  assert (Forall is_short [0; -1; 32767; -32768]) as S
      by (repeat constructor; unfold is_short; lia).
  assert (2 * size [0; -1; 32767; -32768] + 36 < 2 ^ 32) as B
      by (vm_compute; reflexivity).
  split; [exact S|]. split; [exact B|].
  exact (wav_file_round_trip [0; -1; 32767; -32768] S B).
Defined.

(** X18: [convertToFloat] returns as many values as it is given samples,
    each of them at least -1 and below 1. *)
Theorem converted_samples_in_unit_range (audio_data : list Z) :
  Forall is_short audio_data ->
  List.length (convertToFloat audio_data) = List.length audio_data
  /\ Forall (fun x => (-1 <= x)%Q /\ (x < 1)%Q) (convertToFloat audio_data).
Proof.
  intros S. unfold convertToFloat. split; [apply length_map|].
  apply Forall_map. apply Forall_forall. intros x Hx.
  rewrite Forall_forall in S. specialize (S x Hx). unfold is_short in S.
  unfold Qle, Qlt. cbn [Qnum Qden]. lia.
Qed.

(** The theorem at the least and the greatest [short]. *)
Lemma converted_samples_in_unit_range_witness :
  Forall is_short [-32768; 0; 32767]
  /\ Forall (fun x => (-1 <= x)%Q /\ (x < 1)%Q)
            (convertToFloat [-32768; 0; 32767]).
Proof.
  assert (Forall is_short [-32768; 0; 32767]) as S
      by (repeat constructor; unfold is_short; lia).
  split; [exact S|].
  exact (proj2 (converted_samples_in_unit_range [-32768; 0; 32767] S)).
Defined.

(** ** The name of the hotword *)

Module NameFacts.

Lemma find_last_of_lt (set s : string) (i : nat) :
  find_last_of set s = Some i -> (i < String.length s)%nat.
Proof.
  revert i. induction s as [|c s IH]; intros i; cbn [find_last_of];
    [discriminate|].
  destruct (find_last_of set s) as [j|].
  - intros [= <-]. specialize (IH j eq_refl). cbn [String.length]. lia.
  - destruct (Str.mem c set); [|discriminate].
    intros [= <-]. cbn [String.length]. lia.
Qed.

Lemma find_last_of_none (set s : string) :
  none_of set s = true -> find_last_of set s = None.
Proof.
  induction s as [|c s IH]; [reflexivity|]. cbn [none_of find_last_of].
  intros H. apply andb_true_iff in H as [M N]. rewrite (IH N).
  now destruct (Str.mem c set).
Qed.

Lemma find_last_of_last (set pre post : string) (c : ascii) :
  Str.mem c set = true -> none_of set post = true ->
  find_last_of set (pre ++ String c post) = Some (String.length pre).
Proof.
  intros M N. induction pre as [|d pre IH].
  - cbn [String.append find_last_of String.length].
    now rewrite (find_last_of_none _ _ N), M.
  - cbn [String.append find_last_of String.length]. now rewrite IH.
Qed.

Lemma length_append (a c : string) :
  String.length (a ++ c) = (String.length a + String.length c)%nat.
Proof. induction a as [|x a IH]; cbn; [reflexivity | now rewrite IH]. Qed.

Lemma custom_model_tests (model : string) :
  custom_model model = true ->
  Str.contains "computer.umdl" model = false
  /\ Str.contains "jarvis.umdl" model = false
  /\ Str.contains "hey_extreme.umdl" model = false
  /\ Str.contains "alexa.umdl" model = false
  /\ Str.contains "hey_casper.pmdl" model = false.
Proof.
  unfold custom_model, named_models. cbn [forallb].
  rewrite !andb_true_iff, !negb_true_iff. tauto.
Qed.

End NameFacts.

(** X20: the chain of tests that names the hotword gives a name for every
    path of a model: the call of [substr] never leaves the range of the
    string. *)
Theorem hotword_name_never_throws (model : string) :
  exists name, hotword_name model = Some name.
Proof.
  unfold hotword_name.
  destruct (Str.contains "computer.umdl" model); [eexists; reflexivity|].
  destruct (Str.contains "jarvis.umdl" model); [eexists; reflexivity|].
  destruct (Str.contains "hey_extreme.umdl" model); [eexists; reflexivity|].
  destruct (Str.contains "alexa.umdl" model); [eexists; reflexivity|].
  destruct (Str.contains "hey_casper.pmdl" model); [eexists; reflexivity|].
  destruct (Str.contains ".pmdl" model); [|eexists; reflexivity].
  destruct (find_last_of SEPARATORS model) as [lastSlash|] eqn:S;
    [|eexists; reflexivity].
  destruct (find_last_of "." model) as [lastDot|]; [|eexists; reflexivity].
  apply NameFacts.find_last_of_lt in S. unfold substr.
  destruct (Nat.ltb_spec (String.length model) (lastSlash + 1)); [lia|].
  eexists; reflexivity.
Qed.

(** X21: for a custom model [name.pmdl] in a directory, given with either
    separator, the hotword is [name] with spaces for underscores, when
    [name] holds no dot and no separator, the path holds none of the models
    that the chain names itself, and its length fits a [size_t]. *)
Theorem custom_model_names_hotword (dir name : string) (sep : ascii) :
  let model := (dir ++ String sep (name ++ ".pmdl"))%string in
  Str.mem sep SEPARATORS = true ->
  none_of SEPARATORS name = true ->
  none_of "." name = true ->
  custom_model model = true ->
  Z.of_nat (String.length model) < 2 ^ 64 ->
  hotword_name model = Some (replace "_" " " name).
Proof.
  intros model Sep NoSep NoDot Custom Fits.
  destruct (NameFacts.custom_model_tests model Custom)
    as (T1 & T2 & T3 & T4 & T5).
  unfold hotword_name. rewrite T1, T2, T3, T4, T5.
  assert (Str.contains ".pmdl" model = true) as P.
  { replace model with ((dir ++ String sep name) ++ ".pmdl" ++ "")%string.
    - apply FilterFacts.contains_occurrence. discriminate.
    - unfold model. rewrite TrimFacts.append_assoc. reflexivity. }
  rewrite P.
  assert (find_last_of SEPARATORS model = Some (String.length dir)) as LS.
  { apply NameFacts.find_last_of_last; [exact Sep|].
    clear - NoSep. induction name as [|c name IH]; [reflexivity|].
    cbn [String.append none_of] in *. apply andb_true_iff in NoSep as [A B].
    now rewrite A, IH. }
  assert (find_last_of "." model
          = Some (String.length dir + 1 + String.length name)%nat) as LD.
  { replace model with ((dir ++ String sep name) ++ String "." "pmdl")%string.
    - rewrite NameFacts.find_last_of_last; [|reflexivity|reflexivity].
      rewrite NameFacts.length_append. cbn [String.length]. f_equal. lia.
    - unfold model. rewrite TrimFacts.append_assoc. reflexivity. }
  rewrite LS, LD. unfold substr, size_t.
  assert (String.length model
          = (String.length dir + 1 + String.length name + 5)%nat) as Len.
  { unfold model. rewrite NameFacts.length_append. cbn [String.length].
    rewrite NameFacts.length_append. cbn [String.length]. lia. }
  rewrite Len in *.
  destruct (Nat.ltb_spec (String.length dir + 1 + String.length name + 5)
                         (String.length dir + 1)); [lia|].
  replace (Z.of_nat (String.length dir + 1 + String.length name)
           - Z.of_nat (String.length dir) - 1)
    with (Z.of_nat (String.length name)) by lia.
  rewrite Z.mod_small by lia.
  rewrite Z.min_l by lia. rewrite Nat2Z.id.
  replace model
    with ((dir ++ String sep "") ++ name ++ ".pmdl")%string
    by (unfold model; rewrite TrimFacts.append_assoc; reflexivity).
  replace (String.length dir + 1)%nat
    with (String.length (dir ++ String sep ""))
    by (rewrite NameFacts.length_append; reflexivity).
  now rewrite FilterFacts.substring_at_end_of_prefix.
Qed.

(** The theorem at [resources/models/ok_wake.pmdl]. *)
Lemma custom_model_names_hotword_witness :
  Str.mem "/" SEPARATORS = true
  /\ none_of SEPARATORS "ok_wake" = true
  /\ none_of "." "ok_wake" = true
  /\ custom_model "resources/models/ok_wake.pmdl" = true
  /\ Z.of_nat (String.length "resources/models/ok_wake.pmdl") < 2 ^ 64
  /\ hotword_name "resources/models/ok_wake.pmdl" = Some "ok wake".
Proof.
  assert (Z.of_nat (String.length "resources/models/ok_wake.pmdl") < 2 ^ 64)
    as Fits by (vm_compute; reflexivity).
  split; [reflexivity|]. split; [reflexivity|]. split; [reflexivity|].
  split; [reflexivity|]. split; [exact Fits|].
  exact (custom_model_names_hotword "resources/models" "ok_wake" "/"
           eq_refl eq_refl eq_refl eq_refl Fits).
Defined.

(** X22: a path that holds no directory separator and none of the models
    that the chain names itself gets the name "unknown", whatever the name
    of the file is. *)
Theorem custom_model_without_directory_is_unknown (model : string) :
  none_of SEPARATORS model = true ->
  custom_model model = true ->
  hotword_name model = Some "unknown".
Proof.
  intros NoSep Custom.
  destruct (NameFacts.custom_model_tests model Custom)
    as (T1 & T2 & T3 & T4 & T5).
  unfold hotword_name. rewrite T1, T2, T3, T4, T5.
  rewrite (NameFacts.find_last_of_none _ _ NoSep).
  now destruct (Str.contains ".pmdl" model).
Qed.

(** The theorem at [ok_wake.pmdl]. *)
Lemma custom_model_without_directory_is_unknown_witness :
  none_of SEPARATORS "ok_wake.pmdl" = true
  /\ custom_model "ok_wake.pmdl" = true
  /\ hotword_name "ok_wake.pmdl" = Some "unknown".
Proof.
  split; [reflexivity|]. split; [reflexivity|].
  exact (custom_model_without_directory_is_unknown "ok_wake.pmdl"
           eq_refl eq_refl).
Defined.

(** ** The command line *)

Module ArgFacts.

Lemma substring_all (s : string) : substring 0 (String.length s) s = s.
Proof. induction s as [|c s IH]; cbn; [reflexivity | now rewrite IH]. Qed.

Lemma starts_with_append (p s : string) : Str.starts_with p (p ++ s) = true.
Proof.
  unfold Str.starts_with. induction p as [|c p IH]; [now destruct s|].
  cbn [String.append prefix]. now destruct (ascii_dec c c).
Qed.

Lemma quiet_step (b : Build) (o : Options) (arg : string) :
  quiet (parse_arg b o arg) = true
  <-> quiet o = true \/ arg = "--quiet" \/ arg = "-q".
Proof.
  destruct (String.eqb_spec arg "--quiet") as [->|N1].
  { destruct b; cbn; tauto. }
  destruct (String.eqb_spec arg "-q") as [->|N2].
  { destruct b; cbn; tauto. }
  assert (quiet (parse_arg b o arg) = quiet o) as E.
  { unfold parse_arg.
    apply String.eqb_neq in N1, N2. rewrite N1, N2. cbn [orb].
    repeat match goal with
           | |- context [if ?c then _ else _] => destruct c
           | |- context [match stoi ?t with _ => _ end] => destruct (stoi t)
           end; reflexivity. }
  rewrite E. tauto.
Qed.

Lemma help_step (b : Build) (o : Options) (arg : string) :
  show_help (parse_arg b o arg) = true
  <-> show_help o = true \/ (b = MainCpp /\ (arg = "--help" \/ arg = "-h")).
Proof.
  destruct (String.eqb_spec arg "--help") as [->|N1].
  { destruct b; cbn; try destruct (Str.empty (model_path o)); cbn;
      intuition congruence. }
  destruct (String.eqb_spec arg "-h") as [->|N2].
  { destruct b; cbn; try destruct (Str.empty (model_path o)); cbn;
      intuition congruence. }
  assert (show_help (parse_arg b o arg) = show_help o) as E.
  { unfold parse_arg.
    apply String.eqb_neq in N1, N2. rewrite N1, N2. cbn [orb].
    replace (match b with MainCpp => false | _ => false end) with false
      by (now destruct b).
    repeat match goal with
           | |- context [if ?c then _ else _] => destruct c
           | |- context [match stoi ?t with _ => _ end] => destruct (stoi t)
           end; reflexivity. }
  rewrite E. tauto.
Qed.

Lemma fold_quiet (b : Build) (args : list string) (o : Options) :
  quiet (fold_left (parse_arg b) args o) = true
  <-> quiet o = true \/ In "--quiet" args \/ In "-q" args.
Proof.
  revert o. induction args as [|arg args IH]; intros o; cbn [fold_left In].
  - tauto.
  - rewrite IH, quiet_step. intuition congruence.
Qed.

Lemma fold_help (b : Build) (args : list string) (o : Options) :
  show_help (fold_left (parse_arg b) args o) = true
  <-> show_help o = true
      \/ (b = MainCpp /\ (In "--help" args \/ In "-h" args)).
Proof.
  revert o. induction args as [|arg args IH]; intros o; cbn [fold_left In].
  - tauto.
  - rewrite IH, help_step. intuition congruence.
Qed.

Lemma digits_of_uint (d : Decimal.uint) (acc : Z) :
  digits (Some acc) (NilEmpty.string_of_uint d) = Some (uint_value d acc).
Proof.
  revert acc. induction d as [|d IH|d IH|d IH|d IH|d IH|d IH|d IH|d IH|d IH|d IH];
    intros acc; cbn [NilEmpty.string_of_uint digits uint_value];
    [reflexivity|..];
    match goal with
    | |- context [digit ?c] =>
        let v := eval vm_compute in (digit c) in
        change (digit c) with v
    end;
    cbv iota beta; rewrite IH; f_equal; f_equal; lia.
Qed.

Lemma uint_value_acc (d : Decimal.uint) (p : positive) :
  Z.pos (Pos.of_uint_acc d p) = uint_value d (Z.pos p).
Proof.
  revert p. induction d as [|d IH|d IH|d IH|d IH|d IH|d IH|d IH|d IH|d IH|d IH];
    intros p; cbn [Pos.of_uint_acc uint_value];
    [reflexivity|..]; rewrite IH; f_equal; lia.
Qed.

Lemma uint_value_of_uint (d : Decimal.uint) :
  Z.of_N (N.of_uint d) = uint_value d 0.
Proof.
  unfold N.of_uint.
  induction d as [|d IH|d IH|d IH|d IH|d IH|d IH|d IH|d IH|d IH|d IH];
    cbn [Pos.of_uint uint_value Z.of_N];
    [reflexivity | exact IH |..]; apply uint_value_acc.
Qed.

Lemma stoi_of_uint (d : Decimal.uint) :
  d <> Decimal.Nil ->
  stoi (NilEmpty.string_of_uint d)
  = if (INT_MIN <=? uint_value d 0) && (uint_value d 0 <=? INT_MAX)
    then Some (uint_value d 0) else None.
Proof.
  intros N. unfold stoi.
  destruct d as [|d|d|d|d|d|d|d|d|d|d]; [congruence|..];
    cbn [NilEmpty.string_of_uint];
    match goal with
    | |- context [Str.drop_leading SPACES (String ?c ?t)] =>
        change (Str.drop_leading SPACES (String c t)) with (String c t);
        cbv iota beta;
        change (digits None (String c t))
          with (digits (Some (10 * 0 + (Z.of_nat (nat_of_ascii c) - 48))) t)
    end;
    rewrite digits_of_uint; cbn [uint_value]; reflexivity.
Qed.

Lemma stoi_to_string (n : Z) :
  0 <= n <= INT_MAX -> stoi (Str.to_string n) = Some n.
Proof.
  intros R. unfold Str.to_string.
  assert (N.to_uint (Z.to_N n) <> Decimal.Nil) as NN.
  { destruct (Z.to_N n); cbn [N.to_uint];
      [discriminate | apply DecimalPos.Unsigned.to_uint_nonnil]. }
  assert (NilZero.string_of_uint (N.to_uint (Z.to_N n))
          = NilEmpty.string_of_uint (N.to_uint (Z.to_N n))) as E.
  { destruct (N.to_uint (Z.to_N n)); [congruence | reflexivity..]. }
  rewrite E, stoi_of_uint by exact NN.
  rewrite <- uint_value_of_uint, DecimalN.Unsigned.of_to, Z2N.id by lia.
  unfold INT_MIN, INT_MAX in *.
  destruct (Z.leb_spec (-2147483648) n); [|lia].
  destruct (Z.leb_spec n 2147483647); [|lia]. reflexivity.
Qed.

End ArgFacts.

(** X23: the quiet mode is set exactly when [--quiet] or [-q] is among the
    arguments, wherever it stands. *)
Theorem quiet_exactly_when_asked (b : Build) (args : list string) :
  quiet (parse_args b args) = true <-> In "--quiet" args \/ In "-q" args.
Proof.
  unfold parse_args. rewrite ArgFacts.fold_quiet. cbn [quiet default_options].
  intuition discriminate.
Qed.

(** X24: [main] prints the usage and returns without starting the
    transcriber exactly in [main.cpp] and when [--help] or [-h] is among the
    arguments; the other file does not know these options. *)
Theorem usage_printed_exactly_on_help (b : Build) (args : list string) :
  main_action b args = PrintUsage
  <-> b = MainCpp /\ (In "--help" args \/ In "-h" args).
Proof.
  unfold main_action.
  pose proof (ArgFacts.fold_help b args default_options) as H.
  fold (parse_args b args) in H. cbn [show_help default_options] in H.
  destruct (show_help (parse_args b args)).
  - intuition discriminate.
  - split; [discriminate|]. intros K. intuition discriminate.
Qed.

(** X25: a [--lang=] or [--model=] option that comes last sets the language
    or the path of the model to the text after the equals sign, whatever
    came before. *)
Theorem last_option_wins (b : Build) (args : list string) (value : string) :
  lang (parse_args b (args ++ [("--lang=" ++ value)%string])) = value
  /\ model_path (parse_args b (args ++ [("--model=" ++ value)%string])) = value.
Proof.
  unfold parse_args. rewrite !fold_left_app. cbn [fold_left].
  split.
  - generalize (fold_left (parse_arg b) args default_options). intros o.
    unfold parse_arg.
    replace (match b with
             | MainCpp => String.eqb ("--lang=" ++ value)%string "--help"
                          || String.eqb ("--lang=" ++ value)%string "-h"
             | _ => false
             end) with false by (now destruct b).
    rewrite ArgFacts.starts_with_append.
    cbn [lang]. unfold suffix. cbn [String.append String.length Nat.sub].
    cbn [substring]. rewrite Nat.sub_0_r. apply ArgFacts.substring_all.
  - generalize (fold_left (parse_arg b) args default_options). intros o.
    unfold parse_arg.
    replace (match b with
             | MainCpp => String.eqb ("--model=" ++ value)%string "--help"
                          || String.eqb ("--model=" ++ value)%string "-h"
             | _ => false
             end) with false by (now destruct b).
    change (Str.starts_with "--lang=" ("--model=" ++ value)%string) with false.
    change (String.eqb ("--model=" ++ value)%string "--gpu") with false.
    change (Str.starts_with "--ngl=" ("--model=" ++ value)%string) with false.
    rewrite ArgFacts.starts_with_append.
    cbn [model_path]. unfold suffix. cbn [String.append String.length Nat.sub].
    cbn [substring]. rewrite Nat.sub_0_r. apply ArgFacts.substring_all.
Qed.

(** X26: [--ngl=n] as the last argument, for a decimal [n] in the range of
    [int], sets the number of layers to [n]: [std::stoi] reads back what
    [std::to_string] writes. *)
Theorem ngl_option_sets_layers (b : Build) (args : list string) (n : Z) :
  0 <= n <= INT_MAX ->
  ngl (parse_args b (args ++ [("--ngl=" ++ Str.to_string n)%string])) = n.
Proof.
  intros R. unfold parse_args. rewrite fold_left_app. cbn [fold_left].
  generalize (fold_left (parse_arg b) args default_options). intros o.
  unfold parse_arg.
  replace (match b with
           | MainCpp => String.eqb ("--ngl=" ++ Str.to_string n)%string "--help"
                        || String.eqb ("--ngl=" ++ Str.to_string n)%string "-h"
           | _ => false
           end) with false by (now destruct b).
  change (Str.starts_with "--lang=" ("--ngl=" ++ Str.to_string n)%string)
    with false.
  change (String.eqb ("--ngl=" ++ Str.to_string n)%string "--gpu") with false.
  rewrite ArgFacts.starts_with_append.
  unfold suffix. cbn [String.append String.length Nat.sub].
  cbn [substring]. rewrite Nat.sub_0_r, ArgFacts.substring_all.
  now rewrite ArgFacts.stoi_to_string.
Qed.

(** The theorem at [--gpu --ngl=20]. *)
Lemma ngl_option_sets_layers_witness :
  0 <= 20 <= INT_MAX
  /\ ngl (parse_args MainCpp
            (["--gpu"] ++ [("--ngl=" ++ Str.to_string 20)%string])) = 20.
Proof.
  assert (0 <= 20 <= INT_MAX) as R by (unfold INT_MAX; lia).
  split; [exact R|].
  exact (ngl_option_sets_layers MainCpp ["--gpu"] 20 R).
Defined.
